(** * KrakenD template support: schema store, context resolution,
      diagnostics, completion and hover

    A shallow embedding of the language-server core of the extension
    ([src/lsp/schemaParser.ts], [contextAnalyzer.ts],
    [krakenDDiagnosticsProvider.ts], [krakenDCompletionProvider.ts],
    [krakenDHoverProvider.ts]) and the properties of its specification.

    Modelling conventions.
    - A JavaScript string is a [string]: a sequence of code units, here
      restricted to the 8-bit range (ASCII and Latin-1 text).  Character
      classes ([\w], [\s]), [trim] and [toLowerCase] are the ECMAScript ones
      cut down to that range.
    - A JavaScript index that may be [-1] is a [Z]; lengths, line numbers
      and columns are [nat].
    - Every regular expression of the source is a hand-written scanner; the
      comment above each scanner quotes the expression it embeds.
    - A [Map] is an association list in insertion order.
    - The [diagnostics] array that the passes push onto is threaded through
      them explicitly.
    - A document has LF line ends; the schema is read as the
      [KrakenDSchema] its interface declares.  An object is the list of its
      own entries; a member read at a name that the program writes out is
      an entry, a member read at a key that comes from the data (the
      definitions of the schema) is an entry or what the object inherits
      from [Object.prototype].  [fs.readFileSync], [JSON.parse] and
      [decodeURIComponent] are functions of the host, [None] when they
      throw. *)

From Stdlib Require Import String Ascii List ZArith Lia Bool Arith Sorted.
Import ListNotations.

Open Scope string_scope.
Open Scope list_scope.
Open Scope nat_scope.

(* ================================================================== *)
(** ** ECMAScript string primitives *)
(* ================================================================== *)

Module Js.

(** The class [\w] = [[A-Za-z0-9_]]. *)
Definition isWordChar (c : ascii) : bool :=
  let n := nat_of_ascii c in
  ((48 <=? n) && (n <=? 57)) || ((65 <=? n) && (n <=? 90))
  || ((97 <=? n) && (n <=? 122)) || (n =? 95).

(** The class [\s], which is also what [trim] strips: TAB, LF, VT, FF, CR,
    SPACE and NO-BREAK SPACE. *)
Definition isSpace (c : ascii) : bool :=
  let n := nat_of_ascii c in
  ((9 <=? n) && (n <=? 13)) || (n =? 32) || (n =? 160).

(** [toLowerCase] on one code unit: [A-Z] and the Latin-1 capitals
    U+00C0..U+00DE (without the multiplication sign U+00D7). *)
Definition lowerChar (c : ascii) : ascii :=
  let n := nat_of_ascii c in
  if ((65 <=? n) && (n <=? 90))
     || ((192 <=? n) && (n <=? 222) && negb (n =? 215))
  then ascii_of_nat (n + 32) else c.

Fixpoint toLowerCase (s : string) : string :=
  match s with
  | EmptyString => EmptyString
  | String c s' => String (lowerChar c) (toLowerCase s')
  end.

Definition isEmpty (s : string) : bool :=
  match s with EmptyString => true | String _ _ => false end.

(** [s.substring(0, n)] *)
Fixpoint take (n : nat) (s : string) : string :=
  match n, s with
  | S n', String c s' => String c (take n' s')
  | _, _ => EmptyString
  end.

(** [s.substring(n)] *)
Fixpoint drop (n : nat) (s : string) : string :=
  match n, s with
  | S n', String _ s' => drop n' s'
  | _, _ => s
  end.

(** [s.startsWith(p)] *)
Fixpoint startsWith (p s : string) : bool :=
  match p, s with
  | EmptyString, _ => true
  | String a p', String b s' => Ascii.eqb a b && startsWith p' s'
  | String _ _, EmptyString => false
  end.

(** [s.endsWith(p)] *)
Definition endsWith (p s : string) : bool :=
  (String.length p <=? String.length s)
  && String.eqb (drop (String.length s - String.length p) s) p.

Fixpoint indexOf_opt (p s : string) : option nat :=
  if startsWith p s then Some 0
  else match s with
       | EmptyString => None
       | String _ s' => option_map S (indexOf_opt p s')
       end.

Fixpoint lastIndexOf_opt (p s : string) : option nat :=
  match s with
  | EmptyString => if startsWith p EmptyString then Some 0 else None
  | String _ s' =>
      match lastIndexOf_opt p s' with
      | Some n => Some (S n)
      | None => if startsWith p s then Some 0 else None
      end
  end.

Definition toIndex (o : option nat) : Z :=
  match o with Some n => Z.of_nat n | None => (-1)%Z end.

(** [s.indexOf(p)], [s.lastIndexOf(p)], [s.includes(p)] *)
Definition indexOf (p s : string) : Z := toIndex (indexOf_opt p s).
Definition lastIndexOf (p s : string) : Z := toIndex (lastIndexOf_opt p s).
Definition includes (p s : string) : bool :=
  match indexOf_opt p s with Some _ => true | None => false end.

(** The longest prefix whose characters satisfy [p], and what follows it:
    one greedy [[class]*]. *)
Fixpoint span (p : ascii -> bool) (s : string) : string * string :=
  match s with
  | EmptyString => (EmptyString, EmptyString)
  | String c s' =>
      if p c then let (a, b) := span p s' in (String c a, b)
      else (EmptyString, s)
  end.

Definition trimStart (s : string) : string := snd (span isSpace s).

Fixpoint trimEnd (s : string) : string :=
  match s with
  | EmptyString => EmptyString
  | String c s' =>
      match trimEnd s' with
      | EmptyString => if isSpace c then EmptyString else String c EmptyString
      | t => String c t
      end
  end.

(** [s.trim()] *)
Definition trim (s : string) : string := trimEnd (trimStart s).

(** [s.split(sep)] for a one-character separator. *)
Fixpoint split (sep : ascii) (s : string) : list string :=
  match s with
  | EmptyString => [EmptyString]
  | String c s' =>
      if Ascii.eqb c sep then EmptyString :: split sep s'
      else match split sep s' with
           | x :: xs => String c x :: xs
           | [] => [String c EmptyString]
           end
  end.

(** [l.join(sep)] *)
Definition join (sep : string) (l : list string) : string := String.concat sep l.

(** The double quote, as a character and as a text, and the class of
    the characters other than it. *)
Definition quote : ascii := "034"%char.
Definition q : string := String quote EmptyString.
Definition notQuote (c : ascii) : bool := negb (Ascii.eqb c quote).

(** The last character of a string. *)
Fixpoint lastChar (s : string) : option ascii :=
  match s with
  | EmptyString => None
  | String c EmptyString => Some c
  | String _ s' => lastChar s'
  end.

(** [stripPrefix p s] consumes the literal [p] at the head of [s]. *)
Definition stripPrefix (p s : string) : option string :=
  if startsWith p s then Some (drop (String.length p) s) else None.

(** A global regular expression run over a string ([matchAll], or [exec]
    in a loop): [matchAt] tries the expression at the head of the remaining
    text and returns what it captured with the length of the match; the next
    attempt starts after the match, or one character further on when there
    was none.  None of the expressions of this program matches the empty
    string.  The result pairs every match with its index. *)
Fixpoint scanFrom {A : Type} (matchAt : string -> option (A * nat))
         (skip idx : nat) (s : string) : list (nat * A) :=
  match s with
  | EmptyString => []
  | String _ s' =>
      match skip with
      | S k => scanFrom matchAt k (S idx) s'
      | O =>
          match matchAt s with
          | Some (a, len) => (idx, a) :: scanFrom matchAt (len - 1) (S idx) s'
          | None => scanFrom matchAt 0 (S idx) s'
          end
      end
  end.

Definition scanAll {A : Type} (matchAt : string -> option (A * nat))
           (s : string) : list (nat * A) :=
  scanFrom matchAt 0 0 s.

(** A regular expression ending in [$] and applied with [match]: the
    leftmost position from which [matchAt] consumes the whole rest. *)
Fixpoint matchToEnd {A : Type} (matchAt : string -> option A)
         (s : string) : option A :=
  match matchAt s with
  | Some a => Some a
  | None => match s with
            | EmptyString => None
            | String _ s' => matchToEnd matchAt s'
            end
  end.

End Js.

(* ================================================================== *)
(** ** The editor's text buffer *)
(* ================================================================== *)

Module Vscode.

Record Position := mkPosition { line : nat; character : nat }.

Record Range := mkRange { range_start : Position; range_end : Position }.

Inductive DiagnosticSeverity := Error | Warning.

Record Diagnostic := mkDiagnostic {
  range : Range;
  message : string;
  severity : DiagnosticSeverity;
  source : string;
  code : string
}.

(** A document with LF line ends. *)
Record TextDocument := mkDocument {
  fileName : string;
  languageId : string;
  getText : string
}.

Definition LF : ascii := "010"%char.

Definition lines (d : TextDocument) : list string := Js.split LF (getText d).

(** [document.lineAt(n).text] *)
Definition lineAt (d : TextDocument) (n : nat) : string :=
  nth n (lines d) EmptyString.

Fixpoint positionAt_from (s : string) (off ln col : nat) : Position :=
  match off, s with
  | S off', String c s' =>
      if Ascii.eqb c LF then positionAt_from s' off' (S ln) 0
      else positionAt_from s' off' ln (S col)
  | _, _ => mkPosition ln col
  end.

(** [document.positionAt(offset)] *)
Definition positionAt (d : TextDocument) (off : nat) : Position :=
  positionAt_from (getText d) off 0 0.

Fixpoint lineStart (ls : list string) (n : nat) : nat :=
  match n, ls with
  | S n', l :: ls' => S (String.length l) + lineStart ls' n'
  | _, _ => 0
  end.

(** [document.offsetAt(position)]; the column is clamped to the line. *)
Definition offsetAt (d : TextDocument) (p : Position) : nat :=
  lineStart (lines d) (line p)
  + Nat.min (character p) (String.length (lineAt d (line p))).

(** [document.getText(range)] *)
Definition getTextIn (d : TextDocument) (r : Range) : string :=
  let a := offsetAt d (range_start r) in
  let b := offsetAt d (range_end r) in
  Js.take (b - a) (Js.drop a (getText d)).

End Vscode.

(* ================================================================== *)
(** ** contextAnalyzer.ts *)
(* ================================================================== *)

Module ContextAnalyzer.
Import Vscode.

Inductive CtxType := Endpoint | Backend | Unknown.

(** The string a context value is in the source. *)
Definition ctxName (t : CtxType) : string :=
  match t with
  | Endpoint => "endpoint"
  | Backend => "backend"
  | Unknown => "unknown"
  end.

Record TemplateContext := mkContext {
  type : CtxType;
  variableName : option string;
  fieldPath : option (list string)
}.

Definition unknownContext : TemplateContext := mkContext Unknown None None.

(** The greedy group [((?:\.\w+)* )] at the head of [s]; [inWord] tells
    that the scan stands inside the [\w+] of an iteration. *)
Fixpoint dottedTail (inWord : bool) (s : string) : string :=
  match s with
  | EmptyString => EmptyString
  | String c s' =>
      if Js.isWordChar c then
        if inWord then String c (dottedTail true s') else EmptyString
      else if Ascii.eqb c "."%char then
        match s' with
        | String c2 _ =>
            if Js.isWordChar c2 then String c (dottedTail true s')
            else EmptyString
        | EmptyString => EmptyString
        end
      else EmptyString
  end.

(** [expression.match(/\$(\w+)((?:\.\w+)* )/)]: groups 1 and 2 of the
    leftmost match. *)
Fixpoint varMatch (s : string) : option (string * string) :=
  match s with
  | EmptyString => None
  | String c s' =>
      if Ascii.eqb c "$"%char then
        let (w, rest) := Js.span Js.isWordChar s' in
        if Js.isEmpty w then varMatch s'
        else Some (w, dottedTail false rest)
      else varMatch s'
  end.

Definition notCloseBrace (c : ascii) : bool := negb (Ascii.eqb c "}"%char).

(** [\$(\w+)\s*:=\s*([^\}]+)\}\}] at the head of [s]: the bound variable,
    the source expression and the text after the match.  When nothing but
    white space stands between [:=] and the closing braces, [\s*] gives its
    last character back to the group. *)
Definition rangeBinding (s : string) : option (string * string * string) :=
  match Js.stripPrefix "$" s with
  | None => None
  | Some s1 =>
      let (v, s2) := Js.span Js.isWordChar s1 in
      if Js.isEmpty v then None
      else
        let (_, s3) := Js.span Js.isSpace s2 in
        match Js.stripPrefix ":=" s3 with
        | None => None
        | Some s4 =>
            let (w, s5) := Js.span Js.isSpace s4 in
            let (e, s6) := Js.span notCloseBrace s5 in
            match e with
            | String _ _ =>
                match Js.stripPrefix "}}" s6 with
                | Some r => Some (v, e, r)
                | None => None
                end
            | EmptyString =>
                match Js.lastChar w, Js.stripPrefix "}}" s5 with
                | Some c, Some r => Some (v, String c EmptyString, r)
                | _, _ => None
                end
            end
        end
  end.

(** [(?:\$\w+,\s* )] at the head of [s]: the text after the index variable
    and its comma. *)
Definition rangeIndex (s : string) : option string :=
  match Js.stripPrefix "$" s with
  | None => None
  | Some s1 =>
      let (v, s2) := Js.span Js.isWordChar s1 in
      if Js.isEmpty v then None
      else match Js.stripPrefix "," s2 with
           | None => None
           | Some s3 => Some (snd (Js.span Js.isSpace s3))
           end
  end.

(** [/\{\{\s*range\s+(?:\$\w+,\s* )?\$(\w+)\s*:=\s*([^\}]+)\}\}/] at the
    head of [s]: groups 1 and 2, and the length of the match. *)
Definition rangeAt (s : string) : option ((string * string) * nat) :=
  match Js.stripPrefix "{{" s with
  | None => None
  | Some s1 =>
      match Js.stripPrefix "range" (snd (Js.span Js.isSpace s1)) with
      | None => None
      | Some s3 =>
          let (w, s4) := Js.span Js.isSpace s3 in
          if Js.isEmpty w then None
          else
            let withIndex :=
              match rangeIndex s4 with
              | Some s5 => rangeBinding s5
              | None => None
              end in
            let found :=
              match withIndex with
              | Some r => Some r
              | None => rangeBinding s4
              end in
            match found with
            | Some (v, e, r) => Some ((v, e), String.length s - String.length r)
            | None => None
            end
      end
  end.

(** [Array.from(textBefore.matchAll(...))] *)
Definition rangeMatches (textBefore : string) : list (string * string) :=
  map snd (Js.scanAll rangeAt textBefore).

(** The text from the start of the fiftieth line above the position up
    to the position. *)
Definition windowBefore (document : TextDocument) (position : Position) : string :=
  getTextIn document
    (mkRange (mkPosition (Nat.max 0 (line position - 50)) 0) position).

Definition inferContextFromSurrounding (document : TextDocument)
           (position : Position) : CtxType :=
  let textBefore := windowBefore document position in
  let matches := rangeMatches textBefore in
  match List.last (map Some matches) None with
  | Some (variableName, rangeExpression) =>
      if Js.includes "endpoints" rangeExpression
         || Js.includes ".endpoints" rangeExpression then Endpoint
      else if Js.includes "backends" rangeExpression
              || Js.includes ".backends" rangeExpression
              || Js.includes "frontend_backends" rangeExpression then Backend
      else if Js.includes "endpoint" (Js.toLowerCase variableName) then Endpoint
      else if Js.includes "backend" (Js.toLowerCase variableName) then Backend
      else Unknown
  | None => Unknown
  end.

(** The hint a variable name gives when no iteration binding classifies
    the site. *)
Definition variableNameHint (variableName : string) : CtxType :=
  if String.eqb variableName "endpoint"
     || Js.includes "endpoint" (Js.toLowerCase variableName) then Endpoint
  else if String.eqb variableName "backend"
          || Js.includes "backend" (Js.toLowerCase variableName) then Backend
  else Unknown.

Definition analyzeContext (document : TextDocument) (position : Position)
  : TemplateContext :=
  let line := lineAt document (line position) in
  let charBeforeCursor := character position in
  let textBeforeCursor := Js.take charBeforeCursor line in
  let lastOpen := Js.lastIndexOf "{{" textBeforeCursor in
  let lastClose := Js.lastIndexOf "}}" textBeforeCursor in
  if (lastOpen =? -1)%Z || (lastClose >? lastOpen)%Z then unknownContext
  else
    let expression :=
      Js.trim (Js.drop (Z.to_nat (lastOpen + 2)) textBeforeCursor) in
    match varMatch expression with
    | Some (variableName, rest) =>
        let fieldPath :=
          if Js.isEmpty rest then []
          else filter (fun f => negb (Js.isEmpty f))
                      (Js.split "."%char (Js.drop 1 rest)) in
        let type0 := inferContextFromSurrounding document position in
        let type1 :=
          match type0 with
          | Unknown => variableNameHint variableName
          | _ => type0
          end in
        mkContext type1 (Some variableName) (Some fieldPath)
    | None => unknownContext
    end.

(** [isFieldChar(line[i])]: [/[a-zA-Z0-9_]/.test] on the one code unit
    at an index.  Beyond the end of the line [line[i]] is [undefined],
    which [test] reads as the text [undefined], and that text holds a
    letter. *)
Definition isFieldChar (char : option ascii) : bool :=
  match char with
  | Some c => Js.isWordChar c
  | None => true
  end.

(** The first loop of [getFieldWordRange]: [start] moves backwards. *)
Fixpoint wordStart (line : string) (start : nat) : nat :=
  match start with
  | O => O
  | S before =>
      if isFieldChar (String.get before line) then wordStart line before
      else start
  end.

(** The second loop: [end] moves forwards over [rest], the text of the
    line from [end] on, and stops at the end of the line. *)
Fixpoint wordEnd (rest : string) (end_ : nat) : nat :=
  match rest with
  | EmptyString => end_
  | String c rest' =>
      if isFieldChar (Some c) then wordEnd rest' (S end_) else end_
  end.

Definition getFieldWordRange (document : TextDocument) (position : Position)
  : option Range :=
  let line := lineAt document (Vscode.line position) in
  let char := character position in
  let start := wordStart line char in
  let end_ := wordEnd (Js.drop char line) char in
  if start =? end_ then None
  else Some (mkRange (mkPosition (Vscode.line position) start)
                     (mkPosition (Vscode.line position) end_)).

Definition isInsideTemplateDelimiters (document : TextDocument)
           (position : Position) : bool :=
  let line := lineAt document (Vscode.line position) in
  let textBefore := Js.take (character position) line in
  let textAfter := Js.drop (character position) line in
  let lastOpen := Js.lastIndexOf "{{" textBefore in
  let lastClose := Js.lastIndexOf "}}" textBefore in
  let nextClose := Js.indexOf "}}" textAfter in
  negb (lastOpen =? -1)%Z
  && ((lastClose =? -1)%Z || (lastClose <? lastOpen)%Z)
  && negb (nextClose =? -1)%Z.

Record FieldReference := mkReference { variable : string; field : string }.

(** [/\$(\w+)\.(\w+)/] at the head of [s]. *)
Definition referenceAt (s : string) : option FieldReference :=
  match Js.stripPrefix "$" s with
  | None => None
  | Some s1 =>
      let (v, s2) := Js.span Js.isWordChar s1 in
      if Js.isEmpty v then None
      else match Js.stripPrefix "." s2 with
           | None => None
           | Some s3 =>
               let (f, _) := Js.span Js.isWordChar s3 in
               if Js.isEmpty f then None else Some (mkReference v f)
           end
  end.

(** [text.match(/\$(\w+)\.(\w+)/)]: the leftmost match. *)
Fixpoint parseFieldReference (text : string) : option FieldReference :=
  match referenceAt text with
  | Some reference => Some reference
  | None =>
      match text with
      | EmptyString => None
      | String _ text' => parseFieldReference text'
      end
  end.

Definition getExpressionAtPosition (document : TextDocument)
           (position : Position) : option string :=
  let line := lineAt document (Vscode.line position) in
  let textBefore := Js.take (character position) line in
  let lastOpen := Js.lastIndexOf "{{" textBefore in
  if (lastOpen =? -1)%Z then None
  else Some (Js.trim (Js.drop (Z.to_nat (lastOpen + 2)) textBefore)).

End ContextAnalyzer.

(* ================================================================== *)
(** ** schemaParser.ts *)
(* ================================================================== *)

Module SchemaParser.
Import ContextAnalyzer.

#[local] Set Warnings "-register-all".

(** [type?: string | string[]] *)
Inductive SchemaType :=
| TypeName (t : string)
| TypeList (ts : list string).

(** [interface SchemaProperty].  An object ([properties], the
    [definitions] of the schema) is the list of its entries in the order
    [Object.entries] yields them; [default], which the source keeps as
    [any], is its JSON text. *)
Inductive SchemaProperty := mkProperty {
  p_type : option SchemaType;
  p_description : option string;
  p_title : option string;
  p_default : option string;
  p_enum : option (list string);
  p_properties : option (list (string * SchemaProperty));
  p_items : option SchemaProperty;
  p_ref : option string;
  p_required : option (list string)
}.

Record KrakenDSchema := mkSchema {
  s_properties : list (string * SchemaProperty);
  s_definitions : list (string * SchemaProperty)
}.

Record FieldInfo := mkField {
  name : string;
  type : string;
  description : string;
  default : option string;
  enum : option (list string);
  required : bool
}.

(** [Map<string, V>]: [get], [set] (an existing key keeps its place) and
    the values in insertion order. *)
Fixpoint map_get {V : Type} (k : string) (m : list (string * V)) : option V :=
  match m with
  | [] => None
  | (k', v) :: m' => if String.eqb k' k then Some v else map_get k m'
  end.

Fixpoint map_set {V : Type} (k : string) (v : V) (m : list (string * V))
  : list (string * V) :=
  match m with
  | [] => [(k, v)]
  | (k', v') :: m' =>
      if String.eqb k' k then (k, v) :: m' else (k', v') :: map_set k v m'
  end.

Definition map_values {V : Type} (m : list (string * V)) : list V := map snd m.

(** The state of a [SchemaParser] object. *)
Record SchemaParser := mkParser {
  schema : option KrakenDSchema;
  endpointFields : list (string * FieldInfo);
  backendFields : list (string * FieldInfo);
  rootFields : list (string * FieldInfo)
}.

(** Field mappings for custom prefixed fields. *)
Definition fieldMappings : list (string * string) :=
  [ ("output_encoding", "endpoint_output_encoding");
    ("url", "endpoint_url");
    ("input_headers", "endpoint_input_headers");
    ("input_query_strings", "endpoint_input_query_strings");
    ("extra_config", "endpoint_extra_config");
    ("encoding", "backend_encoding");
    ("method", "backend_method");
    ("url_pattern", "backend_url_pattern");
    ("settings", "backend_settings") ].

(** A string in a condition: the empty string is falsy. *)
Definition truthy (o : option string) : bool :=
  match o with
  | Some s => negb (Js.isEmpty s)
  | None => false
  end.

(** [a || b] on optional strings. *)
Definition orElse (a : option string) (b : string) : string :=
  match a with
  | Some s => if Js.isEmpty s then b else s
  | None => b
  end.

Fixpoint getTypeString (prop : SchemaProperty) : string :=
  match prop with
  | mkProperty ty _ _ _ _ _ its rf _ =>
      if truthy rf then "object"
      else
        match ty with
        | Some (TypeList ts) => Js.join " | " ts
        | Some (TypeName t) =>
            match its with
            | Some it =>
                if String.eqb t "array" then (getTypeString it ++ "[]")%string
                else orElse (Some t) "any"
            | None => orElse (Some t) "any"
            end
        | None => "any"
        end
  end.

(** [required.includes(key)] *)
Definition includesKey (key : string) (l : list string) : bool :=
  existsb (String.eqb key) l.

Definition parseFields (properties : list (string * SchemaProperty))
           (targetMap : list (string * FieldInfo)) (required : list string)
  : list (string * FieldInfo) :=
  fold_left
    (fun targetMap (entry : string * SchemaProperty) =>
       let (key, prop) := entry in
       let field :=
         mkField key (getTypeString prop)
                 (orElse (p_description prop) (orElse (p_title prop) ""))
                 (p_default prop) (p_enum prop) (includesKey key required) in
       map_set key field targetMap)
    properties targetMap.

(** [s.replace(pat, rep)] with a string pattern: the first occurrence. *)
Fixpoint replaceFirst (pat rep s : string) : string :=
  if Js.startsWith pat s then (rep ++ Js.drop (String.length pat) s)%string
  else match s with
       | EmptyString => EmptyString
       | String c s' => String c (replaceFirst pat rep s')
       end.

(** [s.replace(/pat/g, rep)] for a literal, non-empty [pat]. *)
Fixpoint replaceAll_from (pat rep : string) (skip : nat) (s : string) : string :=
  match s with
  | EmptyString => EmptyString
  | String c s' =>
      match skip with
      | S k => replaceAll_from pat rep k s'
      | O =>
          if Js.startsWith pat s
          then (rep ++ replaceAll_from pat rep (String.length pat - 1) s')%string
          else String c (replaceAll_from pat rep 0 s')
      end
  end.

Definition replaceAll (pat rep s : string) : string := replaceAll_from pat rep 0 s.

Definition emptyParser : SchemaParser := mkParser None [] [] [].

(** The names of the members that every object inherits from
    [Object.prototype]. *)
Definition objectPrototype : list string :=
  [ "constructor"; "__defineGetter__"; "__defineSetter__"; "hasOwnProperty";
    "__lookupGetter__"; "__lookupSetter__"; "isPrototypeOf";
    "propertyIsEnumerable"; "toString"; "valueOf"; "__proto__";
    "toLocaleString" ].

(** What is read at a key of the definitions: an entry of the object, or
    the member of that name inherited from [Object.prototype] (a function,
    or for [__proto__] the prototype itself).  An inherited member is
    truthy and has none of the members of a [SchemaProperty]. *)
Inductive Resolved :=
| Own (definition : SchemaProperty)
| Inherited (key : string).

(** [definitions[key]]: an own entry comes before an inherited member. *)
Definition readKey (key : string) (definitions : list (string * SchemaProperty))
  : option Resolved :=
  match map_get key definitions with
  | Some definition => Some (Own definition)
  | None =>
      if existsb (String.eqb key) objectPrototype then Some (Inherited key)
      else None
  end.

(** [value.properties] and [value.required] *)
Definition propertiesOf (value : Resolved)
  : option (list (string * SchemaProperty)) :=
  match value with
  | Own definition => p_properties definition
  | Inherited _ => None
  end.

Definition requiredOf (value : Resolved) : option (list string) :=
  match value with
  | Own definition => p_required definition
  | Inherited _ => None
  end.

Section Host.

(** What the program takes from its host: [fs.readFileSync(path, 'utf-8')]
    and [JSON.parse] read as a [KrakenDSchema], both [None] when they throw,
    and [decodeURIComponent], [None] on a [URIError]. *)
Variable readFileSync : string -> option string.
Variable JSON_parse : string -> option KrakenDSchema.
Variable decodeURIComponent : string -> option string.

Definition resolveRef (this : SchemaParser) (ref : string) : option Resolved :=
  match schema this with
  | None => None
  | Some sch =>
      let refPath := replaceFirst "#/definitions/" "" ref in
      match readKey refPath (s_definitions sch) with
      | Some value => Some value
      | None =>
          let encodedPath := replaceAll ":" "%3A" (replaceAll "/" "~1" refPath) in
          match readKey encodedPath (s_definitions sch) with
          | Some value => Some value
          | None =>
              match decodeURIComponent
                      (replaceAll "%3A" ":" (replaceAll "~1" "/" refPath)) with
              | Some decodedPath => readKey decodedPath (s_definitions sch)
              | None => None
              end
          end
      end
  end.

(** [x?.items?.$ref] *)
Definition itemsRef (x : option SchemaProperty) : option string :=
  match x with
  | Some p => match p_items p with
              | Some it => p_ref it
              | None => None
              end
  | None => None
  end.

Definition orNil (l : option (list string)) : list string :=
  match l with Some r => r | None => [] end.

Definition parseBackend (this : SchemaParser)
           (endpointProps : list (string * SchemaProperty)) : SchemaParser :=
  let backendRef := itemsRef (map_get "backend" endpointProps) in
  match backendRef with
  | Some ref =>
      if Js.isEmpty ref then this
      else
        match resolveRef this ref with
        | Some backendDef =>
            match propertiesOf backendDef with
            | Some props =>
                mkParser (schema this) (endpointFields this)
                  (parseFields props (backendFields this)
                               (orNil (requiredOf backendDef)))
                  (rootFields this)
            | None => this
            end
        | None => this
        end
  | None => this
  end.

Definition parseSchema (this : SchemaParser) : SchemaParser :=
  match schema this with
  | None => this
  | Some sch =>
      let this1 :=
        mkParser (schema this) (endpointFields this) (backendFields this)
                 (parseFields (s_properties sch) (rootFields this) []) in
      let endpointRef := itemsRef (map_get "endpoints" (s_properties sch)) in
      match endpointRef with
      | Some ref =>
          if Js.isEmpty ref then this1
          else
            match resolveRef this1 ref with
            | Some endpointDef =>
                match propertiesOf endpointDef with
                | Some props =>
                    let this2 :=
                      mkParser (schema this1)
                        (parseFields props (endpointFields this1)
                                     (orNil (requiredOf endpointDef)))
                        (backendFields this1) (rootFields this1) in
                    parseBackend this2 props
                | None => this1
                end
            | None => this1
            end
      | None => this1
      end
  end.

(** [loadSchema]: an exception of [readFileSync] or [JSON.parse] is caught
    and logged, the object stays as it was. *)
Definition loadSchema (this : SchemaParser) (schemaPath : string) : SchemaParser :=
  match readFileSync schemaPath with
  | None => this
  | Some schemaContent =>
      match JSON_parse schemaContent with
      | None => this
      | Some sch =>
          parseSchema (mkParser (Some sch) (endpointFields this)
                                (backendFields this) (rootFields this))
      end
  end.

(** [new SchemaParser(schemaPath)] *)
Definition newSchemaParser (schemaPath : string) : SchemaParser :=
  loadSchema emptyParser schemaPath.

End Host.

(** The copy of a field under its prefixed name. *)
Definition aliasOf (field : FieldInfo) (prefixed original : string) : FieldInfo :=
  mkField prefixed (type field)
          (description field ++ " (Custom field: maps to " ++ original ++ ")")%string
          (default field) (enum field) (required field).

(** The fields of a table followed by the prefixed copies of those that
    have a mapping (no value of [fieldMappings] is the empty string). *)
Definition withPrefixed (table : list (string * FieldInfo)) : list FieldInfo :=
  map_values table
  ++ flat_map
       (fun field =>
          match map_get (name field) fieldMappings with
          | Some mapping => [aliasOf field mapping (name field)]
          | None => []
          end)
       (map_values table).

Definition getEndpointFields (this : SchemaParser) : list FieldInfo :=
  withPrefixed (endpointFields this).

Definition getBackendFields (this : SchemaParser) : list FieldInfo :=
  withPrefixed (backendFields this).

Definition getRootFields (this : SchemaParser) : list FieldInfo :=
  map_values (rootFields this).

(** The [for] loop of [getFieldInfo] over [fieldMappings.entries()]. *)
Fixpoint findPrefixed (map : list (string * FieldInfo)) (fieldName : string)
         (entries : list (string * string)) : option FieldInfo :=
  match entries with
  | [] => None
  | (original, prefixed) :: rest =>
      if String.eqb prefixed fieldName then
        match map_get original map with
        | Some field => Some (aliasOf field prefixed original)
        | None => findPrefixed map fieldName rest
        end
      else findPrefixed map fieldName rest
  end.

Definition tableOf (this : SchemaParser) (context : CtxType)
  : list (string * FieldInfo) :=
  match context with
  | Endpoint => endpointFields this
  | Backend => backendFields this
  | Unknown => rootFields this
  end.

Definition getFieldInfo (this : SchemaParser) (context : CtxType)
           (fieldName : string) : option FieldInfo :=
  let map := tableOf this context in
  match map_get fieldName map with
  | Some field => Some field
  | None => findPrefixed map fieldName fieldMappings
  end.

Definition isValidField (this : SchemaParser) (context : CtxType)
           (fieldName : string) : bool :=
  match getFieldInfo this context fieldName with
  | Some _ => true
  | None => false
  end.

(** [field?.enum] *)
Definition getEnumValues (this : SchemaParser) (context : CtxType)
           (fieldName : string) : option (list string) :=
  match getFieldInfo this context fieldName with
  | Some field => enum field
  | None => None
  end.

(** The field list of a context, as the diagnostics and completion
    providers select it. *)
Definition getFields (this : SchemaParser) (contextType : CtxType) : list FieldInfo :=
  match contextType with
  | Endpoint => getEndpointFields this
  | Backend => getBackendFields this
  | Unknown => getRootFields this
  end.

End SchemaParser.

(* ================================================================== *)
(** ** krakenDDiagnosticsProvider.ts *)
(* ================================================================== *)

Module DiagnosticsProvider.
Import Vscode ContextAnalyzer SchemaParser.

(** [/\{\{\s*\$(\w+)\.(\w+)/] at the head of [s]: the matched text with
    groups 1 and 2, and the length of the match. *)
Definition fieldRefAt (s : string) : option ((string * string * string) * nat) :=
  match Js.stripPrefix "{{" s with
  | None => None
  | Some s1 =>
      match Js.stripPrefix "$" (snd (Js.span Js.isSpace s1)) with
      | None => None
      | Some s3 =>
          let (v, s4) := Js.span Js.isWordChar s3 in
          if Js.isEmpty v then None
          else
            match Js.stripPrefix "." s4 with
            | None => None
            | Some s5 =>
                let (f, s6) := Js.span Js.isWordChar s5 in
                if Js.isEmpty f then None
                else
                  let len := String.length s - String.length s6 in
                  Some ((Js.take len s, v, f), len)
            end
      end
  end.

Fixpoint fillRow (c2 : ascii) (str1 : string) (prev : list nat) (left : nat)
  : list nat :=
  match str1, prev with
  | String c1 str1', diag :: ((up :: _) as prev') =>
      let cell :=
        if Ascii.eqb c2 c1 then diag
        else Nat.min (diag + 1) (Nat.min (left + 1) (up + 1)) in
      cell :: fillRow c2 str1' prev' cell
  | _, _ => []
  end.

(** Row [i] of the matrix from row [i - 1]. *)
Definition nextRow (c2 : ascii) (str1 : string) (prev : list nat) (i : nat)
  : list nat :=
  i :: fillRow c2 str1 prev i.

Fixpoint laterRows (str1 str2 : string) (prev : list nat) (i : nat)
  : list (list nat) :=
  match str2 with
  | EmptyString => []
  | String c2 str2' =>
      let row := nextRow c2 str1 prev i in
      row :: laterRows str1 str2' row (S i)
  end.

(** The full matrix: [matrix[i][j]] for [i <= str2.length] and
    [j <= str1.length]. *)
Definition levenshteinMatrix (str1 str2 : string) : list (list nat) :=
  let row0 := seq 0 (S (String.length str1)) in
  row0 :: laterRows str1 str2 row0 1.

Definition levenshteinDistance (str1 str2 : string) : nat :=
  nth (String.length str1)
      (nth (String.length str2) (levenshteinMatrix str1 str2) []) 0.

(** [sort((a, b) => a.distance - b.distance)]: the sort of an array is
    stable, items of equal distance keep their order. *)
Fixpoint insertByDistance (x : string * nat) (l : list (string * nat))
  : list (string * nat) :=
  match l with
  | [] => [x]
  | y :: l' =>
      if snd x <=? snd y then x :: l else y :: insertByDistance x l'
  end.

Definition sortByDistance (l : list (string * nat)) : list (string * nat) :=
  fold_right insertByDistance [] l.

Definition findSimilarFields (schemaParser : SchemaParser)
           (contextType : CtxType) (fieldName : string) : list string :=
  let fields := getFields schemaParser contextType in
  map fst
    (sortByDistance
       (filter (fun item => snd item <=? 3)
          (map (fun f =>
                  (name f,
                   levenshteinDistance (Js.toLowerCase fieldName)
                                       (Js.toLowerCase (name f))))
               fields))).

(** The three names at most that the message of a diagnostic proposes. *)
Definition suggested (schemaParser : SchemaParser) (contextType : CtxType)
           (fieldName : string) : list string :=
  firstn 3 (findSimilarFields schemaParser contextType fieldName).

Definition unknownFieldMessage (schemaParser : SchemaParser)
           (contextType : CtxType) (fieldName : string) : string :=
  let base :=
    ("Field '" ++ fieldName ++ "' does not exist in "
               ++ ctxName contextType ++ " schema")%string in
  match findSimilarFields schemaParser contextType fieldName with
  | [] => base
  | _ :: _ =>
      (base ++ ". Did you mean: "
            ++ Js.join ", " (suggested schemaParser contextType fieldName)
            ++ "?")%string
  end.

(** A match of the field pattern: its index, and the matched text with
    groups 1 and 2. *)
Definition FieldMatch : Type := (nat * (string * string * string))%type.

(** The text [$variable.field] of a match. *)
Definition referenceOf (found : FieldMatch) : string :=
  let '(_, (_, variableName, fieldName)) := found in
  ("$" ++ variableName ++ "." ++ fieldName)%string.

(** [matchStart = match.index + match[0].indexOf(reference)] *)
Definition matchStartOf (found : FieldMatch) : nat :=
  let '(index, (match0, _, _)) := found in
  index + Z.to_nat (Js.indexOf (referenceOf found) match0).

(** The position at which the loop resolves the context of a match. *)
Definition positionOf (document : TextDocument) (found : FieldMatch) : Position :=
  positionAt document (matchStartOf found).

(** One turn of the [while] loop of [updateDiagnostics]: what a match adds
    to the diagnostics. *)
Definition checkFieldReference (schemaParser : SchemaParser)
           (document : TextDocument) (found : FieldMatch) : list Diagnostic :=
  let '(_, (_, _, fieldName)) := found in
  let matchStart := matchStartOf found in
  let position := positionOf document found in
  let context := analyzeContext document position in
  match ContextAnalyzer.type context with
  | Unknown => []
  | contextType =>
      if isValidField schemaParser contextType fieldName then []
      else
        [ mkDiagnostic
            (mkRange position
                     (positionAt document
                        (matchStart + String.length (referenceOf found))))
            (unknownFieldMessage schemaParser contextType fieldName)
            Warning "KrakenD Schema" "unknown-field" ]
  end.

Definition fieldReferences (text : string) : list FieldMatch :=
  Js.scanAll fieldRefAt text.

Definition validateFieldReferences (schemaParser : SchemaParser)
           (document : TextDocument) (diagnostics : list Diagnostic)
  : list Diagnostic :=
  diagnostics
  ++ flat_map (checkFieldReference schemaParser document)
              (fieldReferences (getText document)).

(** [/\x22(\w+)\x22:\s*\x22([^\x22]+)\x22/] at the head of [s] (the
    double quote of the source is written [\x22] here): the matched text
    with groups 1 and 2, and the length of the match. *)
Definition jsonValueAt (s : string) : option ((string * string * string) * nat) :=
  match Js.stripPrefix Js.q s with
  | None => None
  | Some s1 =>
      let (k, s2) := Js.span Js.isWordChar s1 in
      if Js.isEmpty k then None
      else
        match Js.stripPrefix (Js.q ++ ":") s2 with
        | None => None
        | Some s3 =>
            match Js.stripPrefix Js.q (snd (Js.span Js.isSpace s3)) with
            | None => None
            | Some s5 =>
                let (v, s6) := Js.span Js.notQuote s5 in
                if Js.isEmpty v then None
                else
                  match Js.stripPrefix Js.q s6 with
                  | None => None
                  | Some s7 =>
                      let len := String.length s - String.length s7 in
                      Some ((Js.take len s, k, v), len)
                  end
            end
        end
  end.

(** One turn of the inner [while] loop of [validateEnumValues]. *)
Definition checkEnumValue (schemaParser : SchemaParser)
           (document : TextDocument) (lineIndex : nat)
           (found : nat * (string * string * string)) : list Diagnostic :=
  let '(index, (match0, fieldName, value)) := found in
  if Js.includes "{{" value then []
  else
    let position := mkPosition lineIndex 0 in
    let context := analyzeContext document position in
    match ContextAnalyzer.type context with
    | Unknown => []
    | contextType =>
        match getEnumValues schemaParser contextType fieldName with
        | Some ((_ :: _) as enumValues) =>
            if existsb (String.eqb value) enumValues then []
            else
              let valueStart :=
                index + Z.to_nat (Js.indexOf (Js.q ++ value ++ Js.q) match0) in
              [ mkDiagnostic
                  (mkRange (mkPosition lineIndex valueStart)
                           (mkPosition lineIndex
                                       (valueStart + String.length value + 2)))
                  ("Invalid value '" ++ value ++ "' for field '" ++ fieldName
                     ++ "'. Expected one of: " ++ Js.join ", " enumValues)%string
                  Error "KrakenD Schema" "invalid-enum-value" ]
        | _ => []
        end
    end.

(** [lines.forEach((line, lineIndex) => ...)] *)
Fixpoint forEachLine {A : Type} (f : string -> nat -> list A)
         (lines : list string) (lineIndex : nat) : list A :=
  match lines with
  | [] => []
  | line :: rest => f line lineIndex ++ forEachLine f rest (S lineIndex)
  end.

Definition validateEnumValues (schemaParser : SchemaParser)
           (document : TextDocument) (diagnostics : list Diagnostic)
  : list Diagnostic :=
  let lines := Js.split LF (getText document) in
  diagnostics
  ++ forEachLine
       (fun line lineIndex =>
          flat_map (checkEnumValue schemaParser document lineIndex)
                   (Js.scanAll jsonValueAt line))
       lines 0.

(** [line.replace(/\{\{[\s\S]*?\}\}/g, '0')] *)
Fixpoint replaceActions (skip : nat) (s : string) : string :=
  match s with
  | EmptyString => EmptyString
  | String c s' =>
      match skip with
      | S k => replaceActions k s'
      | O =>
          if Js.startsWith "{{" s then
            match Js.indexOf_opt "}}" (Js.drop 2 s) with
            | Some k => String "0"%char (replaceActions (k + 3) s')
            | None => String c (replaceActions 0 s')
            end
          else String c (replaceActions 0 s')
      end
  end.

(** [/^\s*\{\{[\s\S]*\}\}\s*$/.test(line)] *)
Definition templateOnly (line : string) : bool :=
  let t := Js.trim line in
  Js.startsWith "{{" t && Js.endsWith "}}" (Js.drop 2 t).

Definition cleanTemplateLine (line : string) : string :=
  if templateOnly line then
    if Js.includes "," line then "," else ""
  else
    let cleaned := replaceActions 0 line in
    if Js.isEmpty (Js.trim cleaned) then "" else cleaned.

(** [/\x22\s*[^\x22]+\x22\s*:/] at the head of [s].  White space is
    no quote, so the text between the quotes is one non-empty run of
    characters other than the quote. *)
Definition jsonPropertyAt (s : string) : bool :=
  match Js.stripPrefix Js.q s with
  | None => false
  | Some s1 =>
      let (k, s2) := Js.span Js.notQuote s1 in
      if Js.isEmpty k then false
      else match Js.stripPrefix Js.q s2 with
           | None => false
           | Some s3 => Js.startsWith ":" (snd (Js.span Js.isSpace s3))
           end
  end.

(** [regex.test(s)] for an expression without anchors. *)
Fixpoint testAnywhere (matchAt : string -> bool) (s : string) : bool :=
  matchAt s
  || match s with
     | EmptyString => false
     | String _ s' => testAnywhere matchAt s'
     end.

Definition isJsonPropertyLine (line : string) : bool :=
  testAnywhere jsonPropertyAt line.

(** [/[{\[,]\s*$/.test(line)] *)
Definition lineAllowsNoComma (line : string) : bool :=
  match Js.lastChar (Js.trimEnd line) with
  | Some c =>
      Ascii.eqb c "{"%char || Ascii.eqb c "["%char || Ascii.eqb c ","%char
  | None => false
  end.

Fixpoint firstNonEmpty (lines : list string) (i : nat) : option nat :=
  match lines with
  | [] => None
  | l :: rest =>
      if Js.isEmpty (Js.trim l) then firstNonEmpty rest (S i) else Some i
  end.

Definition findNextNonEmptyLine (lines : list string) (start : nat) : Z :=
  Js.toIndex (firstNonEmpty (skipn start lines) start).

(** One turn of the [for] loop of [validateTemplateJsonCommas]. *)
Definition checkComma (rawLines cleanedLines : list string) (i : nat)
  : list Diagnostic :=
  let line := nth i cleanedLines "" in
  if Js.isEmpty line then []
  else
    let trimmed := Js.trim line in
    if Js.isEmpty trimmed || String.eqb trimmed "," then []
    else if negb (isJsonPropertyLine trimmed) then []
    else if lineAllowsNoComma trimmed then []
    else
      let nextIndex := findNextNonEmptyLine cleanedLines (i + 1) in
      if (nextIndex =? -1)%Z then []
      else
        let nextLine := Js.trim (nth (Z.to_nat nextIndex) cleanedLines "") in
        if String.eqb nextLine "," then []
        else if Js.startsWith Js.q nextLine then
          let raw := nth i rawLines "" in
          [ mkDiagnostic
              (mkRange (mkPosition i (Nat.max (String.length raw - 1) 0))
                       (mkPosition i (String.length raw)))
              "Possible missing comma before next JSON property"
              Error "Template JSON" "missing-comma" ]
        else [].

Definition validateTemplateJsonCommas (document : TextDocument)
           (diagnostics : list Diagnostic) : list Diagnostic :=
  if negb (Js.endsWith ".json.tmpl" (fileName document)) then diagnostics
  else
    let rawLines := Js.split LF (getText document) in
    let cleanedLines := map cleanTemplateLine rawLines in
    diagnostics
    ++ flat_map (checkComma rawLines cleanedLines)
                (seq 0 (List.length cleanedLines)).

(** [updateDiagnostics]: the list handed to the diagnostic collection, or
    [None] when the document is not a template and nothing is set. *)
Definition updateDiagnostics (schemaParser : SchemaParser)
           (document : TextDocument) : option (list Diagnostic) :=
  if negb (String.eqb (languageId document) "gotmpl") then None
  else
    let diagnostics := validateFieldReferences schemaParser document [] in
    let diagnostics := validateEnumValues schemaParser document diagnostics in
    let diagnostics := validateTemplateJsonCommas document diagnostics in
    Some diagnostics.

End DiagnosticsProvider.

(* ================================================================== *)
(** ** krakenDCompletionProvider.ts *)
(* ================================================================== *)

Module CompletionProvider.
Import Vscode ContextAnalyzer SchemaParser.

Inductive CompletionItemKind := Field | EnumMember.

Record CompletionItem := mkItem {
  label : string;
  kind : CompletionItemKind;
  detail : string;
  documentation : option string;
  sortText : option string;
  filterText : option string;
  insertText : option string
}.

(** [vscode.ProviderResult<CompletionItem[] | CompletionList>] *)
Inductive ProviderResult :=
| CompletionList (items : list CompletionItem) (isIncomplete : bool)
| Items (items : list CompletionItem)
| Undefined.

Definition nl : string := String LF EmptyString.

Definition createFieldCompletionItem (field : FieldInfo) (context : string)
  : CompletionItem :=
  let doc :=
    ("**" ++ name field ++ "** (KrakenD " ++ context ++ ")" ++ nl ++ nl
     ++ "Type: `" ++ SchemaParser.type field ++ "`" ++ nl ++ nl
     ++ (if Js.isEmpty (description field) then ""
         else description field ++ nl ++ nl)
     ++ (match default field with
         | Some d => "Default: `" ++ d ++ "`" ++ nl ++ nl
         | None => ""
         end)
     ++ (match enum field with
         | Some ((_ :: _) as values) =>
             "Valid values: "
               ++ Js.join ", " (map (fun v => "`" ++ v ++ "`") values)
               ++ nl ++ nl
         | _ => ""
         end)
     ++ "[KrakenD Documentation](https://www.krakend.io/docs/)")%string in
  mkItem (name field) Field
         (SchemaParser.type field
            ++ (if required field then " (required)" else "")
            ++ " - KrakenD " ++ context)%string
         (Some doc)
         (Some (if required field then "!0_" ++ name field
                else "!1_" ++ name field)%string)
         (Some (name field))
         None.

Definition getFieldCompletions (schemaParser : SchemaParser)
           (contextType : CtxType) (partialField : string)
  : list CompletionItem :=
  let fields := getFields schemaParser contextType in
  map (fun field => createFieldCompletionItem field (ctxName contextType))
      (filter (fun field =>
                 Js.includes (Js.toLowerCase partialField)
                             (Js.toLowerCase (name field)))
              fields).

(** [/\$(\w+)\.(\w* )$/] from the head of [s] to its end: groups 1 and 2. *)
Definition dotAt (s : string) : option (string * string) :=
  match Js.stripPrefix "$" s with
  | None => None
  | Some s1 =>
      let (v, s2) := Js.span Js.isWordChar s1 in
      if Js.isEmpty v then None
      else match Js.stripPrefix "." s2 with
           | None => None
           | Some s3 =>
               let (p, s4) := Js.span Js.isWordChar s3 in
               if Js.isEmpty s4 then Some (v, p) else None
           end
  end.

(** [/\x22(\w+)\x22:\s*\x22[^\x22]*$/] from the head of [s] to its end
    (the double quote of the source is written [\x22] here): group 1. *)
Definition jsonFieldAt (s : string) : option string :=
  match Js.stripPrefix Js.q s with
  | None => None
  | Some s1 =>
      let (k, s2) := Js.span Js.isWordChar s1 in
      if Js.isEmpty k then None
      else match Js.stripPrefix (Js.q ++ ":") s2 with
           | None => None
           | Some s3 =>
               match Js.stripPrefix Js.q (snd (Js.span Js.isSpace s3)) with
               | None => None
               | Some s5 =>
                   if Js.isEmpty (snd (Js.span Js.notQuote s5)) then Some k
                   else None
               end
           end
  end.

Definition detectEnumContext (document : TextDocument) (position : Position)
  : option (CtxType * string) :=
  let line := lineAt document (line position) in
  let textBefore := Js.take (character position) line in
  match Js.matchToEnd jsonFieldAt textBefore with
  | Some jsonField =>
      let context := analyzeContext document position in
      match ContextAnalyzer.type context with
      | Unknown => None
      | contextType => Some (contextType, jsonField)
      end
  | None => None
  end.

Definition getEnumCompletions (schemaParser : SchemaParser)
           (contextType : CtxType) (fieldName : string) : list CompletionItem :=
  match getEnumValues schemaParser contextType fieldName with
  | Some ((_ :: _) as enumValues) =>
      map (fun value =>
             mkItem value EnumMember ("Valid " ++ fieldName ++ " value")%string
                    None None None (Some value))
          enumValues
  | _ => []
  end.

(** The second half of [provideCompletionItems]: enum suggestions in a
    string value. *)
Definition provideEnumItems (schemaParser : SchemaParser)
           (document : TextDocument) (position : Position) : ProviderResult :=
  match detectEnumContext document position with
  | Some (context, field) => Items (getEnumCompletions schemaParser context field)
  | None => Undefined
  end.

Definition provideCompletionItems (schemaParser : SchemaParser)
           (document : TextDocument) (position : Position) : ProviderResult :=
  let line := lineAt document (line position) in
  let textBefore := Js.take (character position) line in
  match Js.matchToEnd dotAt textBefore with
  | Some (variableName, partialField) =>
      let templateContext := analyzeContext document position in
      match ContextAnalyzer.type templateContext with
      | Unknown => provideEnumItems schemaParser document position
      | contextType =>
          CompletionList
            (getFieldCompletions schemaParser contextType partialField) false
      end
  | None => provideEnumItems schemaParser document position
  end.

(** The candidates a result carries. *)
Definition candidates (r : ProviderResult) : list CompletionItem :=
  match r with
  | CompletionList items _ => items
  | Items items => items
  | Undefined => []
  end.

End CompletionProvider.

(* ================================================================== *)
(** ** krakenDHoverProvider.ts *)
(* ================================================================== *)

Module HoverProvider.
Import Vscode ContextAnalyzer SchemaParser.

(** [new vscode.Hover(contents, range)] *)
Record Hover := mkHover { contents : string; hover_range : Range }.

Definition newline : string := String LF EmptyString.

(** The two characters of the text that are no Latin-1 characters, the
    bullet U+2022 and the books sign U+1F4DA, in UTF-8. *)
Definition bullet : string :=
  String "226" (String "128" (String "162" EmptyString)).
Definition books : string :=
  String "240" (String "159" (String "147" (String "154" EmptyString))).

(** The text that the calls of [appendMarkdown] put together. *)
Definition markdownOf (fieldInfo : FieldInfo) (contextType : CtxType) : string :=
  ("### " ++ name fieldInfo ++ newline ++ newline
   ++ "`" ++ ctxName contextType ++ "` field"
   ++ (if required fieldInfo then " " ++ bullet ++ " **Required**" else "")
   ++ newline ++ newline ++ "---" ++ newline ++ newline
   ++ "**Type:** `" ++ SchemaParser.type fieldInfo ++ "`" ++ newline ++ newline
   ++ (match default fieldInfo with
       | Some d => "**Default:** `" ++ d ++ "`" ++ newline ++ newline
       | None => ""
       end)
   ++ (if Js.isEmpty (description fieldInfo) then ""
       else description fieldInfo ++ newline ++ newline)
   ++ (match enum fieldInfo with
       | Some ((_ :: _) as values) =>
           "**Valid values:**" ++ newline ++ newline
             ++ String.concat ""
                  (map (fun value => "- `" ++ value ++ "`" ++ newline) values)
             ++ newline
       | _ => ""
       end)
   ++ "---" ++ newline ++ newline
   ++ "[" ++ books ++ " KrakenD Documentation](https://www.krakend.io/docs/)"
   ++ newline ++ newline
   ++ (match contextType with
       | Endpoint =>
           "[Endpoint Configuration](https://www.krakend.io/docs/endpoints/)"
             ++ newline ++ newline
       | Backend =>
           "[Backend Configuration](https://www.krakend.io/docs/backends/)"
             ++ newline ++ newline
       | Unknown => ""
       end)
   ++ "[Template Syntax](https://www.krakend.io/docs/configuration/templates/)"
  )%string.

Definition provideHover (schemaParser : SchemaParser)
           (document : TextDocument) (position : Position) : option Hover :=
  match getFieldWordRange document position with
  | None => None
  | Some range =>
      let word := getTextIn document range in
      let context := analyzeContext document position in
      match ContextAnalyzer.type context with
      | Unknown => None
      | contextType =>
          match getFieldInfo schemaParser contextType word with
          | None => None
          | Some fieldInfo =>
              Some (mkHover (markdownOf fieldInfo contextType) range)
          end
      end
  end.

End HoverProvider.

(* ================================================================== *)
(** ** The vocabulary of the statements *)
(* ================================================================== *)

Module Spec.
Import Vscode ContextAnalyzer SchemaParser DiagnosticsProvider CompletionProvider.
Import HoverProvider.

(** Every entry of a table is filed under the name of its field. *)
Definition keyed (m : list (string * FieldInfo)) : Prop :=
  forall k f, In (k, f) m -> name f = k.

Definition wellKeyed (this : SchemaParser) : Prop :=
  keyed (endpointFields this) /\ keyed (backendFields this)
  /\ keyed (rootFields this).

(** The fields of a shape whose name contains the typed text, whatever the
    case of either. *)
Definition matching (schemaParser : SchemaParser) (contextType : CtxType)
           (partialField : string) : list FieldInfo :=
  filter (fun field =>
            Js.includes (Js.toLowerCase partialField)
                        (Js.toLowerCase (name field)))
         (getFields schemaParser contextType).

Definition sortKey (field : FieldInfo) : string :=
  ((if required field then "!0_" else "!1_") ++ name field)%string.

(** The edit distance in the words of the specification: [Edits s t n]
    says that [t] is reached from [s] by keeping, substituting, deleting
    and inserting single characters, [n] of them not kept.  The Levenshtein
    distance is the least such [n]. *)
Inductive Edits : string -> string -> nat -> Prop :=
| edits_done : Edits EmptyString EmptyString 0
| edits_keep c s t n : Edits s t n -> Edits (String c s) (String c t) n
| edits_substitute c d s t n :
    Edits s t n -> Edits (String c s) (String d t) (S n)
| edits_delete c s t n : Edits s t n -> Edits (String c s) t (S n)
| edits_insert d s t n : Edits s t n -> Edits s (String d t) (S n).

(** The recurrence of the matrix as a function of two texts read from
    their last characters: the arguments are reversed prefixes. *)
Fixpoint lev (s : string) : string -> nat :=
  fix lev_s (t : string) : nat :=
    match s with
    | EmptyString => String.length t
    | String c s' =>
        match t with
        | EmptyString => String.length s
        | String d t' =>
            if Ascii.eqb c d then lev s' t'
            else S (Nat.min (lev s' t') (Nat.min (lev_s t') (lev s' t)))
        end
    end.

Fixpoint revOnto (s acc : string) : string :=
  match s with
  | EmptyString => acc
  | String c s' => revOnto s' (String c acc)
  end.

Definition reverse (s : string) : string := revOnto s EmptyString.

(** The row of the matrix for the reversed prefix [x] of [str2], from the
    column of the reversed prefix [y] of [str1] on. *)
Fixpoint rowOf (x y rest : string) : list nat :=
  lev x y ::
  match rest with
  | EmptyString => []
  | String d rest' => rowOf x (String d y) rest'
  end.

(** The distance the provider computes between the unknown field name and
    a candidate. *)
Definition distanceTo (fieldName candidate : string) : nat :=
  levenshteinDistance (Js.toLowerCase fieldName) (Js.toLowerCase candidate).

Definition atDistance (fieldName : string) (d : nat) (candidate : string) : bool :=
  distanceTo fieldName candidate =? d.

Definition byDistance (a b : string * nat) : Prop := snd a <= snd b.

(** The scored and sorted items behind [findSimilarFields]. *)
Definition scored (schemaParser : SchemaParser) (contextType : CtxType)
           (fieldName : string) : list (string * nat) :=
  map (fun f => (name f, distanceTo fieldName (name f)))
      (getFields schemaParser contextType).

(** The diagnostic of the pass for line [i] of length [len]. *)
Definition missingComma (i len : nat) : Diagnostic :=
  mkDiagnostic (mkRange (mkPosition i (Nat.max (len - 1) 0)) (mkPosition i len))
               "Possible missing comma before next JSON property"
               Error "Template JSON" "missing-comma".

(** A character after which no comma is expected. *)
Definition opensOrSeparates (c : ascii) : Prop :=
  c = ","%char \/ c = "{"%char \/ c = "["%char.

Definition onLine (i : nat) (d : Diagnostic) : bool :=
  line (range_start (range d)) =? i.

Fixpoint allChars (p : ascii -> bool) (s : string) : bool :=
  match s with
  | EmptyString => true
  | String c s' => p c && allChars p s'
  end.

(** The text of the last line of [s], after the text [cur] already read
    on the line on which [s] starts. *)
Fixpoint lastLineFrom (s cur : string) : string :=
  match s with
  | EmptyString => cur
  | String c s' =>
      if Ascii.eqb c LF then lastLineFrom s' EmptyString
      else lastLineFrom s' (cur ++ String c EmptyString)
  end.

(** The lines of a text that starts in the middle of a line of which
    [cur] has been read. *)
Definition linesAfter (cur s : string) : list string :=
  match Js.split LF s with
  | l :: ls => (cur ++ l)%string :: ls
  | [] => [cur]
  end.

(** The field that [parseFields] builds for one entry of a definition. *)
Definition fieldOf (required : list string) (entry : string * SchemaProperty)
  : FieldInfo :=
  mkField (fst entry) (getTypeString (snd entry))
          (orElse (p_description (snd entry)) (orElse (p_title (snd entry)) ""))
          (p_default (snd entry)) (p_enum (snd entry))
          (includesKey (fst entry) required).

(** No key is filed twice in a table. *)
Definition uniqueKeys (this : SchemaParser) : Prop :=
  NoDup (map fst (endpointFields this)) /\ NoDup (map fst (backendFields this))
  /\ NoDup (map fst (rootFields this)).

(** The key under which [resolveRef] looks a path up at its second try. *)
Definition encodedPath (refPath : string) : string :=
  replaceAll ":" "%3A" (replaceAll "/" "~1" refPath).


(** A line that is blank once [cleanTemplateLine] has neutralized its
    template actions. *)
Definition blankCleaned (raw : string) : Prop :=
  Js.isEmpty (Js.trim (cleanTemplateLine raw)) = true.

(** The rule of the comma pass in words: line [i] holds a JSON property
    once neutralized and trimmed, it does not end with a comma, an opening
    brace or an opening bracket, and the first line after it that is not
    blank once neutralized starts with a quote. *)
Definition expectsComma (rawLines : list string) (i : nat) : Prop :=
  exists raw j next,
    nth_error rawLines i = Some raw
    /\ isJsonPropertyLine (Js.trim (cleanTemplateLine raw)) = true
    /\ lineAllowsNoComma (Js.trim (cleanTemplateLine raw)) = false
    /\ i < j
    /\ nth_error rawLines j = Some next
    /\ (forall k between,
          i < k < j -> nth_error rawLines k = Some between ->
          blankCleaned between)
    /\ Js.startsWith Js.q (Js.trim (cleanTemplateLine next)) = true.

(** The line on which a diagnostic starts. *)
Definition lineOf (d : Diagnostic) : nat := line (range_start (range d)).

(** A non-empty run of identifier characters, what [\w+] matches. *)
Definition isWord (w : string) : Prop :=
  Js.isEmpty w = false /\ allChars Js.isWordChar w = true.

(** The field path [.f1.f2...] behind a variable. *)
Fixpoint dotted (fields : list string) : string :=
  match fields with
  | [] => EmptyString
  | f :: fs => ("." ++ f ++ dotted fs)%string
  end.

(** A character that neither starts a variable nor belongs to a
    delimiter. *)
Definition plainChar (c : ascii) : bool :=
  negb (Ascii.eqb c "$" || Ascii.eqb c "{" || Ascii.eqb c "}").

(** [line.substring(start, stop)] *)
Definition substring (start stop : nat) (line : string) : string :=
  Js.take (stop - start) (Js.drop start line).

(** A character that is no brace, and one that is no white space. *)
Definition braceFree (c : ascii) : bool :=
  negb (Ascii.eqb c "{" || Ascii.eqb c "}").
Definition notSpace (c : ascii) : bool := negb (Js.isSpace c).

(** A text that does not go on with an identifier character. *)
Definition endsWord (rest : string) : Prop :=
  match rest with
  | EmptyString => True
  | String c _ => Js.isWordChar c = false
  end.

(** A character other than the one that starts a variable. *)
Definition notDollar (c : ascii) : bool := negb (Ascii.eqb c "$").

(** The text before the cursor holds no opening braces, or closing braces
    stand behind the last of them. *)
Definition outsideAction (textBefore : string) : Prop :=
  Js.includes "{{" textBefore = false
  \/ exists a b,
       textBefore = (a ++ "}}" ++ b)%string /\ Js.includes "{{" b = false.


End Spec.

(* ================================================================== *)
(** ** Sample schemas and documents *)
(* ================================================================== *)

Module Samples.
Import Vscode ContextAnalyzer SchemaParser DiagnosticsProvider CompletionProvider.

Definition plain (ty : string) : SchemaProperty :=
  mkProperty (Some (TypeName ty)) None None None None None None None None.

Definition enumerated (values : list string) : SchemaProperty :=
  mkProperty (Some (TypeName "string")) None None None (Some values)
             None None None None.

Definition arrayOf (ref : string) : SchemaProperty :=
  mkProperty (Some (TypeName "array")) None None None None None
             (Some (mkProperty None None None None None None None (Some ref) None))
             None None.

Definition definition (props : list (string * SchemaProperty))
           (req : list string) : SchemaProperty :=
  mkProperty (Some (TypeName "object")) None None None None (Some props)
             None None (Some req).

Definition methods : list string := ["GET"; "POST"; "PUT"].

(** A small schema in the layout of the KrakenD one. *)
Definition sampleSchema : KrakenDSchema :=
  mkSchema
    [ ("version", plain "integer");
      ("method", enumerated methods);
      ("endpoints", arrayOf "#/definitions/endpoint.json") ]
    [ ("endpoint.json",
       definition
         [ ("url", plain "string");
           ("method", enumerated methods);
           ("output_encoding", enumerated ["json"; "negotiate"; "no-op"]);
           ("backend", arrayOf "#/definitions/backend.json") ]
         ["url"; "backend"]);
      ("backend.json",
       definition
         [ ("url_pattern", plain "string");
           ("encoding", enumerated ["json"; "xml"; "no-op"]);
           ("host", plain "array") ]
         ["url_pattern"]) ].

(** The same with an endpoint property of its own called [endpoint_url]. *)
Definition shadowingSchema : KrakenDSchema :=
  mkSchema
    [ ("endpoints", arrayOf "#/definitions/endpoint.json") ]
    [ ("endpoint.json",
       definition
         [ ("url", plain "string");
           ("endpoint_url", enumerated ["internal"; "external"]) ]
         ["url"]) ].

(** Two endpoint fields as near to [urx] as each other. *)
Definition tieSchema : KrakenDSchema :=
  mkSchema
    [ ("endpoints", arrayOf "#/definitions/endpoint.json") ]
    [ ("endpoint.json",
       definition [ ("url", plain "string"); ("uri", plain "string") ] []) ].


(** A host whose schema file parses to [sch]. *)
Definition readsFile : string -> option string := fun _ => Some "{}".
Definition parsesTo (sch : KrakenDSchema) : string -> option KrakenDSchema :=
  fun _ => Some sch.
Definition decodesNothing : string -> option string := fun _ => None.

Definition parserOf (sch : KrakenDSchema) : SchemaParser :=
  newSchemaParser readsFile (parsesTo sch) decodesNothing "schema.json".

(** A host whose schema file cannot be read. *)
Definition noFile : string -> option string := fun _ => None.

Definition endpointsDoc : TextDocument :=
  mkDocument "krakend.tmpl" "gotmpl"
             "{{ range $e := .endpoints }} {{ $e.method }} {{ end }}".

Definition backendsDoc : TextDocument :=
  mkDocument "krakend.tmpl" "gotmpl"
             "{{ range $b := .backends }} {{ $b.encoding }} {{ end }}".

(** A loop variable whose name says backend, bound over the endpoints. *)
Definition disagreeingDoc : TextDocument :=
  mkDocument "krakend.tmpl" "gotmpl"
             "{{ range $backend := .endpoints }} {{ $backend.method }} {{ end }}".

(** A reference with no iteration binding and no telling name. *)
Definition unboundDoc : TextDocument :=
  mkDocument "krakend.tmpl" "gotmpl" "{{ $x.method }}".

(** An enum value that is no member, inside a loop over the endpoints. *)
Definition enumDoc : TextDocument :=
  mkDocument "krakend.json.tmpl" "gotmpl"
    ("{{ range $e := .endpoints }}" ++ String LF ""
     ++ Js.q ++ "method" ++ Js.q ++ ": "
     ++ Js.q ++ "GETT" ++ Js.q ++ String LF ""
     ++ "{{ end }}")%string.

Fixpoint blankLines (n : nat) : string :=
  match n with
  | O => EmptyString
  | S k => String LF (blankLines k)
  end.

(** A reference [n] lines below the loop that binds its variable. *)
Definition farDoc (n : nat) : TextDocument :=
  mkDocument "krakend.tmpl" "gotmpl"
             ("{{ range $e := .endpoints }}" ++ blankLines n
              ++ "{{ $e.method }}")%string.

(** The cursor behind [$e.] in a loop over the endpoints. *)
Definition typingDoc : TextDocument :=
  mkDocument "krakend.tmpl" "gotmpl" "{{ range $e := .endpoints }} {{ $e.".

Definition lineA : string := (Js.q ++ "a" ++ Js.q ++ ": 1")%string.
Definition lineB : string := (Js.q ++ "b" ++ Js.q ++ ": 2")%string.

Definition twoProperties : TextDocument :=
  mkDocument "krakend.json.tmpl" "gotmpl" (lineA ++ String LF "" ++ lineB)%string.

(** A separated first property, and two that are not. *)
Definition threeProperties : TextDocument :=
  mkDocument "krakend.json.tmpl" "gotmpl"
             (lineB ++ "," ++ String LF "" ++ lineA ++ String LF "" ++ lineB)%string.

(** Two properties with a line of template actions between them. *)
Definition interleavedDoc : TextDocument :=
  mkDocument "krakend.json.tmpl" "gotmpl"
             (lineA ++ String LF "" ++ "{{ end }}" ++ String LF "" ++ lineB)%string.

(** A reference to a field that no table holds, inside a loop over the
    endpoints. *)
Definition misspelledDoc : TextDocument :=
  mkDocument "krakend.tmpl" "gotmpl"
             "{{ range $e := .endpoints }} {{ $e.methdo }} {{ end }}".

End Samples.

(* ================================================================== *)
(** ** Facts about strings, lists and scans *)
(* ================================================================== *)

Module JsFacts.
Import Vscode ContextAnalyzer SchemaParser DiagnosticsProvider CompletionProvider.
Import Spec.

Lemma append_assoc (a b c : string) : ((a ++ b) ++ c = a ++ (b ++ c))%string.
Proof. induction a; simpl; [reflexivity|now f_equal]. Qed.

Lemma append_nil_r (a : string) : (a ++ "")%string = a.
Proof. induction a; simpl; [reflexivity|now f_equal]. Qed.

Lemma length_append (a b : string) :
  String.length (a ++ b) = String.length a + String.length b.
Proof. induction a; simpl; [reflexivity|now f_equal]. Qed.

Lemma take_append (a b : string) : Js.take (String.length a) (a ++ b) = a.
Proof. induction a; simpl; [now destruct b|now f_equal]. Qed.

Lemma drop_append (a b : string) : Js.drop (String.length a) (a ++ b) = b.
Proof. induction a; simpl; [now destruct b|assumption]. Qed.

Lemma take_drop n s : (Js.take n s ++ Js.drop n s)%string = s.
Proof.
  revert s. induction n as [|n IH]; intros [|c s]; simpl; try reflexivity.
  now rewrite IH.
Qed.

Lemma length_take n s : n <= String.length s -> String.length (Js.take n s) = n.
Proof.
  revert s. induction n as [|n IH]; intros [|c s] H; simpl in *; try lia.
  rewrite IH; lia.
Qed.

Lemma drop_nonempty n s c r : Js.drop n s = String c r -> n < String.length s.
Proof.
  revert s. induction n as [|n IH]; intros [|a s] H; simpl in *;
    try discriminate; try lia.
  apply IH in H. lia.
Qed.

Lemma startsWith_cons a p b s :
  Js.startsWith (String a p) (String b s) = Ascii.eqb a b && Js.startsWith p s.
Proof. reflexivity. Qed.

Lemma startsWith_length p s :
  Js.startsWith p s = true -> String.length p <= String.length s.
Proof.
  revert s. induction p as [|a p IH]; intros s H; simpl; [lia|].
  destruct s as [|b s]; [discriminate|].
  simpl in H. apply andb_true_iff in H. destruct H as [_ H].
  apply IH in H. simpl. lia.
Qed.

Lemma startsWith_refl p : Js.startsWith p p = true.
Proof.
  induction p as [|a p IH]; simpl; [reflexivity|].
  now rewrite Ascii.eqb_refl.
Qed.

Lemma startsWith_indexOf p s :
  Js.startsWith p s = true -> Js.indexOf_opt p s = Some 0.
Proof. intros H. destruct s; simpl; now rewrite H. Qed.

Lemma includes_tail c p s :
  Js.includes (String c p) s = true -> Js.includes p s = true.
Proof.
  unfold Js.includes. induction s as [|a s IH].
  - simpl. discriminate.
  - cbn [Js.indexOf_opt].
    destruct (Js.startsWith (String c p) (String a s)) eqn:E.
    + intros _. simpl in E. apply andb_true_iff in E. destruct E as [_ E].
      destruct (Js.startsWith p (String a s)); [reflexivity|].
      now rewrite (startsWith_indexOf _ _ E).
    + destruct (Js.indexOf_opt (String c p) s); [|discriminate].
      intros _. destruct (Js.startsWith p (String a s)); [reflexivity|].
      destruct (Js.indexOf_opt p s); [reflexivity|].
      specialize (IH eq_refl). discriminate.
Qed.

Lemma stripPrefix_inv p s r : Js.stripPrefix p s = Some r -> s = (p ++ r)%string.
Proof.
  unfold Js.stripPrefix. destruct (Js.startsWith p s) eqn:E; [|discriminate].
  intros H; injection H as <-. revert s E.
  induction p as [|a p IH]; intros s E; simpl.
  - now destruct s.
  - destruct s as [|b s]; [discriminate|]. simpl in E.
    apply andb_true_iff in E. destruct E as [Eab E].
    apply Ascii.eqb_eq in Eab. subst b. simpl. f_equal. now apply IH.
Qed.

Lemma span_inv p s a b :
  Js.span p s = (a, b) -> s = (a ++ b)%string /\ allChars p a = true.
Proof.
  revert a b. induction s as [|c s IH]; intros a b; simpl.
  - intros H; injection H as <- <-. auto.
  - destruct (p c) eqn:E.
    + destruct (Js.span p s) as [a' b'] eqn:Es.
      intros H; injection H as <- <-.
      destruct (IH a' b' eq_refl) as [-> Ha]. simpl. rewrite E. auto.
    + intros H; injection H as <- <-. auto.
Qed.

Lemma lastChar_cons c s x :
  Js.lastChar s = Some x -> Js.lastChar (String c s) = Some x.
Proof. destruct s; simpl; [discriminate|auto]. Qed.

Lemma lastChar_nonempty s c : Js.lastChar s = Some c -> 0 < String.length s.
Proof. destruct s; simpl; [discriminate|lia]. Qed.

Lemma trimEnd_cons a s :
  Js.trimEnd (String a s)
  = match Js.trimEnd s with
    | EmptyString => if Js.isSpace a then EmptyString else String a EmptyString
    | t => String a t
    end.
Proof. reflexivity. Qed.

Lemma lastChar_trimEnd s c :
  Js.lastChar s = Some c -> Js.isSpace c = false ->
  Js.lastChar (Js.trimEnd s) = Some c.
Proof.
  intros H Hc. induction s as [|a s IH]; [discriminate|].
  destruct s as [|b s].
  - simpl in H. injection H as ->. simpl. now rewrite Hc.
  - specialize (IH H). rewrite trimEnd_cons.
    destruct (Js.trimEnd (String b s)) eqn:E; [discriminate|].
    now apply lastChar_cons.
Qed.

Lemma lastChar_trimStart s c :
  Js.lastChar s = Some c -> Js.isSpace c = false ->
  Js.lastChar (Js.trimStart s) = Some c.
Proof.
  unfold Js.trimStart. intros H Hc.
  induction s as [|a s IH]; [discriminate|].
  simpl. destruct (Js.isSpace a) eqn:Ea; [|exact H].
  destruct (Js.span Js.isSpace s) as [w r] eqn:Es. simpl in *.
  destruct s as [|b s].
  - simpl in H. congruence.
  - apply IH. exact H.
Qed.

Lemma lastChar_trim s c :
  Js.lastChar s = Some c -> Js.isSpace c = false ->
  Js.lastChar (Js.trim s) = Some c.
Proof.
  intros H Hc. unfold Js.trim.
  apply lastChar_trimEnd; [|exact Hc]. now apply lastChar_trimStart.
Qed.

Lemma split_cons c s :
  Js.split LF (String c s)
  = if Ascii.eqb c LF then EmptyString :: Js.split LF s
    else match Js.split LF s with
         | x :: xs => String c x :: xs
         | [] => [String c EmptyString]
         end.
Proof. reflexivity. Qed.

Lemma split_nonempty s : exists l ls, Js.split LF s = l :: ls.
Proof.
  induction s as [|c s (l & ls & IH)]; [now exists EmptyString, []|].
  rewrite split_cons, IH. destruct (Ascii.eqb c LF); eauto.
Qed.

Lemma scanFrom_In {A : Type} (matchAt : string -> option (A * nat)) s :
  forall skip base idx a,
    In (idx, a) (Js.scanFrom matchAt skip base s) ->
    exists n len, idx = base + n /\ matchAt (Js.drop n s) = Some (a, len).
Proof.
  induction s as [|c s IH]; intros skip base idx a; simpl; [intros []|].
  assert (Hlater : forall skip',
            In (idx, a) (Js.scanFrom matchAt skip' (S base) s) ->
            exists n len, idx = base + n
                          /\ matchAt (Js.drop n (String c s)) = Some (a, len)).
  { intros skip' H. destruct (IH _ _ _ _ H) as (n & len & -> & Hm).
    exists (S n), len. split; [lia|exact Hm]. }
  destruct skip as [|k]; [|apply Hlater].
  destruct (matchAt (String c s)) as [[a0 len]|] eqn:E; [|apply Hlater].
  intros [H|H]; [|now apply Hlater in H].
  injection H as <- <-. exists 0, len. split; [lia|exact E].
Qed.

Lemma flat_map_nil {A B : Type} (f : A -> list B) (l : list A) :
  (forall x, f x = []) -> flat_map f l = [].
Proof. intros H. induction l as [|x l IH]; simpl; [|rewrite H, IH]; reflexivity. Qed.

Lemma forEachLine_nil {A : Type} (f : string -> nat -> list A) lines :
  (forall line i, f line i = []) -> forall i, forEachLine f lines i = [].
Proof.
  intros H. induction lines as [|l ls IH]; intros i; simpl; [reflexivity|].
  now rewrite H, IH.
Qed.

Lemma last_snoc {A : Type} (l : list A) (x : A) :
  List.last (map Some (l ++ [x])) None = Some x.
Proof.
  induction l as [|y l IH]; [reflexivity|].
  simpl. destruct (map Some (l ++ [x])) eqn:E; [|exact IH].
  destruct l; discriminate.
Qed.

Lemma firstn_In {A : Type} n (l : list A) x : In x (firstn n l) -> In x l.
Proof.
  revert l. induction n as [|n IH]; intros [|y l]; simpl; try tauto.
  intros [H|H]; auto.
Qed.

Lemma StronglySorted_firstn {A : Type} (R : A -> A -> Prop) n (l : list A) :
  StronglySorted R l -> StronglySorted R (firstn n l).
Proof.
  intros Hs. revert n. induction Hs as [|z l Hs IH Hall]; intros [|n]; simpl;
    try constructor.
  - apply IH.
  - rewrite Forall_forall in *. intros y Hy. apply Hall.
    eapply firstn_In. exact Hy.
Qed.

Lemma filter_map_fst {A B : Type} (p : A -> bool) (q : A * B -> bool)
      (l : list (A * B)) :
  (forall x, In x l -> q x = p (fst x)) ->
  filter p (map fst l) = map fst (filter q l).
Proof.
  induction l as [|x l IH]; intros H; simpl; [reflexivity|].
  rewrite (H x (or_introl eq_refl)).
  rewrite IH by (intros y Hy; apply H; now right).
  now destruct (p (fst x)).
Qed.

Lemma filter_filter_comm {A : Type} (p r : A -> bool) (l : list A) :
  filter p (filter r l) = filter r (filter p l).
Proof.
  induction l as [|x l IH]; simpl; [reflexivity|].
  destruct (r x) eqn:Er, (p x) eqn:Ep; simpl; rewrite ?Er, ?Ep, IH; reflexivity.
Qed.

Lemma filter_true_on {A : Type} (p : A -> bool) (l : list A) :
  (forall x, In x l -> p x = true) -> filter p l = l.
Proof.
  induction l as [|x l IH]; intros H; simpl; [reflexivity|].
  rewrite (H x (or_introl eq_refl)), IH; [reflexivity|].
  intros y Hy. apply H. now right.
Qed.

Lemma skipn_nth_error {A : Type} (l : list A) n x :
  nth_error l n = Some x -> exists rest, skipn n l = x :: rest.
Proof.
  revert l. induction n as [|n IH]; intros [|y l]; simpl; try discriminate.
  - intros H; injection H as ->. eauto.
  - apply IH.
Qed.

End JsFacts.

(* ================================================================== *)
(** ** Properties of the schema store *)
(* ================================================================== *)

Module StoreFacts.
Import Vscode ContextAnalyzer SchemaParser DiagnosticsProvider CompletionProvider.
Import Spec Samples JsFacts.

Lemma map_get_In {V : Type} (k : string) (v : V) (m : list (string * V)) :
  map_get k m = Some v -> In (k, v) m.
Proof.
  induction m as [|[k' v'] m IH]; simpl; [discriminate|].
  destruct (String.eqb k' k) eqn:E.
  - apply String.eqb_eq in E. intros H; injection H as ->. left; congruence.
  - intros H; right; auto.
Qed.

Lemma map_get_key {V : Type} (k : string) (m : list (string * V)) :
  In k (map fst m) <-> exists v, map_get k m = Some v.
Proof.
  induction m as [|[k' v'] m IH]; simpl.
  - split; [tauto | intros [v H]; discriminate].
  - destruct (String.eqb k' k) eqn:E.
    + apply String.eqb_eq in E. split; [eauto | auto].
    + apply String.eqb_neq in E. rewrite <- IH. tauto.
Qed.

Lemma map_get_set_same {V : Type} (k : string) (v : V) (m : list (string * V)) :
  map_get k (map_set k v m) = Some v.
Proof.
  induction m as [|[k' v'] m IH]; simpl.
  - now rewrite String.eqb_refl.
  - destruct (String.eqb k' k) eqn:E; simpl.
    + now rewrite String.eqb_refl.
    + now rewrite E.
Qed.

Lemma map_get_set_other {V : Type} (k k0 : string) (v : V) (m : list (string * V)) :
  k0 <> k -> map_get k (map_set k0 v m) = map_get k m.
Proof.
  intros N. induction m as [|[k' v'] m IH]; simpl.
  - apply String.eqb_neq in N. now rewrite N.
  - destruct (String.eqb k' k0) eqn:E; simpl.
    + apply String.eqb_eq in E; subst k'.
      apply String.eqb_neq in N. now rewrite N.
    + destruct (String.eqb k' k); auto.
Qed.

Lemma keyed_map_set (k : string) (f : FieldInfo) (m : list (string * FieldInfo)) :
  keyed m -> name f = k -> keyed (map_set k f m).
Proof.
  intros Hm Hf. induction m as [|[k' f'] m IH]; simpl.
  - intros k1 f1 [H|[]]. injection H as <- <-. exact Hf.
  - assert (Hm' : keyed m) by (intros k1 f1 H1; apply Hm; now right).
    destruct (String.eqb k' k).
    + intros k1 f1 [H|H].
      * injection H as <- <-. exact Hf.
      * apply Hm. now right.
    + intros k1 f1 [H|H].
      * apply Hm. now left.
      * now apply IH.
Qed.

Lemma keyed_parseFields properties required :
  forall m, keyed m -> keyed (parseFields properties m required).
Proof.
  unfold parseFields.
  induction properties as [|[key prop] ps IH]; simpl; intros m Hm; [exact Hm|].
  apply IH. now apply keyed_map_set.
Qed.

(** What [parseFields] files under a key of the definition: a field whose
    [required] tells whether the key is in the list of required names. *)
Lemma parseFields_required properties required :
  forall targetMap key field,
    map_get key (parseFields properties targetMap required) = Some field ->
    (In key (map fst properties) -> SchemaParser.required field
                                    = includesKey key required)
    /\ (~ In key (map fst properties) -> map_get key targetMap = Some field).
Proof.
  unfold parseFields.
  induction properties as [|[k prop] ps IH]; intros targetMap key field; simpl.
  - intros H. split; [intros []|auto].
  - intros H. destruct (IH _ _ _ H) as [Hin Hout].
    destruct (in_dec string_dec key (map fst ps)) as [Hps|Hps].
    + split; [auto|]. intros Hnot. exfalso. apply Hnot. now right.
    + specialize (Hout Hps).
      destruct (string_dec k key) as [->|Hne].
      * rewrite map_get_set_same in Hout. injection Hout as <-.
        split; [reflexivity|]. intros Hnot. exfalso. apply Hnot. now left.
      * rewrite (map_get_set_other _ _ _ _ Hne) in Hout.
        split; [|auto]. intros [Heq|Hin']; [congruence|contradiction].
Qed.

Lemma wellKeyed_empty : wellKeyed emptyParser.
Proof. repeat split; intros k f []. Qed.

Section HostFacts.

Variable readFileSync : string -> option string.
Variable JSON_parse : string -> option KrakenDSchema.
Variable decodeURIComponent : string -> option string.

Lemma wellKeyed_parseBackend this props :
  wellKeyed this -> wellKeyed (parseBackend decodeURIComponent this props).
Proof.
  intros (He & Hb & Hr). unfold parseBackend.
  destruct (itemsRef (map_get "backend" props)) as [ref|]; [|now repeat split].
  destruct (Js.isEmpty ref); [now repeat split|].
  destruct (resolveRef decodeURIComponent this ref) as [def|]; [|now repeat split].
  destruct (propertiesOf def) as [ps|]; [|now repeat split].
  repeat split; simpl; auto using keyed_parseFields.
Qed.

Lemma wellKeyed_parseSchema this :
  wellKeyed this -> wellKeyed (parseSchema decodeURIComponent this).
Proof.
  intros (He & Hb & Hr). unfold parseSchema.
  destruct (schema this) as [sch|] eqn:Hs; [|now repeat split].
  set (this1 := mkParser _ _ _ _).
  assert (W1 : wellKeyed this1)
    by (repeat split; simpl; auto using keyed_parseFields).
  destruct (itemsRef _) as [ref|]; [|exact W1].
  destruct (Js.isEmpty ref); [exact W1|].
  destruct (resolveRef decodeURIComponent this1 ref) as [def|]; [|exact W1].
  destruct (propertiesOf def) as [ps|]; [|exact W1].
  apply wellKeyed_parseBackend.
  destruct W1 as (He1 & Hb1 & Hr1).
  repeat split; simpl; auto using keyed_parseFields.
Qed.

Lemma wellKeyed_loadSchema this schemaPath :
  wellKeyed this ->
  wellKeyed (loadSchema readFileSync JSON_parse decodeURIComponent this schemaPath).
Proof.
  intros W. unfold loadSchema.
  destruct (readFileSync schemaPath) as [content|]; [|exact W].
  destruct (JSON_parse content) as [sch|]; [|exact W].
  apply wellKeyed_parseSchema. exact W.
Qed.

(** Every parser object the program can build is well keyed. *)
Lemma wellKeyed_new schemaPath :
  wellKeyed (newSchemaParser readFileSync JSON_parse decodeURIComponent schemaPath).
Proof. apply wellKeyed_loadSchema, wellKeyed_empty. Qed.

End HostFacts.

Lemma findPrefixed_some map fieldName entries original field :
  In (original, fieldName) entries ->
  map_get original map = Some field ->
  exists a, findPrefixed map fieldName entries = Some a.
Proof.
  intros Hin Hget. induction entries as [|[o p] rest IH]; [contradiction|].
  simpl. destruct Hin as [H|H].
  - injection H as -> ->. rewrite String.eqb_refl, Hget. eauto.
  - destruct (String.eqb p fieldName); auto.
    destruct (map_get o map); eauto.
Qed.

Lemma findPrefixed_inv map fieldName entries a :
  findPrefixed map fieldName entries = Some a ->
  exists original field,
    In (original, fieldName) entries /\ map_get original map = Some field
    /\ a = aliasOf field fieldName original.
Proof.
  induction entries as [|[o p] rest IH]; simpl; [discriminate|].
  destruct (String.eqb p fieldName) eqn:E.
  - apply String.eqb_eq in E; subst p.
    destruct (map_get o map) as [f|] eqn:G.
    + intros H; injection H as <-. exists o, f. auto.
    + intros H. destruct (IH H) as (o' & f' & Hin & Hg & Ha).
      exists o', f'. auto.
  - intros H. destruct (IH H) as (o' & f' & Hin & Hg & Ha).
    exists o', f'. auto.
Qed.

Lemma findPrefixed_empty fieldName entries :
  findPrefixed [] fieldName entries = None.
Proof.
  induction entries as [|[o p] rest IH]; simpl; [reflexivity|].
  now destruct (String.eqb p fieldName).
Qed.

Lemma isValidField_iff this context fieldName :
  isValidField this context fieldName = true <->
  In fieldName (map fst (tableOf this context))
  \/ exists original,
       In (original, fieldName) fieldMappings
       /\ In original (map fst (tableOf this context)).
Proof.
  unfold isValidField, getFieldInfo.
  destruct (map_get fieldName (tableOf this context)) as [f|] eqn:G.
  - split; [intros _|reflexivity]. left. apply map_get_key. eauto.
  - split.
    + destruct (findPrefixed _ _ _) as [a|] eqn:F; [intros _|discriminate].
      destruct (findPrefixed_inv _ _ _ _ F) as (o & f & Hin & Hg & _).
      right. exists o. split; [exact Hin|]. apply map_get_key. eauto.
    + intros [H|(o & Hin & Hk)].
      * apply map_get_key in H. destruct H as [v H]. congruence.
      * apply map_get_key in Hk. destruct Hk as [v Hv].
        destruct (findPrefixed_some _ _ _ _ _ Hin Hv) as [a ->]. reflexivity.
Qed.

Lemma mapping_entry original prefixed :
  map_get original fieldMappings = Some prefixed ->
  In (original, prefixed) fieldMappings.
Proof. apply map_get_In. Qed.

End StoreFacts.

(* ================================================================== *)
(** ** The schema store: claims *)
(* ================================================================== *)

Module StoreClaims.
Import Vscode ContextAnalyzer SchemaParser DiagnosticsProvider CompletionProvider.
Import Spec Samples JsFacts.
Import StoreFacts.

Lemma values_keyed table field :
  keyed table -> In field (map_values table) -> In (name field) (map fst table).
Proof.
  intros K H. unfold map_values in H. apply in_map_iff in H.
  destruct H as ([k f] & <- & Hin). simpl.
  rewrite (K _ _ Hin). apply in_map_iff. exists (k, f). auto.
Qed.

Lemma withPrefixed_inv table field :
  In field (withPrefixed table) ->
  In field (map_values table)
  \/ exists canonical prefixed,
       In canonical (map_values table)
       /\ map_get (name canonical) fieldMappings = Some prefixed
       /\ field = aliasOf canonical prefixed (name canonical).
Proof.
  unfold withPrefixed. rewrite in_app_iff, in_flat_map.
  intros [H|(c & Hc & H)]; [now left|right].
  destruct (map_get (name c) fieldMappings) as [m|] eqn:G; [|contradiction].
  destruct H as [<-|[]]. exists c, m. auto.
Qed.

Lemma wellKeyed_table this context : wellKeyed this -> keyed (tableOf this context).
Proof. intros (He & Hb & Hr). destruct context; assumption. Qed.

Lemma getFields_valid this context field :
  wellKeyed this ->
  In field (getFields this context) ->
  isValidField this context (name field) = true.
Proof.
  intros W Hin. apply isValidField_iff.
  pose proof (wellKeyed_table this context W) as K.
  assert (Hcases :
    In field (map_values (tableOf this context))
    \/ exists canonical prefixed,
         In canonical (map_values (tableOf this context))
         /\ map_get (name canonical) fieldMappings = Some prefixed
         /\ field = aliasOf canonical prefixed (name canonical)).
  { destruct context; simpl in *.
    - now apply withPrefixed_inv.
    - now apply withPrefixed_inv.
    - now left. }
  destruct Hcases as [H|(c & m & Hc & Hm & ->)].
  - left. now apply values_keyed.
  - right. exists (name c). split.
    + simpl. now apply mapping_entry.
    + now apply values_keyed.
Qed.

(** C8. Round trip between the field lists and the validity test: in a
    parser object built from any schema file by any host, every entry that
    [getFields] returns for a shape, the appended prefixed copies included,
    has a name that [isValidField] accepts for that shape.  The root shape
    is the one the store serves for the context [Unknown]. *)
Theorem getFields_names_are_valid
        (readFileSync : string -> option string)
        (JSON_parse : string -> option KrakenDSchema)
        (decodeURIComponent : string -> option string)
        (schemaPath : string) (context : CtxType) (field : FieldInfo) :
  let this := newSchemaParser readFileSync JSON_parse decodeURIComponent schemaPath in
  In field (getFields this context) ->
  isValidField this context (name field) = true.
Proof.
  intros this Hin. apply getFields_valid; [|exact Hin].
  apply wellKeyed_new.
Qed.

Lemma getFields_names_are_valid_witness :
  map name (getFields (parserOf sampleSchema) Endpoint)
  = ["url"; "method"; "output_encoding"; "backend";
     "endpoint_url"; "backend_method"; "endpoint_output_encoding"]
  /\ isValidField (parserOf sampleSchema) Endpoint "endpoint_url" = true.
Proof.
  split; [reflexivity|].
  apply (getFields_names_are_valid readsFile (parsesTo sampleSchema)
           decodesNothing "schema.json" Endpoint
           (aliasOf (mkField "url" "string" "" None None true)
                    "endpoint_url" "url")).
  vm_compute. do 4 right. left. reflexivity.
Defined.

(** C10. The store has no table for [Unknown]: every context other than
    [Endpoint] and [Backend] is answered from the root table.  A name is
    valid there exactly when it is a root field or the prefixed name of a
    root field, so the store itself does not reject [Unknown]. *)
Theorem unknown_context_reads_root_table
        (this : SchemaParser) (context : CtxType) (fieldName : string) :
  context <> Endpoint -> context <> Backend ->
  getFieldInfo this context fieldName = getFieldInfo this Unknown fieldName
  /\ (isValidField this context fieldName = true <->
      In fieldName (map fst (rootFields this))
      \/ exists original,
           In (original, fieldName) fieldMappings
           /\ In original (map fst (rootFields this))).
Proof.
  intros NE NB. destruct context; try congruence.
  split; [reflexivity|]. apply (isValidField_iff this Unknown).
Qed.

Lemma unknown_context_reads_root_table_witness :
  isValidField (parserOf sampleSchema) Unknown "version" = true
  /\ isValidField (parserOf sampleSchema) Unknown "backend_method" = true
  /\ isValidField (parserOf sampleSchema) Unknown "url" = false.
Proof.
  pose proof (unknown_context_reads_root_table (parserOf sampleSchema)
                Unknown "version") as H1.
  pose proof (unknown_context_reads_root_table (parserOf sampleSchema)
                Unknown "backend_method") as H2.
  split; [|split].
  - apply H1; [discriminate|discriminate|]. left. vm_compute. auto.
  - apply H2; [discriminate|discriminate|]. right. exists "method".
    split; [do 6 right; left; reflexivity|right; left; reflexivity].
  - reflexivity.
Defined.

(** C3, as the code has it.  When the endpoint table holds [url] and no
    entry of its own under [endpoint_url], the prefixed name is valid and
    its [FieldInfo] carries the name [endpoint_url] with the [required] and
    [enum] of the canonical [url] field. *)
Theorem alias_reports_canonical_metadata (this : SchemaParser) (url : FieldInfo) :
  map_get "url" (endpointFields this) = Some url ->
  map_get "endpoint_url" (endpointFields this) = None ->
  getFieldInfo this Endpoint "url" = Some url
  /\ isValidField this Endpoint "endpoint_url" = true
  /\ exists alias,
       getFieldInfo this Endpoint "endpoint_url" = Some alias
       /\ name alias = "endpoint_url"
       /\ required alias = required url
       /\ enum alias = enum url.
Proof.
  intros Hurl Hnone.
  assert (Halias : getFieldInfo this Endpoint "endpoint_url"
                   = Some (aliasOf url "endpoint_url" "url")).
  { unfold getFieldInfo. cbn [tableOf]. rewrite Hnone.
    cbv [fieldMappings]. cbn. now rewrite Hurl. }
  split; [unfold getFieldInfo; cbn [tableOf]; now rewrite Hurl|].
  split; [unfold isValidField; now rewrite Halias|].
  exists (aliasOf url "endpoint_url" "url"). auto.
Qed.

Lemma alias_reports_canonical_metadata_witness :
  exists alias,
    getFieldInfo (parserOf sampleSchema) Endpoint "endpoint_url" = Some alias
    /\ required alias = true /\ enum alias = None.
Proof.
  destruct (alias_reports_canonical_metadata (parserOf sampleSchema)
              (mkField "url" "string" "" None None true)
              eq_refl eq_refl) as (_ & _ & alias & H & _ & Hr & He).
  exists alias. auto.
Defined.

(** C3, as the claim has it, fails: a field that the endpoint definition
    itself calls [endpoint_url] is found first, and its [required] and
    [enum] are its own, not those of [url]. *)
Lemma alias_shadowed_by_own_property :
  let this := parserOf shadowingSchema in
  exists url alias,
    getFieldInfo this Endpoint "url" = Some url
    /\ isValidField this Endpoint "endpoint_url" = true
    /\ getFieldInfo this Endpoint "endpoint_url" = Some alias
    /\ required alias <> required url
    /\ enum alias <> enum url.
Proof.
  simpl. eexists. eexists. split; [reflexivity|].
  split; [reflexivity|]. split; [reflexivity|].
  split; simpl; discriminate.
Qed.

(** C9. When reading the schema file or parsing its text fails, the
    constructor returns the empty parser object, and every query on it
    answers with nothing: no fields, no field information, no valid name,
    no enum values. *)
Theorem failed_load_leaves_empty_store
        (readFileSync : string -> option string)
        (JSON_parse : string -> option KrakenDSchema)
        (decodeURIComponent : string -> option string)
        (schemaPath : string) :
  (readFileSync schemaPath = None
   \/ exists content,
        readFileSync schemaPath = Some content /\ JSON_parse content = None) ->
  let this := newSchemaParser readFileSync JSON_parse decodeURIComponent schemaPath in
  this = emptyParser
  /\ forall context fieldName,
       getFields this context = []
       /\ getFieldInfo this context fieldName = None
       /\ isValidField this context fieldName = false
       /\ getEnumValues this context fieldName = None.
Proof.
  intros Hfail this.
  assert (E : this = emptyParser).
  { unfold this, newSchemaParser, loadSchema.
    destruct Hfail as [H|(content & H1 & H2)].
    - now rewrite H.
    - now rewrite H1, H2. }
  split; [exact E|]. rewrite E. intros context fieldName.
  assert (G : getFieldInfo emptyParser context fieldName = None).
  { unfold getFieldInfo.
    replace (tableOf emptyParser context) with (@nil (string * FieldInfo))
      by (now destruct context).
    apply findPrefixed_empty. }
  unfold isValidField, getEnumValues. rewrite G.
  destruct context; repeat split; reflexivity.
Qed.

Lemma failed_load_leaves_empty_store_witness :
  getFields (newSchemaParser noFile (parsesTo sampleSchema) decodesNothing
                             "missing.json") Endpoint = []
  /\ isValidField (newSchemaParser readsFile (fun _ => None) decodesNothing
                                   "broken.json") Backend "host" = false.
Proof.
  split.
  - apply (failed_load_leaves_empty_store noFile (parsesTo sampleSchema)
             decodesNothing "missing.json"); left; reflexivity.
  - apply (failed_load_leaves_empty_store readsFile (fun _ => None)
             decodesNothing "broken.json").
    right. exists "{}". split; reflexivity.
Defined.

End StoreClaims.

(* ================================================================== *)
(** ** Where updateDiagnostics resolves a field reference *)
(* ================================================================== *)

Module ReferenceResolution.
Import Vscode ContextAnalyzer SchemaParser DiagnosticsProvider CompletionProvider.
Import Spec Samples JsFacts.

(** What the field pattern matched: the braces, white space, and the
    reference itself. *)
Lemma fieldRefAt_inv s match0 variable field len :
  fieldRefAt s = Some ((match0, variable, field), len) ->
  exists spaces rest,
    allChars Js.isSpace spaces = true
    /\ match0 = ("{{" ++ spaces ++ "$" ++ variable ++ "." ++ field)%string
    /\ s = (match0 ++ rest)%string.
Proof.
  unfold fieldRefAt.
  destruct (Js.stripPrefix "{{" s) as [s1|] eqn:E1; [|discriminate].
  destruct (Js.span Js.isSpace s1) as [spaces s2] eqn:E2. cbn [snd].
  destruct (Js.stripPrefix "$" s2) as [s3|] eqn:E3; [|discriminate].
  destruct (Js.span Js.isWordChar s3) as [v s4] eqn:E4.
  destruct (Js.isEmpty v); [discriminate|].
  destruct (Js.stripPrefix "." s4) as [s5|] eqn:E5; [|discriminate].
  destruct (Js.span Js.isWordChar s5) as [f s6] eqn:E6.
  destruct (Js.isEmpty f); [discriminate|].
  intros H. injection H as Hm <- <- _.
  apply stripPrefix_inv in E1, E3, E5.
  destruct (span_inv _ _ _ _ E2) as [Es1 Hspaces].
  destruct (span_inv _ _ _ _ E4) as [Es3 _].
  destruct (span_inv _ _ _ _ E6) as [Es5 _].
  assert (Hs : s = (("{{" ++ spaces ++ "$" ++ v ++ "." ++ f) ++ s6)%string).
  { subst. simpl. f_equal. f_equal.
    rewrite ?append_assoc. simpl.
    rewrite ?append_assoc. reflexivity. }
  exists spaces, s6. split; [exact Hspaces|].
  assert (Hmatch : match0 = ("{{" ++ spaces ++ "$" ++ v ++ "." ++ f)%string).
  { rewrite <- Hm. rewrite Hs at 1 2. rewrite length_append.
    replace (String.length ("{{" ++ spaces ++ "$" ++ v ++ "." ++ f)
             + String.length s6 - String.length s6)
      with (String.length ("{{" ++ spaces ++ "$" ++ v ++ "." ++ f)) by lia.
    apply take_append. }
  split; [exact Hmatch|]. rewrite Hmatch. exact Hs.
Qed.

Lemma indexOf_after_spaces spaces reference :
  allChars Js.isSpace spaces = true ->
  Js.indexOf_opt (String "$" reference) (spaces ++ String "$" reference)
  = Some (String.length spaces).
Proof.
  intros H. induction spaces as [|c spaces IH].
  - cbn [append]. apply startsWith_indexOf, startsWith_refl.
  - simpl in H. apply andb_true_iff in H. destruct H as [Hc H].
    cbn [append Js.indexOf_opt]. rewrite startsWith_cons.
    assert (E : Ascii.eqb "$" c = false).
    { destruct (Ascii.eqb "$" c) eqn:E; [|reflexivity].
      apply Ascii.eqb_eq in E. subst c. discriminate. }
    rewrite E. cbn [andb]. rewrite (IH H). reflexivity.
Qed.

Lemma matchStart_after_spaces index spaces variable field :
  allChars Js.isSpace spaces = true ->
  matchStartOf
    (index, (("{{" ++ spaces ++ "$" ++ variable ++ "." ++ field)%string,
             variable, field))
  = index + 2 + String.length spaces.
Proof.
  intros H. unfold matchStartOf, referenceOf, Js.indexOf.
  change ("{{" ++ spaces ++ "$" ++ variable ++ "." ++ field)%string
    with (String "{" (String "{"
            (spaces ++ String "$" (variable ++ "." ++ field))))%string.
  change ("$" ++ variable ++ "." ++ field)%string
    with (String "$" (variable ++ "." ++ field))%string.
  cbn [Js.indexOf_opt]. rewrite !startsWith_cons. cbn [Ascii.eqb andb].
  simpl (Ascii.eqb "$" "{"). cbn [andb].
  rewrite (indexOf_after_spaces _ _ H). simpl. lia.
Qed.

Lemma linesAfter_empty s : linesAfter EmptyString s = Js.split LF s.
Proof.
  unfold linesAfter. destruct (split_nonempty s) as (l & ls & ->). reflexivity.
Qed.

Lemma positionAt_from_zero s ln col :
  positionAt_from s 0 ln col = mkPosition ln col.
Proof. destruct s; reflexivity. Qed.

(** The text that [analyzeContext] finds before the position that
    [positionAt] gives for the offset behind [before]. *)
Lemma text_before_offset before after :
  forall earlier cur,
    let position :=
      positionAt_from (before ++ after) (String.length before)
                      (List.length earlier) (String.length cur) in
    Js.take (character position)
            (nth (line position) (earlier ++ linesAfter cur (before ++ after)) "")
    = lastLineFrom before cur.
Proof.
  induction before as [|c before IH]; intros earlier cur; cbv zeta.
  - cbn [append String.length lastLineFrom]. rewrite positionAt_from_zero.
    cbn [line character]. unfold linesAfter.
    destruct (split_nonempty after) as (l & ls & ->).
    rewrite nth_middle. apply take_append.
  - cbn [append String.length positionAt_from lastLineFrom].
    unfold linesAfter. rewrite split_cons.
    destruct (Ascii.eqb c LF).
    + specialize (IH (earlier ++ [cur]) EmptyString).
      rewrite length_app in IH. cbn [List.length String.length] in IH.
      replace (List.length earlier + 1) with (S (List.length earlier)) in IH
        by lia.
      rewrite linesAfter_empty, <- app_assoc in IH. cbn [app] in IH.
      rewrite append_nil_r. exact IH.
    + specialize (IH earlier (cur ++ String c EmptyString)%string).
      rewrite length_append in IH. cbn [String.length] in IH.
      replace (String.length cur + 1) with (S (String.length cur)) in IH by lia.
      unfold linesAfter in IH.
      destruct (split_nonempty (before ++ after)) as (l & ls & E).
      rewrite E in *. rewrite append_assoc in IH. exact IH.
Qed.

Lemma text_before_position document before after :
  getText document = (before ++ after)%string ->
  let position := positionAt document (String.length before) in
  Js.take (character position) (lineAt document (line position))
  = lastLineFrom before EmptyString.
Proof.
  intros E. unfold positionAt, lineAt, lines. rewrite E.
  pose proof (text_before_offset before after [] EmptyString) as H.
  cbn [List.length String.length app] in H. rewrite linesAfter_empty in H.
  exact H.
Qed.

Lemma lastLineFrom_append a b :
  forall cur, lastLineFrom (a ++ b) cur = lastLineFrom b (lastLineFrom a cur).
Proof.
  induction a as [|c a IH]; intros cur; [reflexivity|].
  simpl. destruct (Ascii.eqb c LF); apply IH.
Qed.

Lemma lastLineFrom_spaces spaces :
  allChars Js.isSpace spaces = true ->
  forall cur,
    exists blank,
      allChars Js.isSpace blank = true
      /\ (lastLineFrom spaces cur = (cur ++ blank)%string
          \/ lastLineFrom spaces cur = blank).
Proof.
  induction spaces as [|c spaces IH]; intros H cur.
  - exists EmptyString. split; [reflexivity|left].
    simpl. now rewrite append_nil_r.
  - simpl in H. apply andb_true_iff in H. destruct H as [Hc H].
    simpl. destruct (Ascii.eqb c LF).
    + destruct (IH H EmptyString) as (blank & Hb & [E|E]);
        exists blank; (split; [exact Hb|right; exact E]).
    + destruct (IH H (cur ++ String c EmptyString)%string)
        as (blank & Hb & [E|E]).
      * exists (String c blank). split; [simpl; now rewrite Hc|left].
        rewrite E, append_assoc. reflexivity.
      * exists blank. split; [exact Hb|right; exact E].
Qed.

Lemma lastLine_open start spaces :
  allChars Js.isSpace spaces = true ->
  exists blank,
    allChars Js.isSpace blank = true
    /\ (lastLineFrom (start ++ "{{" ++ spaces) EmptyString
        = (lastLineFrom start EmptyString ++ "{{" ++ blank)%string
        \/ lastLineFrom (start ++ "{{" ++ spaces) EmptyString = blank).
Proof.
  intros H. rewrite lastLineFrom_append.
  set (cur := lastLineFrom start EmptyString).
  change (lastLineFrom ("{{" ++ spaces) cur)
    with (lastLineFrom spaces ((cur ++ "{") ++ "{")).
  destruct (lastLineFrom_spaces spaces H ((cur ++ "{") ++ "{")%string)
    as (blank & Hb & [E|E]); exists blank; (split; [exact Hb|]).
  - left. rewrite E, !append_assoc. reflexivity.
  - right. exact E.
Qed.

Lemma blank_first blank :
  allChars Js.isSpace blank = true -> Js.startsWith "{" blank = false.
Proof.
  destruct blank as [|c blank]; [reflexivity|].
  cbn [allChars]. intros H. apply andb_true_iff in H. destruct H as [Hc _].
  rewrite startsWith_cons.
  destruct (Ascii.eqb "{" c) eqn:E; [|reflexivity].
  apply Ascii.eqb_eq in E. subst c. vm_compute in Hc. discriminate.
Qed.

Lemma lastIndexOf_blank blank :
  allChars Js.isSpace blank = true -> Js.lastIndexOf_opt "{{" blank = None.
Proof.
  induction blank as [|c blank IH]; [reflexivity|].
  intros H. pose proof (blank_first _ H) as Hfirst.
  cbn [allChars] in H. apply andb_true_iff in H. destruct H as [Hc H].
  cbn [Js.lastIndexOf_opt]. rewrite (IH H).
  rewrite startsWith_cons.
  rewrite startsWith_cons in Hfirst.
  cbn [Js.startsWith] in Hfirst. rewrite andb_true_r in Hfirst.
  now rewrite Hfirst.
Qed.

Lemma lastIndexOf_open start blank :
  allChars Js.isSpace blank = true ->
  Js.lastIndexOf_opt "{{" (start ++ "{{" ++ blank)
  = Some (String.length start).
Proof.
  intros H. induction start as [|c start IH].
  - cbn [append String.length].
    change ("{{" ++ blank)%string with (String "{" (String "{" blank)).
    cbn [Js.lastIndexOf_opt]. rewrite (lastIndexOf_blank _ H).
    rewrite !startsWith_cons. rewrite (blank_first _ H).
    rewrite Ascii.eqb_refl. cbn [andb Js.startsWith]. reflexivity.
  - change (String c start ++ "{{" ++ blank)%string
      with (String c (start ++ "{{" ++ blank))%string.
    cbn [String.length Js.lastIndexOf_opt]. now rewrite IH.
Qed.

Lemma trim_blank blank :
  allChars Js.isSpace blank = true -> Js.trim blank = EmptyString.
Proof.
  intros H. unfold Js.trim, Js.trimStart.
  assert (E : snd (Js.span Js.isSpace blank) = EmptyString).
  { induction blank as [|c blank IH]; [reflexivity|].
    simpl in H. apply andb_true_iff in H. destruct H as [Hc H].
    simpl. rewrite Hc. specialize (IH H).
    destruct (Js.span Js.isSpace blank). exact IH. }
  now rewrite E.
Qed.

Lemma analyzeContext_blank document position start blank :
  allChars Js.isSpace blank = true ->
  let textBeforeCursor :=
    Js.take (character position) (lineAt document (line position)) in
  textBeforeCursor = (start ++ "{{" ++ blank)%string
  \/ textBeforeCursor = blank ->
  analyzeContext document position = unknownContext.
Proof.
  intros Hblank textBeforeCursor Htext. unfold analyzeContext.
  fold textBeforeCursor. destruct Htext as [E|E]; rewrite E.
  - assert (Hopen : Js.lastIndexOf "{{" (start ++ "{{" ++ blank)
                    = Z.of_nat (String.length start))
      by (unfold Js.lastIndexOf; now rewrite (lastIndexOf_open _ _ Hblank)).
    rewrite !Hopen.
    destruct ((Z.of_nat (String.length start) =? -1)%Z || _); [reflexivity|].
    replace (Z.to_nat (Z.of_nat (String.length start) + 2))
      with (String.length (start ++ "{{")) by (rewrite length_append; simpl; lia).
    rewrite <- append_assoc, drop_append.
    now rewrite (trim_blank _ Hblank).
  - unfold Js.lastIndexOf at 1. now rewrite (lastIndexOf_blank _ Hblank).
Qed.

(** At the first column of a reference that the field pattern matched,
    where [updateDiagnostics] asks for the context, the analyzer finds no
    variable and answers [Unknown], whatever the document. *)
Lemma reference_context_unknown document found :
  In found (fieldReferences (getText document)) ->
  analyzeContext document (positionOf document found) = unknownContext.
Proof.
  destruct found as [index [[match0 variable] field]]. intros Hin.
  destruct (scanFrom_In _ _ _ _ _ _ Hin) as (n & len & Hn & Hmatch).
  simpl in Hn. subst n.
  destruct (fieldRefAt_inv _ _ _ _ _ Hmatch)
    as (spaces & rest & Hspaces & -> & Hdrop).
  pose proof (take_drop index (getText document)) as Htext.
  rewrite Hdrop in Htext.
  assert (Hindex : index < String.length (getText document)).
  { eapply drop_nonempty. rewrite Hdrop. reflexivity. }
  set (before := (Js.take index (getText document) ++ "{{" ++ spaces)%string).
  assert (Hbefore : String.length before = index + 2 + String.length spaces).
  { unfold before. rewrite length_append, length_take by lia.
    simpl. lia. }
  assert (Hsplit : getText document
                   = (before ++ "$" ++ variable ++ "." ++ field ++ rest)%string).
  { rewrite <- Htext at 1. unfold before.
    rewrite ?append_assoc. simpl.
    rewrite ?append_assoc. reflexivity. }
  unfold positionOf. rewrite (matchStart_after_spaces _ _ _ _ Hspaces).
  rewrite <- Hbefore.
  pose proof (text_before_position document before _ Hsplit) as Hline.
  cbv zeta in Hline.
  destruct (lastLine_open (Js.take index (getText document)) spaces Hspaces)
    as (blank & Hblank & Hlast).
  apply (analyzeContext_blank document _
           (lastLineFrom (Js.take index (getText document)) EmptyString)
           blank Hblank).
  rewrite Hline. exact Hlast.
Qed.

Lemma checkFieldReference_nil schemaParser document found :
  In found (fieldReferences (getText document)) ->
  checkFieldReference schemaParser document found = [].
Proof.
  intros Hin. destruct found as [index [[match0 variable] field]].
  unfold checkFieldReference.
  now rewrite (reference_context_unknown _ _ Hin).
Qed.

(** The first pass of [updateDiagnostics] never adds a diagnostic. *)
Lemma validateFieldReferences_adds_nothing schemaParser document diagnostics :
  validateFieldReferences schemaParser document diagnostics = diagnostics.
Proof.
  unfold validateFieldReferences.
  assert (H : forall l,
             (forall found, In found l ->
                            In found (fieldReferences (getText document))) ->
             flat_map (checkFieldReference schemaParser document) l = []).
  { induction l as [|found l IH]; intros Hl; [reflexivity|].
    simpl. rewrite (checkFieldReference_nil _ _ _ (Hl _ (or_introl eq_refl))).
    apply IH. intros f Hf. apply Hl. now right. }
  rewrite H by auto. apply app_nil_r.
Qed.

End ReferenceResolution.

(* ================================================================== *)
(** ** Context resolution and its two clients: claims *)
(* ================================================================== *)

Module ContextClaims.
Import Vscode ContextAnalyzer SchemaParser DiagnosticsProvider CompletionProvider.
Import Spec Samples JsFacts.

Lemma analyzeContext_column_zero document lineIndex :
  analyzeContext document (mkPosition lineIndex 0) = unknownContext.
Proof. reflexivity. Qed.

Lemma checkEnumValue_nil schemaParser document lineIndex found :
  checkEnumValue schemaParser document lineIndex found = [].
Proof.
  destruct found as [index [[match0 fieldName] value]].
  unfold checkEnumValue. destruct (Js.includes "{{" value); [reflexivity|].
  now rewrite analyzeContext_column_zero.
Qed.

(** The enum pass resolves the context at column 0 of every line, where
    no action can be open: it never adds a diagnostic. *)
Lemma validateEnumValues_adds_nothing schemaParser document diagnostics :
  validateEnumValues schemaParser document diagnostics = diagnostics.
Proof.
  unfold validateEnumValues. rewrite forEachLine_nil; [apply app_nil_r|].
  intros line i. apply flat_map_nil. intros found. apply checkEnumValue_nil.
Qed.

Lemma checkComma_code rawLines cleanedLines i d :
  In d (checkComma rawLines cleanedLines i) ->
  code d = "missing-comma" /\ line (range_start (range d)) = i.
Proof.
  unfold checkComma.
  repeat match goal with
         | |- In _ (if ?b then _ else _) -> _ => destruct b
         | |- In _ [] -> _ => intros []
         end.
  intros [<-|[]]. split; reflexivity.
Qed.

(** C2. A field reference whose context resolves to [Unknown] adds no
    diagnostic, and a completion request at a position whose context
    resolves to [Unknown] returns [undefined], no candidate at all: neither
    client reports anything for the site. *)
Theorem unknown_context_is_silent
        (schemaParser : SchemaParser) (document : TextDocument)
        (found : FieldMatch) (position : Position) :
  ContextAnalyzer.type (analyzeContext document (positionOf document found))
  = Unknown ->
  ContextAnalyzer.type (analyzeContext document position) = Unknown ->
  checkFieldReference schemaParser document found = []
  /\ provideCompletionItems schemaParser document position = Undefined
  /\ candidates (provideCompletionItems schemaParser document position) = [].
Proof.
  intros Hfound Hpos.
  assert (Hcompl : provideCompletionItems schemaParser document position = Undefined).
  { assert (He : provideEnumItems schemaParser document position = Undefined).
    { unfold provideEnumItems, detectEnumContext.
      destruct (Js.matchToEnd jsonFieldAt _); [|reflexivity].
      now rewrite Hpos. }
    unfold provideCompletionItems.
    destruct (Js.matchToEnd dotAt _) as [[v p]|]; [|exact He].
    now rewrite Hpos. }
  split; [|split; [exact Hcompl|now rewrite Hcompl]].
  destruct found as [index [[match0 variableName] fieldName]].
  unfold checkFieldReference. now rewrite Hfound.
Qed.

Lemma unknown_context_is_silent_witness :
  fieldReferences (getText unboundDoc) = [(0, ("{{ $x.method", "x", "method"))]
  /\ checkFieldReference (parserOf sampleSchema) unboundDoc
                         (0, ("{{ $x.method", "x", "method")) = []
  /\ provideCompletionItems (parserOf sampleSchema) unboundDoc (mkPosition 0 6)
     = Undefined.
Proof.
  split; [reflexivity|].
  destruct (unknown_context_is_silent (parserOf sampleSchema) unboundDoc
              (0, ("{{ $x.method", "x", "method")) (mkPosition 0 6)
              eq_refl eq_refl) as (H1 & H2 & _).
  split; assumption.
Defined.


(** C1 at its failing input.  The line carries a quoted key and a quoted
    value without an action, the key [method] has the enum GET, POST, PUT
    both in the endpoint table and in the table read for the context found
    at the first column, and GETT is none of them; the context at the first
    column is [Unknown], and no diagnostic is reported. *)
Theorem enum_pass_reports_nothing :
  let this := parserOf sampleSchema in
  Js.scanAll jsonValueAt (lineAt enumDoc 1)
  = [(0, (lineAt enumDoc 1, "method", "GETT"))]
  /\ Js.includes "{{" "GETT" = false
  /\ getEnumValues this Endpoint "method" = Some ["GET"; "POST"; "PUT"]
  /\ getEnumValues this
       (ContextAnalyzer.type (analyzeContext enumDoc (mkPosition 1 0))) "method"
     = Some ["GET"; "POST"; "PUT"]
  /\ existsb (String.eqb "GETT") ["GET"; "POST"; "PUT"] = false
  /\ ContextAnalyzer.type (analyzeContext enumDoc (mkPosition 1 0)) = Unknown
  /\ validateEnumValues this enumDoc [] = []
  /\ updateDiagnostics this enumDoc = Some [].
Proof. repeat split; vm_compute; reflexivity. Qed.

(** C4, as the code has it.  With the cursor anywhere from behind the
    variable name to the end of the reference, the two documents resolve to
    [Endpoint] and [Backend].  In general, whenever the analyzer finds a
    variable at the cursor, a classification from the nearest iteration
    binding of the window is the answer, and the name of the variable is
    consulted only when there is none; the nearest binding classifies by
    its source expression. *)
Theorem binding_wins_over_variable_name :
  (forall column, 34 <= column <= 41 ->
     ContextAnalyzer.type (analyzeContext endpointsDoc (mkPosition 0 column))
     = Endpoint)
  /\ (forall column, 33 <= column <= 42 ->
        ContextAnalyzer.type (analyzeContext backendsDoc (mkPosition 0 column))
        = Backend)
  /\ (forall document position variable,
        variableName (analyzeContext document position) = Some variable ->
        ContextAnalyzer.type (analyzeContext document position)
        = match inferContextFromSurrounding document position with
          | Unknown => variableNameHint variable
          | classified => classified
          end)
  /\ (forall document position earlier variable expression,
        rangeMatches (windowBefore document position)
        = earlier ++ [(variable, expression)] ->
        (Js.includes "endpoints" expression = true ->
         inferContextFromSurrounding document position = Endpoint)
        /\ (Js.includes "endpoints" expression = false ->
            Js.includes "backends" expression = true ->
            inferContextFromSurrounding document position = Backend)).
Proof.
  split; [|split; [|split]].
  - intros column H.
    assert (C : column = 34 \/ column = 35 \/ column = 36 \/ column = 37
                \/ column = 38 \/ column = 39 \/ column = 40 \/ column = 41)
      by lia.
    repeat (destruct C as [->|C]; [vm_compute; reflexivity|]).
    subst; vm_compute; reflexivity.
  - intros column H.
    assert (C : column = 33 \/ column = 34 \/ column = 35 \/ column = 36
                \/ column = 37 \/ column = 38 \/ column = 39 \/ column = 40
                \/ column = 41 \/ column = 42)
      by lia.
    repeat (destruct C as [->|C]; [vm_compute; reflexivity|]).
    subst; vm_compute; reflexivity.
  - intros document position variable. unfold analyzeContext.
    destruct (_ || _); [discriminate|].
    destruct (varMatch _) as [[v rest]|]; [|discriminate].
    simpl. intros H; injection H as ->.
    destruct (inferContextFromSurrounding document position); reflexivity.
  - intros document position earlier variable expression Hm.
    unfold inferContextFromSurrounding. rewrite Hm, last_snoc.
    split.
    + intros ->. reflexivity.
    + intros He Hb.
      assert (Hdot : Js.includes ".endpoints" expression = false).
      { destruct (Js.includes ".endpoints" expression) eqn:E; [|reflexivity].
        apply includes_tail in E. congruence. }
      rewrite He, Hdot, Hb. reflexivity.
Qed.

(** The window of the scan: a binding fifty lines above the cursor is
    seen, one fifty-one lines above is not. *)
Lemma window_is_fifty_lines :
  ContextAnalyzer.type (analyzeContext (farDoc 50) (mkPosition 50 12)) = Endpoint
  /\ ContextAnalyzer.type (analyzeContext (farDoc 51) (mkPosition 51 12)) = Unknown.
Proof. split; vm_compute; reflexivity. Qed.

Lemma binding_wins_over_variable_name_witness :
  variableNameHint "backend" = Backend
  /\ ContextAnalyzer.type (analyzeContext disagreeingDoc (mkPosition 0 53))
     = Endpoint.
Proof.
  split; [reflexivity|].
  destruct binding_wins_over_variable_name as (_ & _ & H & _).
  rewrite (H disagreeingDoc (mkPosition 0 53) "backend" eq_refl).
  reflexivity.
Defined.

(** C4, as the claim has it, fails at the first column of the reference,
    which is the position at which [updateDiagnostics] resolves it: the
    text between the opening braces and the cursor holds no variable yet,
    and the answer is [Unknown]. *)
Lemma reference_start_is_unknown :
  fieldReferences (getText endpointsDoc) = [(29, ("{{ $e.method", "e", "method"))]
  /\ positionOf endpointsDoc (29, ("{{ $e.method", "e", "method"))
     = mkPosition 0 32
  /\ Js.indexOf "$e.method" (getText endpointsDoc) = 32%Z
  /\ ContextAnalyzer.type (analyzeContext endpointsDoc (mkPosition 0 32))
     <> Endpoint
  /\ fieldReferences (getText backendsDoc)
     = [(28, ("{{ $b.encoding", "b", "encoding"))]
  /\ positionOf backendsDoc (28, ("{{ $b.encoding", "b", "encoding"))
     = mkPosition 0 31
  /\ ContextAnalyzer.type (analyzeContext backendsDoc (mkPosition 0 31))
     <> Backend.
Proof.
  repeat split; try (vm_compute; reflexivity); vm_compute; discriminate.
Qed.

End ContextClaims.

(* ================================================================== *)
(** ** Completion of field names: claims *)
(* ================================================================== *)

Module CompletionClaims.
Import Vscode ContextAnalyzer SchemaParser DiagnosticsProvider CompletionProvider.
Import Spec Samples JsFacts.

Lemma sortKey_required_first f g :
  required f = true -> required g = false ->
  String.compare (sortKey f) (sortKey g) = Lt.
Proof. unfold sortKey. intros -> ->. reflexivity. Qed.

Lemma createFieldCompletionItem_facts field context :
  label (createFieldCompletionItem field context) = name field
  /\ kind (createFieldCompletionItem field context) = Field
  /\ sortText (createFieldCompletionItem field context) = Some (sortKey field)
  /\ filterText (createFieldCompletionItem field context) = Some (name field).
Proof.
  unfold createFieldCompletionItem, sortKey. simpl.
  destruct (required field); auto.
Qed.

(** C7, as the code has it.  A completion request behind [$variable.partial]
    in a resolved context returns one candidate for each field of the shape
    (prefixed copies included) whose name contains the partial text, case
    ignored, and no other, in the order of the field list.  The list itself
    is not reordered: each candidate carries the sort key [!0_name] when
    the field is required and [!1_name] when it is not, and the key of a
    required field is smaller than the key of every optional one. *)
Theorem completion_lists_matching_fields
        (schemaParser : SchemaParser) (document : TextDocument)
        (position : Position) (variable partialField : string) :
  Js.matchToEnd dotAt
    (Js.take (character position) (lineAt document (line position)))
  = Some (variable, partialField) ->
  ContextAnalyzer.type (analyzeContext document position) <> Unknown ->
  let contextType := ContextAnalyzer.type (analyzeContext document position) in
  let items := candidates (provideCompletionItems schemaParser document position) in
  let fields := matching schemaParser contextType partialField in
  map label items = map name fields
  /\ map sortText items = map (fun field => Some (sortKey field)) fields
  /\ Forall (fun item => kind item = Field) items
  /\ (forall field,
        In field fields <->
        In field (getFields schemaParser contextType)
        /\ Js.includes (Js.toLowerCase partialField)
                       (Js.toLowerCase (name field)) = true)
  /\ (forall f g, In f fields -> In g fields ->
        required f = true -> required g = false ->
        String.compare (sortKey f) (sortKey g) = Lt).
Proof.
  intros Hdot Hknown contextType items fields.
  assert (Hitems : items
                   = map (fun field =>
                            createFieldCompletionItem field (ctxName contextType))
                         fields).
  { unfold items, provideCompletionItems. rewrite Hdot.
    fold contextType. destruct contextType eqn:E; try reflexivity.
    exfalso. apply Hknown. exact E. }
  rewrite Hitems. rewrite !map_map.
  split; [|split; [|split; [|split]]].
  - apply map_ext. intros f. apply createFieldCompletionItem_facts.
  - apply map_ext. intros f. apply createFieldCompletionItem_facts.
  - apply Forall_forall. intros item Hin. apply in_map_iff in Hin.
    destruct Hin as (f & <- & _). apply createFieldCompletionItem_facts.
  - intros field. unfold fields, matching. apply filter_In.
  - intros f g _ _. apply sortKey_required_first.
Qed.

Lemma completion_lists_matching_fields_witness :
  map label
      (candidates (provideCompletionItems (parserOf sampleSchema) typingDoc
                                          (mkPosition 0 35)))
  = map name (matching (parserOf sampleSchema) Endpoint "").
Proof.
  assert (Hdot : Js.matchToEnd dotAt
                   (Js.take (character (mkPosition 0 35))
                            (lineAt typingDoc (line (mkPosition 0 35))))
                 = Some ("e", "")) by (vm_compute; reflexivity).
  assert (Hctx : ContextAnalyzer.type (analyzeContext typingDoc (mkPosition 0 35))
                 = Endpoint) by (vm_compute; reflexivity).
  assert (Hknown : ContextAnalyzer.type
                     (analyzeContext typingDoc (mkPosition 0 35)) <> Unknown)
    by (rewrite Hctx; discriminate).
  destruct (completion_lists_matching_fields (parserOf sampleSchema) typingDoc
              (mkPosition 0 35) "e" "" Hdot Hknown) as (H & _).
  rewrite Hctx in H. exact H.
Defined.

(** C7, as the claim has it, fails: the returned sequence is in the order
    of the field list, and there the optional [method] stands before the
    required [backend]. *)
Lemma completion_keeps_table_order :
  let items :=
    candidates (provideCompletionItems (parserOf sampleSchema) typingDoc
                                       (mkPosition 0 35)) in
  map label items
  = ["url"; "method"; "output_encoding"; "backend";
     "endpoint_url"; "backend_method"; "endpoint_output_encoding"]
  /\ map sortText items
     = [Some "!0_url"; Some "!1_method"; Some "!1_output_encoding";
        Some "!0_backend"; Some "!0_endpoint_url"; Some "!1_backend_method";
        Some "!1_endpoint_output_encoding"]
  /\ option_map required (getFieldInfo (parserOf sampleSchema) Endpoint "method")
     = Some false
  /\ option_map required (getFieldInfo (parserOf sampleSchema) Endpoint "backend")
     = Some true.
Proof. repeat split; vm_compute; reflexivity. Qed.

End CompletionClaims.

(* ================================================================== *)
(** ** The matrix computes the edit distance *)
(* ================================================================== *)

Module Levenshtein.
Import Vscode ContextAnalyzer SchemaParser DiagnosticsProvider CompletionProvider.
Import Spec Samples JsFacts.

Lemma lev_nil_l t : lev EmptyString t = String.length t.
Proof. destruct t; reflexivity. Qed.

Lemma lev_nil_r s : lev s EmptyString = String.length s.
Proof. destruct s; reflexivity. Qed.

Lemma lev_cons c s d t :
  lev (String c s) (String d t)
  = if Ascii.eqb c d then lev s t
    else S (Nat.min (lev s t) (Nat.min (lev (String c s) t) (lev s (String d t)))).
Proof. reflexivity. Qed.

Lemma rowOf_unfold x y rest :
  rowOf x y rest
  = lev x y :: match rest with
               | EmptyString => []
               | String d rest' => rowOf x (String d y) rest'
               end.
Proof. destruct rest; reflexivity. Qed.

Lemma fillRow_rowOf c2 x rest :
  forall y,
    fillRow c2 rest (rowOf x y rest) (lev (String c2 x) y)
    = tl (rowOf (String c2 x) y rest).
Proof.
  induction rest as [|d rest IH]; intros y; [reflexivity|].
  rewrite (rowOf_unfold x y), (rowOf_unfold x (String d y)).
  cbn [fillRow]. rewrite <- (rowOf_unfold x (String d y)).
  rewrite (rowOf_unfold (String c2 x) y). cbn [tl].
  rewrite (rowOf_unfold (String c2 x) (String d y)).
  assert (Hcell :
    (if Ascii.eqb c2 d then lev x y
     else Nat.min (lev x y + 1)
                  (Nat.min (lev (String c2 x) y + 1) (lev x (String d y) + 1)))
    = lev (String c2 x) (String d y)).
  { rewrite lev_cons. destruct (Ascii.eqb c2 d); [reflexivity|lia]. }
  rewrite Hcell. f_equal.
  rewrite IH. rewrite (rowOf_unfold (String c2 x) (String d y)). reflexivity.
Qed.

Lemma nextRow_rowOf c2 x str1 :
  nextRow c2 str1 (rowOf x EmptyString str1) (S (String.length x))
  = rowOf (String c2 x) EmptyString str1.
Proof.
  unfold nextRow.
  change (S (String.length x)) with (lev (String c2 x) EmptyString).
  rewrite fillRow_rowOf. rewrite (rowOf_unfold (String c2 x) EmptyString).
  reflexivity.
Qed.

Lemma firstRow_rowOf rest :
  forall y, seq (String.length y) (S (String.length rest))
            = rowOf EmptyString y rest.
Proof.
  induction rest as [|d rest IH]; intros y.
  - rewrite rowOf_unfold, lev_nil_l. reflexivity.
  - rewrite rowOf_unfold, lev_nil_l. cbn [seq String.length]. f_equal.
    apply (IH (String d y)).
Qed.

Lemma laterRows_last str1 str2 :
  forall x,
    nth (String.length str2)
        (rowOf x EmptyString str1
           :: laterRows str1 str2 (rowOf x EmptyString str1)
                        (S (String.length x)))
        []
    = rowOf (revOnto str2 x) EmptyString str1.
Proof.
  induction str2 as [|c2 str2 IH]; intros x; [reflexivity|].
  cbn [String.length laterRows nth revOnto].
  rewrite nextRow_rowOf. apply (IH (String c2 x)).
Qed.

Lemma nth_rowOf x rest :
  forall y, nth (String.length rest) (rowOf x y rest) 0 = lev x (revOnto rest y).
Proof.
  induction rest as [|d rest IH]; intros y; [reflexivity|].
  rewrite rowOf_unfold. cbn [String.length nth revOnto]. apply IH.
Qed.

(** The matrix entry that [levenshteinDistance] returns. *)
Lemma levenshteinDistance_lev str1 str2 :
  levenshteinDistance str1 str2 = lev (reverse str2) (reverse str1).
Proof.
  unfold levenshteinDistance, levenshteinMatrix, reverse.
  change (seq 0 (S (String.length str1)))
    with (seq (String.length EmptyString) (S (String.length str1))).
  rewrite firstRow_rowOf.
  change 1 with (S (String.length EmptyString)).
  rewrite laterRows_last. apply nth_rowOf.
Qed.

Lemma Edits_insert_all t : Edits EmptyString t (String.length t).
Proof. induction t; simpl; constructor; assumption. Qed.

Lemma Edits_delete_all s : Edits s EmptyString (String.length s).
Proof. induction s; simpl; constructor; assumption. Qed.

Lemma Edits_lev s : forall t, Edits s t (lev s t).
Proof.
  induction s as [|c s IHs]; intros t.
  - destruct t; apply Edits_insert_all.
  - induction t as [|d t IHt].
    + rewrite lev_nil_r. apply Edits_delete_all.
    + rewrite lev_cons. destruct (Ascii.eqb c d) eqn:E.
      * apply Ascii.eqb_eq in E. subst d. constructor. apply IHs.
      * destruct (Nat.min_spec (lev s t)
                    (Nat.min (lev (String c s) t) (lev s (String d t))))
          as [[_ ->]|[_ ->]].
        -- apply edits_substitute. apply IHs.
        -- destruct (Nat.min_spec (lev (String c s) t) (lev s (String d t)))
             as [[_ ->]|[_ ->]].
           ++ apply edits_insert. exact IHt.
           ++ apply edits_delete. apply IHs.
Qed.

Lemma Edits_length s t n :
  Edits s t n ->
  String.length t <= String.length s + n
  /\ String.length s <= String.length t + n.
Proof. induction 1; simpl; lia. Qed.

Lemma Edits_drop_target s d t n :
  Edits s (String d t) n -> exists m, m <= S n /\ Edits s t m.
Proof.
  intros H. remember (String d t) as t0 eqn:Et. revert d t Et.
  induction H as [|c s t1 n H IH|c e s t1 n H IH|c s t1 n H IH|e s t1 n H IH];
    intros d t Et.
  - discriminate.
  - injection Et as -> ->. exists (S n). split; [lia|].
    now apply edits_delete.
  - injection Et as -> ->. exists (S n). split; [lia|].
    now apply edits_delete.
  - destruct (IH d t Et) as (m & Hm & Hedits).
    exists (S m). split; [lia|]. now apply edits_delete.
  - injection Et as -> ->. exists n. split; [lia|exact H].
Qed.

Lemma Edits_drop_source c s t n :
  Edits (String c s) t n -> exists m, m <= S n /\ Edits s t m.
Proof.
  intros H. remember (String c s) as s0 eqn:Es. revert c s Es.
  induction H as [|a s1 t n H IH|a e s1 t n H IH|a s1 t n H IH|e s1 t n H IH];
    intros c s Es.
  - discriminate.
  - injection Es as -> ->. exists (S n). split; [lia|].
    now apply edits_insert.
  - injection Es as -> ->. exists (S n). split; [lia|].
    now apply edits_insert.
  - injection Es as -> ->. exists n. split; [lia|exact H].
  - destruct (IH c s Es) as (m & Hm & Hedits).
    exists (S m). split; [lia|]. now apply edits_insert.
Qed.

Lemma lev_least s : forall t n, Edits s t n -> lev s t <= n.
Proof.
  induction s as [|c s IHs]; intros t.
  - intros n H. apply Edits_length in H.
    rewrite lev_nil_l. simpl in H. lia.
  - induction t as [|d t IHt]; intros n H.
    + rewrite lev_nil_r. apply Edits_length in H. simpl in *. lia.
    + rewrite lev_cons. inversion H as [|a s1 t1 n1 H1|a e s1 t1 n1 H1
                                        |a s1 t1 n1 H1|e s1 t1 n1 H1]; subst.
      * rewrite Ascii.eqb_refl. now apply IHs.
      * apply IHs in H1. destruct (Ascii.eqb c d); lia.
      * destruct (Ascii.eqb c d).
        -- destruct (Edits_drop_target _ _ _ _ H1) as (m & Hm & Hedits).
           apply IHs in Hedits. lia.
        -- apply IHs in H1. lia.
      * destruct (Ascii.eqb c d).
        -- destruct (Edits_drop_source _ _ _ _ H1) as (m & Hm & Hedits).
           apply IHs in Hedits. lia.
        -- apply IHt in H1. lia.
Qed.

Lemma Edits_keep_last c s t n :
  Edits s t n -> Edits (s ++ String c "") (t ++ String c "") n.
Proof.
  induction 1; simpl; try (constructor; assumption).
  apply edits_keep, edits_done.
Qed.

Lemma Edits_substitute_last c d s t n :
  Edits s t n -> Edits (s ++ String c "") (t ++ String d "") (S n).
Proof.
  induction 1; simpl; try (constructor; assumption).
  apply edits_substitute, edits_done.
Qed.

Lemma Edits_delete_last c s t n :
  Edits s t n -> Edits (s ++ String c "") t (S n).
Proof.
  induction 1; simpl; try (constructor; assumption).
  apply edits_delete, edits_done.
Qed.

Lemma Edits_insert_last d s t n :
  Edits s t n -> Edits s (t ++ String d "") (S n).
Proof.
  induction 1; simpl; try (constructor; assumption).
  apply edits_insert, edits_done.
Qed.

Lemma revOnto_append s : forall acc, revOnto s acc = (reverse s ++ acc)%string.
Proof.
  unfold reverse. induction s as [|c s IH]; intros acc; [reflexivity|].
  simpl. rewrite (IH (String c acc)), (IH (String c "")).
  rewrite append_assoc. reflexivity.
Qed.

Lemma reverse_cons c s : reverse (String c s) = (reverse s ++ String c "")%string.
Proof. unfold reverse at 1. simpl. apply revOnto_append. Qed.

Lemma reverse_append a b : reverse (a ++ b) = (reverse b ++ reverse a)%string.
Proof.
  induction a as [|c a IH]; simpl.
  - now rewrite append_nil_r.
  - rewrite !reverse_cons, IH. apply append_assoc.
Qed.

Lemma reverse_involutive s : reverse (reverse s) = s.
Proof.
  induction s as [|c s IH]; [reflexivity|].
  rewrite reverse_cons, reverse_append, IH. reflexivity.
Qed.

Lemma Edits_reverse s t n : Edits s t n -> Edits (reverse s) (reverse t) n.
Proof.
  induction 1; rewrite ?reverse_cons.
  - constructor.
  - now apply Edits_keep_last.
  - now apply Edits_substitute_last.
  - now apply Edits_delete_last.
  - now apply Edits_insert_last.
Qed.

Lemma Edits_sym s t n : Edits s t n -> Edits t s n.
Proof. induction 1; constructor; assumption. Qed.

(** [levenshteinDistance] is the Levenshtein distance: a number of edits
    that leads from one text to the other, and the least one. *)
Lemma levenshteinDistance_least str1 str2 :
  Edits str1 str2 (levenshteinDistance str1 str2)
  /\ forall n, Edits str1 str2 n -> levenshteinDistance str1 str2 <= n.
Proof.
  rewrite levenshteinDistance_lev. split.
  - apply Edits_sym.
    pose proof (Edits_reverse _ _ _ (Edits_lev (reverse str2) (reverse str1)))
      as H.
    now rewrite !reverse_involutive in H.
  - intros n H. apply lev_least. apply Edits_reverse, Edits_sym, H.
Qed.

End Levenshtein.

(* ================================================================== *)
(** ** Suggestions for an unknown field: claims *)
(* ================================================================== *)

Module SuggestionClaims.
Import Vscode ContextAnalyzer SchemaParser DiagnosticsProvider CompletionProvider.
Import Spec Samples JsFacts.

Lemma insertByDistance_In x l y :
  In y (insertByDistance x l) <-> y = x \/ In y l.
Proof.
  induction l as [|z l IH]; simpl.
  - intuition.
  - destruct (snd x <=? snd z); simpl; [intuition|].
    rewrite IH. intuition.
Qed.

Lemma sortByDistance_In l y : In y (sortByDistance l) <-> In y l.
Proof.
  induction l as [|x l IH]; simpl; [tauto|].
  rewrite insertByDistance_In, IH. intuition.
Qed.

Lemma insertByDistance_sorted x l :
  StronglySorted byDistance l -> StronglySorted byDistance (insertByDistance x l).
Proof.
  induction 1 as [|z l Hs IH Hall]; simpl.
  - constructor; constructor.
  - destruct (snd x <=? snd z) eqn:E.
    + apply Nat.leb_le in E. constructor.
      * now constructor.
      * constructor; [exact E|].
        eapply Forall_impl; [|exact Hall].
        unfold byDistance. intros; lia.
    + apply Nat.leb_gt in E. constructor; [exact IH|].
      apply Forall_forall. intros y Hy.
      apply insertByDistance_In in Hy. destruct Hy as [->|Hy].
      * unfold byDistance. lia.
      * rewrite Forall_forall in Hall. now apply Hall.
Qed.

Lemma sortByDistance_sorted l : StronglySorted byDistance (sortByDistance l).
Proof.
  induction l as [|x l IH]; simpl; [constructor|].
  now apply insertByDistance_sorted.
Qed.

(** The sort is stable: the items of one distance keep their order. *)
Lemma insertByDistance_stable d x l :
  filter (fun item => snd item =? d) (insertByDistance x l)
  = if snd x =? d then x :: filter (fun item => snd item =? d) l
    else filter (fun item => snd item =? d) l.
Proof.
  induction l as [|z l IH]; simpl; [reflexivity|].
  destruct (snd x <=? snd z) eqn:E; simpl.
  - reflexivity.
  - rewrite IH. apply Nat.leb_gt in E.
    destruct (snd x =? d) eqn:Ex; [|reflexivity].
    apply Nat.eqb_eq in Ex.
    assert (Ez : (snd z =? d) = false) by (apply Nat.eqb_neq; lia).
    now rewrite Ez.
Qed.

Lemma sortByDistance_stable d l :
  filter (fun item => snd item =? d) (sortByDistance l)
  = filter (fun item => snd item =? d) l.
Proof.
  induction l as [|x l IH]; simpl; [reflexivity|].
  rewrite insertByDistance_stable, IH. reflexivity.
Qed.

Lemma scored_snd schemaParser contextType fieldName item :
  In item (scored schemaParser contextType fieldName) ->
  snd item = distanceTo fieldName (fst item)
  /\ exists f, In f (getFields schemaParser contextType) /\ name f = fst item.
Proof.
  unfold scored. rewrite in_map_iff. intros (f & <- & Hf). simpl. eauto.
Qed.

Lemma kept_item schemaParser contextType fieldName item :
  In item (sortByDistance
             (filter (fun item => snd item <=? 3)
                     (scored schemaParser contextType fieldName))) ->
  snd item = distanceTo fieldName (fst item)
  /\ snd item <= 3
  /\ exists f, In f (getFields schemaParser contextType) /\ name f = fst item.
Proof.
  rewrite sortByDistance_In, filter_In. intros [Hin Hle].
  apply Nat.leb_le in Hle.
  destruct (scored_snd _ _ _ _ Hin) as [Hs Hf]. auto.
Qed.

Lemma StronglySorted_map_distance fieldName (l : list (string * nat)) :
  (forall item, In item l -> snd item = distanceTo fieldName (fst item)) ->
  StronglySorted byDistance l ->
  StronglySorted le (map (distanceTo fieldName) (map fst l)).
Proof.
  intros Hsnd Hs. induction Hs as [|z l Hs IH Hall]; simpl; [constructor|].
  constructor.
  - apply IH. intros item Hin. apply Hsnd. now right.
  - rewrite Forall_forall in *. intros d Hd.
    rewrite map_map in Hd. apply in_map_iff in Hd.
    destruct Hd as (y & <- & Hy).
    rewrite <- (Hsnd z (or_introl eq_refl)), <- (Hsnd y (or_intror Hy)).
    now apply Hall.
Qed.

(** What [findSimilarFields] answers for a shape and a name.  The names
    that the message of a diagnostic would propose are the first three at
    most of its answer; each is the name of a field of the shape at
    distance 3 at most from the given name, both lowered in case; they
    stand in ascending distance; and names at the same distance stand in
    the order of the field list, not in the order of the names.  The
    distance is the Levenshtein one: the least number of single-character
    edits between the two lowered names. *)
Theorem suggestions_nearest_first
        (schemaParser : SchemaParser) (contextType : CtxType)
        (fieldName : string) :
  let all := findSimilarFields schemaParser contextType fieldName in
  let proposed := suggested schemaParser contextType fieldName in
  List.length proposed <= 3
  /\ (exists rest, all = proposed ++ rest)
  /\ (forall candidate, In candidate all ->
        distanceTo fieldName candidate <= 3
        /\ exists f, In f (getFields schemaParser contextType)
                     /\ name f = candidate)
  /\ StronglySorted le (map (distanceTo fieldName) proposed)
  /\ StronglySorted le (map (distanceTo fieldName) all)
  /\ (forall d, d <= 3 ->
        filter (atDistance fieldName d) all
        = filter (atDistance fieldName d)
                 (map name (getFields schemaParser contextType)))
  /\ (forall candidate,
        Edits (Js.toLowerCase fieldName) (Js.toLowerCase candidate)
              (distanceTo fieldName candidate)
        /\ forall n,
             Edits (Js.toLowerCase fieldName) (Js.toLowerCase candidate) n ->
             distanceTo fieldName candidate <= n).
Proof.
  intros all proposed.
  set (items := sortByDistance
                  (filter (fun item => snd item <=? 3)
                          (scored schemaParser contextType fieldName))).
  assert (Hall : all = map fst items) by reflexivity.
  assert (Hitems : forall item, In item items ->
                     snd item = distanceTo fieldName (fst item))
    by (intros item Hin; now apply (kept_item _ _ _ _ Hin)).
  assert (Hsorted : StronglySorted le (map (distanceTo fieldName) all)).
  { rewrite Hall. apply StronglySorted_map_distance; [exact Hitems|].
    apply sortByDistance_sorted. }
  split; [apply firstn_le_length|].
  split; [exists (skipn 3 all); symmetry; apply firstn_skipn|].
  split.
  { intros candidate Hin. rewrite Hall in Hin. apply in_map_iff in Hin.
    destruct Hin as (item & <- & Hin).
    destruct (kept_item _ _ _ _ Hin) as (Hs & Hle & Hf).
    split; [lia|exact Hf]. }
  split.
  { unfold proposed, suggested. fold all.
    rewrite <- firstn_map. now apply StronglySorted_firstn. }
  split; [exact Hsorted|].
  split; [|intros candidate; apply Levenshtein.levenshteinDistance_least].
  intros d Hd. rewrite Hall.
  rewrite (filter_map_fst (atDistance fieldName d) (fun item => snd item =? d)).
  - unfold items. rewrite sortByDistance_stable, filter_filter_comm.
    rewrite (filter_true_on (fun item => snd item <=? 3)).
    + unfold scored.
      rewrite <- (filter_map_fst (atDistance fieldName d)
                                 (fun item => snd item =? d)).
      * rewrite map_map. reflexivity.
      * intros x Hx. apply in_map_iff in Hx. destruct Hx as (f & <- & _).
        reflexivity.
    + intros x Hx. apply filter_In in Hx. destruct Hx as [_ Hx].
      apply Nat.eqb_eq in Hx. apply Nat.leb_le. lia.
  - intros x Hx. unfold atDistance. now rewrite (Hitems x Hx).
Qed.

Lemma suggestions_nearest_first_witness :
  suggested (parserOf sampleSchema) Endpoint "methdo" = ["method"]
  /\ distanceTo "methdo" "method" <= 3.
Proof.
  split; [reflexivity|].
  destruct (suggestions_nearest_first (parserOf sampleSchema) Endpoint "methdo")
    as (_ & _ & H & _).
  apply (H "method"). vm_compute. left. reflexivity.
Defined.

(** The order within one distance: [url] and [uri] are both one edit away
    from [urx], and [findSimilarFields] keeps the order of the schema,
    [url] before [uri]. *)
Lemma equal_distance_keeps_table_order :
  suggested (parserOf tieSchema) Endpoint "urx" = ["url"; "uri"]
  /\ distanceTo "urx" "url" = 1
  /\ distanceTo "urx" "uri" = 1
  /\ String.compare "uri" "url" = Lt.
Proof. repeat split; vm_compute; reflexivity. Qed.



End SuggestionClaims.

(* ================================================================== *)
(** ** The missing-comma pass: claims *)
(* ================================================================== *)

Module CommaClaims.
Import Vscode ContextAnalyzer SchemaParser DiagnosticsProvider CompletionProvider.
Import Spec Samples JsFacts.

(** A closing pair found at the very end of a text ends it. *)
Lemma indexOf_closing_at_end s k :
  Js.indexOf_opt "}}" s = Some k ->
  k + 2 <= String.length s
  /\ (k + 2 = String.length s -> Js.lastChar s = Some "}"%char).
Proof.
  revert k. induction s as [|a s IH]; intros k.
  - simpl. discriminate.
  - cbn [Js.indexOf_opt].
    destruct (Js.startsWith "}}" (String a s)) eqn:E.
    + intros H; injection H as <-.
      split; [apply (startsWith_length _ _ E)|].
      rewrite startsWith_cons in E. apply andb_true_iff in E.
      destruct E as [_ E].
      destruct s as [|b s]; [discriminate|].
      rewrite startsWith_cons in E. apply andb_true_iff in E.
      destruct E as [E _]. apply Ascii.eqb_eq in E. subst b.
      intros Hk. destruct s; [reflexivity|simpl in Hk; lia].
    + destruct (Js.indexOf_opt "}}" s) as [k'|]; [|discriminate].
      intros H; injection H as <-.
      destruct (IH k' eq_refl) as [Hle Hlast].
      split; [simpl; lia|].
      intros Hk. simpl in Hk. apply lastChar_cons. apply Hlast. lia.
Qed.

Lemma replaceActions_lastChar c :
  c <> "}"%char ->
  forall s skip,
    Js.lastChar s = Some c -> skip < String.length s ->
    Js.lastChar (replaceActions skip s) = Some c.
Proof.
  intros Hc. induction s as [|a s IH]; intros skip Hlast Hskip; [discriminate|].
  destruct skip as [|k].
  - cbn [replaceActions].
    assert (Hplain : Js.lastChar (String a (replaceActions 0 s)) = Some c).
    { destruct s as [|b s]; [exact Hlast|].
      apply lastChar_cons. apply IH; [exact Hlast|simpl; lia]. }
    destruct (Js.startsWith "{{" (String a s)) eqn:E; [|exact Hplain].
    destruct (Js.indexOf_opt "}}" (Js.drop 2 (String a s))) as [k|] eqn:Ek;
      [|exact Hplain].
    pose proof (startsWith_length _ _ E) as Hlen. simpl in Hlen.
    destruct s as [|b s]; [simpl in Hlen; lia|].
    change (Js.drop 2 (String a (String b s))) with s in Ek.
    destruct (indexOf_closing_at_end _ _ Ek) as [Hle Hend].
    assert (Hs : Js.lastChar s = Some c).
    { destruct s as [|b' s]; [simpl in Hle; lia|exact Hlast]. }
    apply lastChar_cons. apply IH; [exact Hlast|].
    simpl. destruct (Nat.eq_dec (k + 2) (String.length s)) as [Heq|Hne].
    + specialize (Hend Heq). congruence.
    + lia.
  - cbn [replaceActions]. simpl in Hskip.
    destruct s as [|b s]; [simpl in Hskip; lia|].
    apply IH; [exact Hlast|lia].
Qed.

Lemma opensOrSeparates_facts c :
  opensOrSeparates c ->
  c <> "}"%char /\ Js.isSpace c = false
  /\ Ascii.eqb c "{"%char || Ascii.eqb c "["%char || Ascii.eqb c ","%char = true.
Proof.
  intros [-> | [-> | ->]]; (split; [discriminate|split; reflexivity]).
Qed.

(** A line that ends with a comma, an opening brace or an opening bracket
    passes through [cleanTemplateLine] into a line that allows no comma, or
    is dropped. *)
Lemma checkComma_exempt rawLines i raw c :
  nth_error rawLines i = Some raw ->
  Js.lastChar raw = Some c -> opensOrSeparates c ->
  checkComma rawLines (map cleanTemplateLine rawLines) i = [].
Proof.
  intros Hnth Hlast Hc.
  destruct (opensOrSeparates_facts c Hc) as (Hbrace & Hspace & Hallowed).
  unfold checkComma.
  assert (Hline : nth i (map cleanTemplateLine rawLines) ""
                  = cleanTemplateLine raw).
  { change "" with (cleanTemplateLine "") at 1. rewrite map_nth.
    f_equal. now apply nth_error_nth. }
  rewrite Hline. unfold cleanTemplateLine.
  destruct (templateOnly raw).
  - destruct (Js.includes "," raw); reflexivity.
  - destruct (Js.isEmpty (Js.trim (replaceActions 0 raw))) eqn:Etrim;
      [reflexivity|].
    pose proof (replaceActions_lastChar c Hbrace raw 0 Hlast
                  (lastChar_nonempty _ _ Hlast)) as Hcleaned.
    pose proof (lastChar_trim _ _ Hcleaned Hspace) as Htrimmed.
    destruct (Js.isEmpty (replaceActions 0 raw)); [reflexivity|].
    rewrite Etrim. simpl.
    destruct (String.eqb _ ","); [reflexivity|].
    destruct (isJsonPropertyLine _); [|reflexivity]. simpl.
    assert (Hallow : lineAllowsNoComma (Js.trim (replaceActions 0 raw)) = true).
    { unfold lineAllowsNoComma.
      rewrite (lastChar_trimEnd _ _ Htrimmed Hspace). exact Hallowed. }
    now rewrite Hallow.
Qed.

Lemma nth_cleaned rawLines i raw :
  nth_error rawLines i = Some raw ->
  nth i (map cleanTemplateLine rawLines) "" = cleanTemplateLine raw.
Proof.
  intros H. change "" with (cleanTemplateLine "") at 1. rewrite map_nth.
  f_equal. now apply nth_error_nth.
Qed.

(** When the pass reports: a property line that allows a comma, directly
    followed by a line that starts with a quote once neutralized and
    trimmed. *)
Lemma checkComma_reports rawLines i current next :
  nth_error rawLines i = Some current ->
  nth_error rawLines (S i) = Some next ->
  let trimmed := Js.trim (cleanTemplateLine current) in
  let nextLine := Js.trim (cleanTemplateLine next) in
  Js.isEmpty trimmed = false ->
  String.eqb trimmed "," = false ->
  isJsonPropertyLine trimmed = true ->
  lineAllowsNoComma trimmed = false ->
  Js.startsWith Js.q nextLine = true ->
  checkComma rawLines (map cleanTemplateLine rawLines) i
  = [missingComma i (String.length current)].
Proof.
  intros Hcur Hnext. cbv zeta.
  remember (Js.trim (cleanTemplateLine current)) as trimmed eqn:Etrimmed.
  remember (Js.trim (cleanTemplateLine next)) as nextLine eqn:EnextLine.
  intros Hne Hcomma Hprop Hallow Hquote.
  assert (Hnext_ne : Js.isEmpty nextLine = false)
    by (destruct nextLine; [discriminate|reflexivity]).
  assert (Hnext_comma : String.eqb nextLine "," = false).
  { destruct (String.eqb nextLine ",") eqn:E; [|reflexivity].
    apply String.eqb_eq in E. rewrite E in Hquote. discriminate. }
  unfold checkComma. rewrite (nth_cleaned _ _ _ Hcur).
  assert (Hclean_ne : Js.isEmpty (cleanTemplateLine current) = false).
  { destruct (cleanTemplateLine current) eqn:E; [|reflexivity].
    subst trimmed. discriminate. }
  rewrite <- Etrimmed.
  rewrite Hclean_ne, Hne, Hcomma, Hprop, Hallow. cbn [negb orb].
  assert (Hfind : findNextNonEmptyLine (map cleanTemplateLine rawLines) (i + 1)
                  = Z.of_nat (S i)).
  { unfold findNextNonEmptyLine. replace (i + 1) with (S i) by lia.
    assert (Hn : nth_error (map cleanTemplateLine rawLines) (S i)
                 = Some (cleanTemplateLine next))
      by (rewrite nth_error_map, Hnext; reflexivity).
    destruct (skipn_nth_error _ _ _ Hn) as [rest ->].
    cbn [firstNonEmpty]. rewrite <- EnextLine, Hnext_ne. reflexivity. }
  rewrite Hfind.
  assert (Hz : (Z.of_nat (S i) =? -1)%Z = false) by (apply Z.eqb_neq; lia).
  rewrite Hz, Nat2Z.id, (nth_cleaned _ _ _ Hnext), <- EnextLine.
  rewrite Hnext_comma, Hquote.
  rewrite (nth_error_nth _ _ _ Hcur). reflexivity.
Qed.

Lemma filter_onLine_checkComma rawLines cleanedLines i j :
  filter (onLine i) (checkComma rawLines cleanedLines j)
  = if j =? i then checkComma rawLines cleanedLines j else [].
Proof.
  pose proof (ContextClaims.checkComma_code rawLines cleanedLines j) as H.
  destruct (j =? i) eqn:E.
  - apply Nat.eqb_eq in E. subst j.
    apply filter_true_on. intros d Hd.
    unfold onLine. apply Nat.eqb_eq. now apply H.
  - apply Nat.eqb_neq in E.
    induction (checkComma rawLines cleanedLines j) as [|d l IH]; [reflexivity|].
    simpl. assert (Hd : onLine i d = false).
    { unfold onLine. apply Nat.eqb_neq.
      destruct (H d (or_introl eq_refl)) as [_ ->]. exact E. }
    rewrite Hd. apply IH. intros d' Hd'. apply H. now right.
Qed.

Lemma filter_onLine_pass rawLines cleanedLines i start count :
  filter (onLine i)
         (flat_map (checkComma rawLines cleanedLines) (seq start count))
  = if (start <=? i) && (i <? start + count)
    then checkComma rawLines cleanedLines i else [].
Proof.
  revert start. induction count as [|n IH]; intros start.
  - cbn [seq flat_map filter].
    destruct (Nat.leb_spec start i), (Nat.ltb_spec i (start + 0));
      cbn [andb]; try reflexivity; lia.
  - cbn [seq flat_map]. rewrite filter_app, filter_onLine_checkComma, IH.
    destruct (Nat.eqb_spec start i), (Nat.leb_spec (S start) i),
      (Nat.leb_spec start i), (Nat.ltb_spec i (S start + n)),
      (Nat.ltb_spec i (start + S n));
      subst; cbn [andb app]; rewrite ?app_nil_r; try reflexivity; lia.
Qed.

Lemma checkFieldReference_code schemaParser document found d :
  In d (checkFieldReference schemaParser document found) ->
  code d = "unknown-field".
Proof.
  destruct found as [index [[match0 variableName] fieldName]].
  unfold checkFieldReference.
  destruct (ContextAnalyzer.type _);
    try (destruct (isValidField _ _ _); [intros []|intros [<-|[]]; reflexivity]).
  intros [].
Qed.

(** C6. The document of the two lines [\x22a\x22: 1] and [\x22b\x22: 2]
    named [krakend.json.tmpl] gets exactly one diagnostic, the missing
    comma on the last character of the first line.  In any such document
    these two lines one after the other give exactly that diagnostic for
    the first of them.  And in any document a line ending with a comma, an
    opening brace or an opening bracket gets no missing-comma diagnostic. *)
Theorem missing_comma_between_properties :
  (forall schemaParser,
     updateDiagnostics schemaParser twoProperties = Some [missingComma 0 6])
  /\ (forall document i,
        Js.endsWith ".json.tmpl" (fileName document) = true ->
        nth_error (Js.split LF (getText document)) i = Some lineA ->
        nth_error (Js.split LF (getText document)) (S i) = Some lineB ->
        filter (onLine i) (validateTemplateJsonCommas document [])
        = [missingComma i 6])
  /\ (forall schemaParser document diagnostics i raw c d,
        nth_error (Js.split LF (getText document)) i = Some raw ->
        Js.lastChar raw = Some c -> opensOrSeparates c ->
        updateDiagnostics schemaParser document = Some diagnostics ->
        In d diagnostics -> code d = "missing-comma" ->
        line (range_start (range d)) <> i).
Proof.
  split; [|split].
  - intros schemaParser. unfold updateDiagnostics.
    rewrite ContextClaims.validateEnumValues_adds_nothing.
    reflexivity.
  - intros document i Hname HA HB.
    unfold validateTemplateJsonCommas. rewrite Hname. simpl.
    rewrite filter_onLine_pass. simpl.
    assert (Hi : i < List.length (map cleanTemplateLine
                                      (Js.split LF (getText document)))).
    { rewrite length_map. apply nth_error_Some. congruence. }
    apply Nat.ltb_lt in Hi. rewrite Hi.
    apply (checkComma_reports _ i lineA lineB HA HB); reflexivity.
  - intros schemaParser document diagnostics i raw c d Hraw Hlast Hc Hupd Hin Hcode.
    unfold updateDiagnostics in Hupd.
    destruct (negb (String.eqb _ _)); [discriminate|]. injection Hupd as <-.
    rewrite ContextClaims.validateEnumValues_adds_nothing in Hin.
    unfold validateTemplateJsonCommas in Hin.
    assert (Hfields : In d (validateFieldReferences schemaParser document [])
                      -> False).
    { unfold validateFieldReferences. simpl. rewrite in_flat_map.
      intros (r & _ & Hd). apply checkFieldReference_code in Hd.
      rewrite Hd in Hcode. discriminate. }
    destruct (negb (Js.endsWith _ _)); [now exfalso|].
    apply in_app_or in Hin. destruct Hin as [Hin|Hin]; [now exfalso|].
    apply in_flat_map in Hin. destruct Hin as (j & _ & Hd).
    intros Hline.
    destruct (ContextClaims.checkComma_code _ _ _ _ Hd) as [_ Hj].
    rewrite Hline in Hj. subst j.
    rewrite (checkComma_exempt _ _ _ _ Hraw Hlast Hc) in Hd.
    contradiction.
Qed.

Lemma missing_comma_between_properties_witness :
  filter (onLine 1) (validateTemplateJsonCommas threeProperties [])
  = [missingComma 1 6]
  /\ line (range_start (range (missingComma 1 6))) <> 0.
Proof.
  destruct missing_comma_between_properties as (_ & Hpair & Hexempt).
  split.
  - apply (Hpair threeProperties 1); reflexivity.
  - apply (Hexempt (parserOf sampleSchema) threeProperties [missingComma 1 6]
                   0 (lineB ++ ",")%string ","%char (missingComma 1 6)).
    + reflexivity.
    + reflexivity.
    + left. reflexivity.
    + reflexivity.
    + left. reflexivity.
    + reflexivity.
Defined.

End CommaClaims.

(* ================================================================== *)
(** ** The schema store: further properties *)
(* ================================================================== *)

Module StoreExtras.
Import Vscode ContextAnalyzer SchemaParser DiagnosticsProvider CompletionProvider.
Import Spec Samples JsFacts StoreFacts.

(** *** Tables as maps *)

Lemma map_set_absent {V : Type} k (v : V) (m : list (string * V)) :
  ~ In k (map fst m) -> map_set k v m = m ++ [(k, v)].
Proof.
  induction m as [|[k' v'] m IH]; simpl; intros H; [reflexivity|].
  destruct (String.eqb k' k) eqn:E.
  - apply String.eqb_eq in E. exfalso. apply H. now left.
  - rewrite IH; [reflexivity|]. intros Hin. apply H. now right.
Qed.

Lemma map_set_present {V : Type} k (v : V) (m : list (string * V)) :
  In k (map fst m) -> map fst (map_set k v m) = map fst m.
Proof.
  induction m as [|[k' v'] m IH]; simpl; intros H; [contradiction|].
  destruct (String.eqb k' k) eqn:E; simpl.
  - apply String.eqb_eq in E. now subst.
  - f_equal. apply IH. destruct H as [H|H]; [|exact H].
    apply String.eqb_neq in E. congruence.
Qed.

Lemma map_set_NoDup {V : Type} k (v : V) (m : list (string * V)) :
  NoDup (map fst m) -> NoDup (map fst (map_set k v m)).
Proof.
  intros H. destruct (in_dec string_dec k (map fst m)) as [Hin|Hout].
  - now rewrite map_set_present.
  - rewrite (map_set_absent _ _ _ Hout), map_app. simpl.
    apply NoDup_app; [exact H|repeat constructor; intros []|].
    intros x Hx [<-|[]]. contradiction.
Qed.

Lemma map_set_In_keys {V : Type} k0 (v : V) (m : list (string * V)) k :
  In k (map fst (map_set k0 v m)) <-> k = k0 \/ In k (map fst m).
Proof.
  destruct (in_dec string_dec k0 (map fst m)) as [Hin|Hout].
  - rewrite map_set_present by exact Hin. split; [auto|].
    intros [->|H]; assumption.
  - rewrite (map_set_absent _ _ _ Hout), map_app, in_app_iff. simpl.
    intuition.
Qed.

Lemma parseFields_cons key prop properties targetMap required :
  parseFields ((key, prop) :: properties) targetMap required
  = parseFields properties
                (map_set key (fieldOf required (key, prop)) targetMap) required.
Proof. reflexivity. Qed.

Lemma parseFields_nil targetMap required :
  parseFields [] targetMap required = targetMap.
Proof. reflexivity. Qed.

Lemma parseFields_NoDup properties required :
  forall targetMap,
    NoDup (map fst targetMap) ->
    NoDup (map fst (parseFields properties targetMap required)).
Proof.
  induction properties as [|[key prop] ps IH]; intros targetMap H.
  - exact H.
  - rewrite parseFields_cons. apply IH. now apply map_set_NoDup.
Qed.

Lemma parseFields_keys properties required :
  forall targetMap k,
    In k (map fst (parseFields properties targetMap required))
    <-> In k (map fst targetMap) \/ In k (map fst properties).
Proof.
  induction properties as [|[key prop] ps IH]; intros targetMap k.
  - rewrite parseFields_nil. simpl. tauto.
  - rewrite parseFields_cons, IH, map_set_In_keys. simpl.
    split; intros H; intuition (subst; auto).
Qed.

Lemma parseFields_fresh properties required :
  forall targetMap,
    NoDup (map fst targetMap ++ map fst properties) ->
    parseFields properties targetMap required
    = targetMap ++ map (fun entry => (fst entry, fieldOf required entry)) properties.
Proof.
  induction properties as [|[key prop] ps IH]; intros targetMap H.
  - rewrite parseFields_nil. simpl. now rewrite app_nil_r.
  - rewrite parseFields_cons. simpl in H.
    assert (Hout : ~ In key (map fst targetMap)).
    { intros Hin. apply NoDup_remove_2 in H. apply H.
      apply in_or_app. now left. }
    rewrite (map_set_absent _ _ _ Hout). rewrite IH.
    + rewrite <- app_assoc. reflexivity.
    + rewrite map_app. simpl. rewrite <- app_assoc. exact H.
Qed.

Lemma In_map_get_NoDup {V : Type} k (v : V) (m : list (string * V)) :
  NoDup (map fst m) -> In (k, v) m -> map_get k m = Some v.
Proof.
  induction m as [|[k' v'] m IH]; simpl; intros Hnd Hin; [contradiction|].
  inversion Hnd as [|x l Hout Hnd']; subst.
  destruct Hin as [H|H].
  - injection H as -> ->. now rewrite String.eqb_refl.
  - destruct (String.eqb k' k) eqn:E.
    + apply String.eqb_eq in E. subst k'. exfalso. apply Hout.
      apply in_map_iff. exists (k, v). auto.
    + now apply IH.
Qed.

(** X1. The table that [parseFields] builds from the properties of a
    definition never files a key twice and holds exactly the keys of the
    properties; the field found under a key bears that key as its name and
    is required exactly when the key is in the list of required names; and
    when no key occurs twice among the properties, which is so for every
    object, the table is one field for each property, in their order. *)
Theorem parseFields_lists_properties
        (properties : list (string * SchemaProperty)) (required : list string) :
  let table := parseFields properties [] required in
  NoDup (map fst table)
  /\ (forall key, In key (map fst table) <-> In key (map fst properties))
  /\ (forall key field,
        map_get key table = Some field ->
        name field = key
        /\ SchemaParser.required field = includesKey key required)
  /\ (NoDup (map fst properties) ->
      table = map (fun entry => (fst entry, fieldOf required entry)) properties).
Proof.
  intros table. split; [|split; [|split]].
  - apply parseFields_NoDup. constructor.
  - intros key. unfold table. rewrite parseFields_keys. simpl. tauto.
  - intros key field Hget. split.
    + apply (keyed_parseFields properties required []).
      * intros k f [].
      * now apply map_get_In.
    + destruct (parseFields_required _ _ _ _ _ Hget) as [Hin Hout].
      destruct (in_dec string_dec key (map fst properties)) as [H|H]; [auto|].
      specialize (Hout H). discriminate.
  - intros Hnd. unfold table. now rewrite parseFields_fresh.
Qed.

Lemma parseFields_lists_properties_witness :
  map fst (parseFields [("url", plain "string"); ("method", enumerated methods)]
                       [] ["url"])
  = ["url"; "method"]
  /\ option_map SchemaParser.required
       (map_get "url" (parseFields [("url", plain "string");
                                    ("method", enumerated methods)] [] ["url"]))
     = Some true.
Proof.
  destruct (parseFields_lists_properties
              [("url", plain "string"); ("method", enumerated methods)] ["url"])
    as (_ & _ & Hfield & Htable).
  split.
  - rewrite Htable; [reflexivity|].
    repeat constructor; simpl; intuition discriminate.
  - destruct (Hfield "url" (fieldOf ["url"] ("url", plain "string")) eq_refl)
      as [_ Hreq].
    reflexivity.
Defined.

(** *** Every parser object has duplicate-free tables *)

Lemma uniqueKeys_empty : uniqueKeys emptyParser.
Proof. repeat split; constructor. Qed.

Section HostExtras.

Variable readFileSync : string -> option string.
Variable JSON_parse : string -> option KrakenDSchema.
Variable decodeURIComponent : string -> option string.

Lemma uniqueKeys_parseBackend this props :
  uniqueKeys this -> uniqueKeys (parseBackend decodeURIComponent this props).
Proof.
  intros (He & Hb & Hr). unfold parseBackend.
  destruct (itemsRef (map_get "backend" props)) as [ref|]; [|now repeat split].
  destruct (Js.isEmpty ref); [now repeat split|].
  destruct (resolveRef decodeURIComponent this ref) as [def|]; [|now repeat split].
  destruct (propertiesOf def) as [ps|]; [|now repeat split].
  repeat split; simpl; auto using parseFields_NoDup.
Qed.

Lemma uniqueKeys_parseSchema this :
  uniqueKeys this -> uniqueKeys (parseSchema decodeURIComponent this).
Proof.
  intros (He & Hb & Hr). unfold parseSchema.
  destruct (schema this) as [sch|] eqn:Hs; [|now repeat split].
  set (this1 := mkParser _ _ _ _).
  assert (W1 : uniqueKeys this1)
    by (repeat split; simpl; auto using parseFields_NoDup).
  destruct (itemsRef _) as [ref|]; [|exact W1].
  destruct (Js.isEmpty ref); [exact W1|].
  destruct (resolveRef decodeURIComponent this1 ref) as [def|]; [|exact W1].
  destruct (propertiesOf def) as [ps|]; [|exact W1].
  apply uniqueKeys_parseBackend.
  destruct W1 as (He1 & Hb1 & Hr1).
  repeat split; simpl; auto using parseFields_NoDup.
Qed.

Lemma uniqueKeys_new schemaPath :
  uniqueKeys (newSchemaParser readFileSync JSON_parse decodeURIComponent schemaPath).
Proof.
  unfold newSchemaParser, loadSchema.
  destruct (readFileSync schemaPath) as [content|]; [|apply uniqueKeys_empty].
  destruct (JSON_parse content) as [sch|]; [|apply uniqueKeys_empty].
  apply uniqueKeys_parseSchema. apply uniqueKeys_empty.
Qed.

(** *** What a load leaves in the three tables *)

Lemma itemsRef_key x props ref :
  itemsRef (map_get x props) = Some ref -> In x (map fst props).
Proof.
  destruct (map_get x props) as [p|] eqn:E; [|discriminate].
  intros _. apply map_get_key. eauto.
Qed.

Lemma parseBackend_tables this props :
  endpointFields (parseBackend decodeURIComponent this props) = endpointFields this
  /\ rootFields (parseBackend decodeURIComponent this props) = rootFields this
  /\ (backendFields (parseBackend decodeURIComponent this props)
      = backendFields this
      \/ In "backend" (map fst props)).
Proof.
  unfold parseBackend.
  destruct (itemsRef (map_get "backend" props)) as [ref|] eqn:E; [|auto].
  apply itemsRef_key in E.
  destruct (Js.isEmpty ref); [auto|].
  destruct (resolveRef decodeURIComponent this ref) as [def|]; [|auto].
  destruct (propertiesOf def) as [ps|]; simpl; auto.
Qed.

(** X2. After a load that read and parsed a schema, the root table is the
    one built from the properties of the schema, whatever becomes of the
    references.  When the reference of [endpoints] is absent, empty or
    unresolved, or resolves to a value without properties (a definition
    that has none, or an inherited member), the endpoint and backend
    tables are empty.  And in every case the backend table has a field
    only if the endpoint table has one called [backend]. *)
Theorem load_fills_tables (schemaPath content : string) (sch : KrakenDSchema) :
  readFileSync schemaPath = Some content ->
  JSON_parse content = Some sch ->
  let this := newSchemaParser readFileSync JSON_parse decodeURIComponent schemaPath in
  let endpointRef := itemsRef (map_get "endpoints" (s_properties sch)) in
  rootFields this = parseFields (s_properties sch) [] []
  /\ (truthy endpointRef = false
      \/ (exists ref,
            endpointRef = Some ref
            /\ (resolveRef decodeURIComponent (mkParser (Some sch) [] [] []) ref
                = None
                \/ exists def,
                    resolveRef decodeURIComponent
                               (mkParser (Some sch) [] [] []) ref = Some def
                    /\ propertiesOf def = None)) ->
      endpointFields this = [] /\ backendFields this = [])
  /\ (forall key, In key (map fst (backendFields this)) ->
                  In "backend" (map fst (endpointFields this))).
Proof.
  intros Hread Hparse this endpointRef.
  assert (Hthis : this = parseSchema decodeURIComponent (mkParser (Some sch) [] [] [])).
  { unfold this, newSchemaParser, loadSchema. now rewrite Hread, Hparse. }
  assert (Hresolve : forall a b c ref,
            resolveRef decodeURIComponent (mkParser (Some sch) a b c) ref
            = resolveRef decodeURIComponent (mkParser (Some sch) [] [] []) ref)
    by reflexivity.
  rewrite Hthis. unfold parseSchema. cbn [schema endpointFields backendFields rootFields].
  fold endpointRef.
  destruct endpointRef as [ref|] eqn:Eref.
  2:{ cbn. split; [reflexivity|split; [auto|intros key []]]. }
  destruct (Js.isEmpty ref) eqn:Eempty.
  { cbn. split; [reflexivity|split; [auto|intros key []]]. }
  rewrite Hresolve.
  destruct (resolveRef decodeURIComponent (mkParser (Some sch) [] [] []) ref)
    as [def|] eqn:Edef.
  2:{ cbn. split; [reflexivity|split; [auto|intros key []]]. }
  destruct (propertiesOf def) as [props|] eqn:Eprops.
  2:{ cbn. split; [reflexivity|split; [auto|intros key []]]. }
  match goal with
  | |- context [parseBackend _ ?t _] =>
      destruct (parseBackend_tables t props) as (He & Hr & Hb)
  end.
  rewrite He, Hr. cbn [endpointFields rootFields backendFields] in *.
  split; [reflexivity|]. split.
  - intros [Hfalse|(ref' & Href & [Hnone|(def' & Hdef & Hnoprops)])].
    + cbn in Hfalse. rewrite Eempty in Hfalse. discriminate.
    + injection Href as <-. congruence.
    + injection Href as <-. congruence.
  - intros key Hkey. apply parseFields_keys. right.
    destruct Hb as [Hb|Hb]; [|exact Hb].
    rewrite Hb in Hkey. contradiction.
Qed.

Lemma uniqueKeys_table this context :
  uniqueKeys this -> NoDup (map fst (tableOf this context)).
Proof. intros (He & Hb & Hr). destruct context; assumption. Qed.

Lemma listed_value table field :
  keyed table -> NoDup (map fst table) -> In field (map_values table) ->
  map_get (name field) table = Some field.
Proof.
  intros K U Hin. unfold map_values in Hin. apply in_map_iff in Hin.
  destruct Hin as ([k f] & Hf & Hin). simpl in Hf. subst f.
  rewrite (K _ _ Hin). now apply In_map_get_NoDup.
Qed.

(** One prefixed name, one original. *)
Lemma fieldMappings_original original1 original2 prefixed :
  In (original1, prefixed) fieldMappings ->
  In (original2, prefixed) fieldMappings ->
  original1 = original2.
Proof.
  unfold fieldMappings. intros H1 H2. simpl in H1, H2.
  repeat (destruct H1 as [H1|H1];
          [inversion H1; subst; clear H1;
           repeat (destruct H2 as [H2|H2];
                   [inversion H2; reflexivity|]);
           contradiction|]).
  contradiction.
Qed.

(** X3. Looking a listed field up gives that very field back: for every
    entry of the field list of a shape, [getFieldInfo] at its name returns
    the entry itself, unless the entry is a prefixed copy whose name is
    also a key of the table (then the table's own field is returned). *)
Theorem getFieldInfo_returns_listed_field
        (schemaPath : string) (context : CtxType) (field : FieldInfo) :
  let this := newSchemaParser readFileSync JSON_parse decodeURIComponent schemaPath in
  In field (getFields this context) ->
  In field (map_values (tableOf this context))
  \/ map_get (name field) (tableOf this context) = None ->
  getFieldInfo this context (name field) = Some field.
Proof.
  intros this Hlisted Hown.
  pose proof (StoreClaims.wellKeyed_table this context
                (wellKeyed_new _ _ _ schemaPath)) as K.
  pose proof (uniqueKeys_table this context (uniqueKeys_new schemaPath)) as U.
  assert (Hcanonical : In field (map_values (tableOf this context)) ->
                       getFieldInfo this context (name field) = Some field).
  { intros Hin. unfold getFieldInfo. now rewrite (listed_value _ _ K U Hin). }
  destruct Hown as [Hin|Hnone]; [auto|].
  assert (Hcases :
    In field (map_values (tableOf this context))
    \/ exists canonical prefixed,
         In canonical (map_values (tableOf this context))
         /\ map_get (name canonical) fieldMappings = Some prefixed
         /\ field = aliasOf canonical prefixed (name canonical)).
  { destruct context; simpl in *.
    - now apply StoreClaims.withPrefixed_inv.
    - now apply StoreClaims.withPrefixed_inv.
    - now left. }
  destruct Hcases as [Hin|(c & m & Hc & Hm & ->)]; [auto|].
  cbn [name aliasOf] in *. unfold getFieldInfo. rewrite Hnone.
  apply mapping_entry in Hm.
  pose proof (listed_value _ _ K U Hc) as Hget.
  destruct (findPrefixed_some _ _ _ _ _ Hm Hget) as [a Ha].
  rewrite Ha.
  destruct (findPrefixed_inv _ _ _ _ Ha) as (o & f & Ho & Hf & ->).
  rewrite (fieldMappings_original _ _ _ Ho Hm) in *.
  congruence.
Qed.

End HostExtras.

Lemma getFieldInfo_returns_listed_field_witness :
  getFieldInfo (parserOf sampleSchema) Endpoint "endpoint_url"
  = Some (aliasOf (mkField "url" "string" "" None None true)
                  "endpoint_url" "url").
Proof.
  apply (getFieldInfo_returns_listed_field readsFile (parsesTo sampleSchema)
           decodesNothing "schema.json" Endpoint
           (aliasOf (mkField "url" "string" "" None None true)
                    "endpoint_url" "url")).
  - vm_compute. do 4 right. left. reflexivity.
  - right. reflexivity.
Defined.

(** *** Resolving a reference *)




Lemma readKey_own key definitions definition :
  map_get key definitions = Some definition ->
  readKey key definitions = Some (Own definition).
Proof. unfold readKey. now intros ->. Qed.





Lemma load_fills_tables_witness :
  map fst (rootFields (parserOf sampleSchema)) = ["version"; "method"; "endpoints"]
  /\ In "backend" (map fst (endpointFields (parserOf sampleSchema))).
Proof.
  destruct (load_fills_tables readsFile (parsesTo sampleSchema) decodesNothing
              "schema.json" "{}" sampleSchema eq_refl eq_refl)
    as (Hroot & _ & Hbackend).
  split.
  - unfold parserOf. rewrite Hroot. reflexivity.
  - apply (Hbackend "host"). vm_compute. do 2 right. left. reflexivity.
Defined.

End StoreExtras.

(* ================================================================== *)
(** ** The edit distance: further properties *)
(* ================================================================== *)

Module LevenshteinExtras.
Import Vscode ContextAnalyzer SchemaParser DiagnosticsProvider CompletionProvider.
Import Spec Samples JsFacts Levenshtein.

Lemma Edits_refl s : Edits s s 0.
Proof. induction s; constructor; assumption. Qed.

Lemma Edits_zero s t n : Edits s t n -> n = 0 -> s = t.
Proof.
  induction 1; intros E; try discriminate; [reflexivity|].
  f_equal. auto.
Qed.

(** Two runs of edits, one after the other, are one run of no more edits
    than both. *)
Lemma Edits_trans s t n :
  Edits s t n ->
  forall u m, Edits t u m -> exists k, k <= n + m /\ Edits s u k.
Proof.
  induction 1 as [|c s t n H IH|c d s t n H IH|c s t n H IH|d s t n H IH];
    intros u m H2.
  - exists m. split; [lia|exact H2].
  - remember (String c t) as t0 eqn:E. revert E.
    induction H2 as [|c' t' u' m' H2 IH2|c' d' t' u' m' H2 IH2
                     |c' t' u' m' H2 IH2|d' t' u' m' H2 IH2]; intros E;
      try discriminate.
    + injection E as -> ->. destruct (IH _ _ H2) as (k & Hk & Hedits).
      exists k. split; [lia|now constructor].
    + injection E as -> ->. destruct (IH _ _ H2) as (k & Hk & Hedits).
      exists (S k). split; [lia|now constructor].
    + injection E as -> ->. destruct (IH _ _ H2) as (k & Hk & Hedits).
      exists (S k). split; [lia|now constructor].
    + destruct (IH2 E) as (k & Hk & Hedits).
      exists (S k). split; [lia|now constructor].
  - remember (String d t) as t0 eqn:E. revert E.
    induction H2 as [|c' t' u' m' H2 IH2|c' d' t' u' m' H2 IH2
                     |c' t' u' m' H2 IH2|d' t' u' m' H2 IH2]; intros E;
      try discriminate.
    + injection E as -> ->. destruct (IH _ _ H2) as (k & Hk & Hedits).
      exists (S k). split; [lia|now constructor].
    + injection E as -> ->. destruct (IH _ _ H2) as (k & Hk & Hedits).
      exists (S k). split; [lia|now constructor].
    + injection E as -> ->. destruct (IH _ _ H2) as (k & Hk & Hedits).
      exists (S k). split; [lia|now constructor].
    + destruct (IH2 E) as (k & Hk & Hedits).
      exists (S k). split; [lia|now constructor].
  - destruct (IH _ _ H2) as (k & Hk & Hedits).
    exists (S k). split; [lia|now constructor].
  - remember (String d t) as t0 eqn:E. revert E.
    induction H2 as [|c' t' u' m' H2 IH2|c' d' t' u' m' H2 IH2
                     |c' t' u' m' H2 IH2|d' t' u' m' H2 IH2]; intros E;
      try discriminate.
    + injection E as -> ->. destruct (IH _ _ H2) as (k & Hk & Hedits).
      exists (S k). split; [lia|now constructor].
    + injection E as -> ->. destruct (IH _ _ H2) as (k & Hk & Hedits).
      exists (S k). split; [lia|now constructor].
    + injection E as -> ->. destruct (IH _ _ H2) as (k & Hk & Hedits).
      exists k. split; [lia|exact Hedits].
    + destruct (IH2 E) as (k & Hk & Hedits).
      exists (S k). split; [lia|now constructor].
Qed.

Lemma Edits_within_longer s :
  forall t, exists n,
    n <= Nat.max (String.length s) (String.length t) /\ Edits s t n.
Proof.
  induction s as [|c s IH]; intros t.
  - exists (String.length t). split; [simpl; lia|apply Edits_insert_all].
  - destruct t as [|d t].
    + exists (String.length (String c s)).
      split; [simpl; lia|apply Edits_delete_all].
    + destruct (IH t) as (n & Hn & Hedits).
      exists (S n). split; [simpl; lia|now constructor].
Qed.

(** X5. [levenshteinDistance] computes the Levenshtein distance: its
    result is a number of single-character insertions, deletions and
    substitutions that turns the first text into the second, and no
    smaller number does. *)
Theorem levenshteinDistance_is_least_edit_count (str1 str2 : string) :
  Edits str1 str2 (levenshteinDistance str1 str2)
  /\ forall n, Edits str1 str2 n -> levenshteinDistance str1 str2 <= n.
Proof. apply levenshteinDistance_least. Qed.

Lemma levenshteinDistance_is_least_edit_count_witness :
  levenshteinDistance "methdo" "method" <= 2.
Proof.
  apply (levenshteinDistance_is_least_edit_count "methdo" "method").
  do 4 apply edits_keep. do 2 apply edits_substitute. apply edits_done.
Defined.

(** X6. [levenshteinDistance] is a metric on texts: it is zero exactly
    between equal texts, it is the same in both directions, it obeys the
    triangle inequality, and it lies between the difference of the two
    lengths and the greater of them. *)
Theorem levenshteinDistance_is_metric (a b c : string) :
  (levenshteinDistance a b = 0 <-> a = b)
  /\ levenshteinDistance a b = levenshteinDistance b a
  /\ levenshteinDistance a c <= levenshteinDistance a b + levenshteinDistance b c
  /\ String.length a - String.length b <= levenshteinDistance a b
  /\ String.length b - String.length a <= levenshteinDistance a b
  /\ levenshteinDistance a b <= Nat.max (String.length a) (String.length b).
Proof.
  destruct (levenshteinDistance_least a b) as [Hab Hab_least].
  destruct (levenshteinDistance_least b a) as [Hba Hba_least].
  destruct (levenshteinDistance_least b c) as [Hbc _].
  destruct (levenshteinDistance_least a c) as [_ Hac_least].
  split; [|split; [|split; [|split; [|split]]]].
  - split.
    + intros E. apply (Edits_zero _ _ _ Hab E).
    + intros ->. pose proof (Hab_least 0 (Edits_refl b)). lia.
  - apply Nat.le_antisymm.
    + apply Hab_least, Edits_sym, Hba.
    + apply Hba_least, Edits_sym, Hab.
  - destruct (Edits_trans _ _ _ Hab _ _ Hbc) as (k & Hk & Hedits).
    specialize (Hac_least k Hedits). lia.
  - apply Edits_length in Hab. lia.
  - apply Edits_length in Hab. lia.
  - destruct (Edits_within_longer a b) as (n & Hn & Hedits).
    specialize (Hab_least n Hedits). lia.
Qed.

End LevenshteinExtras.

(* ================================================================== *)
(** ** The diagnostics provider: what it reports for any document *)
(* ================================================================== *)

Module DiagnosticsExtras.
Import Vscode ContextAnalyzer SchemaParser DiagnosticsProvider CompletionProvider.
Import Spec Samples JsFacts.

Lemma firstNonEmpty_found ls :
  forall i j,
    firstNonEmpty ls i = Some j ->
    i <= j
    /\ (exists l, nth_error ls (j - i) = Some l
                  /\ Js.isEmpty (Js.trim l) = false)
    /\ (forall k l, k < j - i -> nth_error ls k = Some l ->
                    Js.isEmpty (Js.trim l) = true).
Proof.
  induction ls as [|l0 ls IH]; intros i j; [discriminate|].
  cbn [firstNonEmpty]. destruct (Js.isEmpty (Js.trim l0)) eqn:E.
  - intros H. destruct (IH _ _ H) as (Hle & (l & Hl & Hnb) & Hblank).
    split; [lia|split].
    + exists l. split; [|exact Hnb].
      replace (j - i) with (S (j - S i)) by lia. exact Hl.
    + intros k l' Hk Hl'. destruct k as [|k].
      * injection Hl' as <-. exact E.
      * apply (Hblank k); [lia|exact Hl'].
  - intros H; injection H as <-.
    split; [lia|split].
    + exists l0. rewrite Nat.sub_diag. split; [reflexivity|exact E].
    + intros k l' Hk. lia.
Qed.

Lemma firstNonEmpty_none ls :
  forall i,
    firstNonEmpty ls i = None ->
    forall k l, nth_error ls k = Some l -> Js.isEmpty (Js.trim l) = true.
Proof.
  induction ls as [|l0 ls IH]; intros i H k l Hl.
  - destruct k; discriminate.
  - cbn [firstNonEmpty] in H. destruct (Js.isEmpty (Js.trim l0)) eqn:E;
      [|discriminate].
    destruct k as [|k]; [injection Hl as <-; exact E|].
    apply (IH _ H k). exact Hl.
Qed.

Lemma nth_error_skipn_from {A : Type} (l : list A) :
  forall n k, nth_error (skipn n l) k = nth_error l (n + k).
Proof.
  induction l as [|x l IH]; intros n k.
  - rewrite skipn_nil. destruct k, n; reflexivity.
  - destruct n; [reflexivity|]. apply IH.
Qed.

(** What [findNextNonEmptyLine] answers, in both directions. *)
Lemma findNextNonEmptyLine_cases lines start :
  (findNextNonEmptyLine lines start = (-1)%Z
   /\ forall k l, start <= k -> nth_error lines k = Some l ->
                  Js.isEmpty (Js.trim l) = true)
  \/ (exists j l,
        findNextNonEmptyLine lines start = Z.of_nat j
        /\ start <= j
        /\ nth_error lines j = Some l
        /\ Js.isEmpty (Js.trim l) = false
        /\ forall k l', start <= k < j -> nth_error lines k = Some l' ->
                        Js.isEmpty (Js.trim l') = true).
Proof.
  unfold findNextNonEmptyLine.
  destruct (firstNonEmpty (skipn start lines) start) as [j|] eqn:E.
  - right. destruct (firstNonEmpty_found _ _ _ E) as (Hle & (l & Hl & Hnb) & Hblank).
    exists j, l. rewrite nth_error_skipn_from in Hl.
    replace (start + (j - start)) with j in Hl by lia.
    repeat split; try assumption.
    intros k l' Hk Hl'. apply (Hblank (k - start)); [lia|].
    rewrite nth_error_skipn_from.
    replace (start + (k - start)) with k by lia. exact Hl'.
  - left. split; [reflexivity|].
    intros k l Hk Hl. apply (firstNonEmpty_none _ _ E (k - start)).
    rewrite nth_error_skipn_from.
    replace (start + (k - start)) with k by lia. exact Hl.
Qed.

(** X7. [findNextNonEmptyLine] answers the index of the first line at or
    after [start] whose trimmed text is not empty, and -1 exactly when
    every line from [start] on is blank (or there is none). *)
Theorem findNextNonEmptyLine_first_nonblank (lines : list string) (start : nat) :
  (forall j,
     findNextNonEmptyLine lines start = Z.of_nat j <->
     start <= j
     /\ (exists l, nth_error lines j = Some l
                   /\ Js.isEmpty (Js.trim l) = false)
     /\ (forall k l, start <= k < j -> nth_error lines k = Some l ->
                     Js.isEmpty (Js.trim l) = true))
  /\ (findNextNonEmptyLine lines start = (-1)%Z <->
      forall k l, start <= k -> nth_error lines k = Some l ->
                  Js.isEmpty (Js.trim l) = true).
Proof.
  destruct (findNextNonEmptyLine_cases lines start)
    as [[Hnone Hall]|(j0 & l0 & Hfound & Hle0 & Hl0 & Hnb0 & Hblank0)].
  - split.
    + intros j. split.
      * rewrite Hnone. lia.
      * intros (Hle & (l & Hl & Hnb) & _).
        rewrite (Hall j l Hle Hl) in Hnb. discriminate.
    + split; [intros _; exact Hall|intros _; exact Hnone].
  - split.
    + intros j. split.
      * rewrite Hfound. intros E. apply Nat2Z.inj in E. subst j0.
        split; [exact Hle0|split; [exists l0; split; assumption|exact Hblank0]].
      * intros (Hle & (l & Hl & Hnb) & Hblank). rewrite Hfound. f_equal.
        destruct (Nat.lt_trichotomy j0 j) as [Hlt|[Heq|Hgt]]; [|exact Heq|].
        -- rewrite (Hblank j0 l0 (conj Hle0 Hlt) Hl0) in Hnb0. discriminate.
        -- rewrite (Hblank0 j l (conj Hle Hgt) Hl) in Hnb. discriminate.
    + split.
      * rewrite Hfound. lia.
      * intros Hall. rewrite (Hall j0 l0 Hle0 Hl0) in Hnb0. discriminate.
Qed.

Lemma findNextNonEmptyLine_first_nonblank_witness :
  findNextNonEmptyLine ["a"; " "; ""; "b"; ""] 1 = 3%Z.
Proof.
  apply (proj1 (findNextNonEmptyLine_first_nonblank ["a"; " "; ""; "b"; ""] 1) 3).
  split; [lia|split].
  - exists "b". split; reflexivity.
  - intros k l Hk Hl.
    assert (Hcases : k = 1 \/ k = 2) by lia.
    destruct Hcases as [-> | ->]; injection Hl as <-; reflexivity.
Defined.

Lemma findNextNonEmptyLine_at lines start j l :
  start <= j -> nth_error lines j = Some l ->
  Js.isEmpty (Js.trim l) = false ->
  (forall k l', start <= k < j -> nth_error lines k = Some l' ->
                Js.isEmpty (Js.trim l') = true) ->
  findNextNonEmptyLine lines start = Z.of_nat j.
Proof.
  intros Hle Hl Hnb Hblank.
  destruct (findNextNonEmptyLine_cases lines start)
    as [[_ Hall]|(j0 & l0 & Hfound & Hle0 & Hl0 & Hnb0 & Hblank0)].
  - rewrite (Hall j l Hle Hl) in Hnb. discriminate.
  - rewrite Hfound. f_equal.
    destruct (Nat.lt_trichotomy j0 j) as [Hlt|[Heq|Hgt]]; [|exact Heq|].
    + rewrite (Hblank j0 l0 (conj Hle0 Hlt) Hl0) in Hnb0. discriminate.
    + rewrite (Hblank0 j l (conj Hle Hgt) Hl) in Hnb. discriminate.
Qed.

Lemma nth_raw_cleaned rawLines i :
  nth i (map cleanTemplateLine rawLines) ""
  = match nth_error rawLines i with
    | Some raw => cleanTemplateLine raw
    | None => ""
    end.
Proof.
  revert i. induction rawLines as [|r rawLines IH]; intros [|i];
    try reflexivity. apply IH.
Qed.

Lemma trim_empty_of_empty s : Js.isEmpty s = true -> Js.isEmpty (Js.trim s) = true.
Proof. destruct s; [reflexivity|discriminate]. Qed.

(** One turn of the loop of the comma pass reports exactly when the rule
    in words holds for the line. *)
Lemma checkComma_expects rawLines i d :
  In d (checkComma rawLines (map cleanTemplateLine rawLines) i)
  <-> exists raw,
        nth_error rawLines i = Some raw
        /\ expectsComma rawLines i
        /\ d = missingComma i (String.length raw).
Proof.
  unfold checkComma. rewrite nth_raw_cleaned.
  destruct (nth_error rawLines i) as [raw|] eqn:Hraw.
  2:{ cbn [Js.isEmpty]. split; [intros []|intros (raw & Hr & _); discriminate]. }
  set (cleaned := cleanTemplateLine raw).
  set (trimmed := Js.trim cleaned).
  assert (Hnth : nth i rawLines "" = raw) by now apply nth_error_nth.
  split.
  - destruct (Js.isEmpty cleaned); [intros []|].
    destruct (Js.isEmpty trimmed || String.eqb trimmed ","); [intros []|].
    destruct (isJsonPropertyLine trimmed) eqn:Hprop; [|intros []].
    cbn [negb].
    destruct (lineAllowsNoComma trimmed) eqn:Hallow; [intros []|].
    destruct (findNextNonEmptyLine_cases (map cleanTemplateLine rawLines) (i + 1))
      as [[-> _]|(j & l & -> & Hle & Hl & Hnb & Hblank)]; [intros []|].
    assert (Hz : (Z.of_nat j =? -1)%Z = false) by (apply Z.eqb_neq; lia).
    rewrite Hz, Nat2Z.id. rewrite nth_raw_cleaned.
    rewrite nth_error_map in Hl.
    destruct (nth_error rawLines j) as [next|] eqn:Hnext; [|discriminate].
    injection Hl as <-.
    destruct (String.eqb _ ","); [intros []|].
    destruct (Js.startsWith Js.q _) eqn:Hquote; [|intros []].
    intros [<-|[]]. exists raw. split; [reflexivity|split].
    + exists raw, j, next. repeat split; try assumption; try lia.
      intros k between Hk Hbetween. apply (Hblank k); [lia|].
      rewrite nth_error_map, Hbetween. reflexivity.
    + rewrite Hnth. reflexivity.
  - intros (raw0 & E & (raw' & j & next & Hraw' & Hprop & Hallow & Hlt
                        & Hnext & Hblank & Hquote) & ->).
    injection E as <-.
    rewrite Hraw in Hraw'. injection Hraw' as <-.
    fold cleaned trimmed in Hprop, Hallow.
    assert (Hne : Js.isEmpty trimmed = false)
      by (destruct trimmed; [discriminate|reflexivity]).
    assert (Hcleaned : Js.isEmpty cleaned = false).
    { destruct (Js.isEmpty cleaned) eqn:E; [|reflexivity].
      unfold trimmed in Hne. rewrite (trim_empty_of_empty _ E) in Hne.
      discriminate. }
    assert (Hcomma : String.eqb trimmed "," = false).
    { destruct (String.eqb trimmed ",") eqn:E; [|reflexivity].
      apply String.eqb_eq in E. rewrite E in Hprop. discriminate. }
    rewrite Hcleaned, Hne, Hcomma, Hprop, Hallow. cbn [orb negb].
    set (nextLine := Js.trim (cleanTemplateLine next)) in *.
    assert (Hnext_ne : Js.isEmpty nextLine = false)
      by (destruct nextLine; [discriminate|reflexivity]).
    assert (Hfind : findNextNonEmptyLine (map cleanTemplateLine rawLines) (i + 1)
                    = Z.of_nat j).
    { apply (findNextNonEmptyLine_at _ _ _ (cleanTemplateLine next)).
      - lia.
      - rewrite nth_error_map, Hnext. reflexivity.
      - exact Hnext_ne.
      - intros k l' Hk Hl'. rewrite nth_error_map in Hl'.
        destruct (nth_error rawLines k) as [between|] eqn:Hbetween;
          [|discriminate].
        injection Hl' as <-. apply (Hblank k between); [lia|exact Hbetween]. }
    rewrite Hfind.
    assert (Hz : (Z.of_nat j =? -1)%Z = false) by (apply Z.eqb_neq; lia).
    rewrite Hz, Nat2Z.id, nth_raw_cleaned, Hnext. fold nextLine.
    assert (Hnext_comma : String.eqb nextLine "," = false).
    { destruct (String.eqb nextLine ",") eqn:E; [|reflexivity].
      apply String.eqb_eq in E. rewrite E in Hquote. discriminate. }
    rewrite Hnext_comma, Hquote, Hnth. left. reflexivity.
Qed.

Lemma checkComma_one rawLines cleanedLines i :
  checkComma rawLines cleanedLines i = []
  \/ exists d, checkComma rawLines cleanedLines i = [d] /\ lineOf d = i.
Proof.
  unfold checkComma.
  repeat match goal with
         | |- (if ?b then _ else _) = [] \/ _ => destruct b
         | |- [] = [] \/ _ => left; reflexivity
         end.
  right. eexists. split; reflexivity.
Qed.

Lemma comma_pass_sorted rawLines cleanedLines count :
  forall start,
    StronglySorted lt
      (map lineOf
           (flat_map (checkComma rawLines cleanedLines) (seq start count)))
    /\ Forall (fun n => start <= n)
         (map lineOf
              (flat_map (checkComma rawLines cleanedLines) (seq start count))).
Proof.
  induction count as [|count IH]; intros start.
  - split; constructor.
  - cbn [seq flat_map]. destruct (IH (S start)) as [Hsorted Hfrom].
    destruct (checkComma_one rawLines cleanedLines start)
      as [->|(d & -> & Hd)]; cbn [app map].
    + split; [exact Hsorted|].
      eapply Forall_impl; [|exact Hfrom]. cbv beta. intros n Hn. lia.
    + rewrite Hd. split.
      * constructor; [exact Hsorted|].
        eapply Forall_impl; [|exact Hfrom]. cbv beta. intros n Hn. lia.
      * constructor; [lia|].
        eapply Forall_impl; [|exact Hfrom]. cbv beta. intros n Hn. lia.
Qed.

(** X8. The unknown-field pass of [updateDiagnostics] reports nothing,
    whatever the schema and the document: the context of every reference
    that the field pattern finds is resolved at the first column of the
    reference, where the analyzer answers [unknown], so the reference is
    skipped before its field is looked up. *)
Theorem unknown_field_pass_reports_nothing
        (schemaParser : SchemaParser) (document : TextDocument)
        (diagnostics : list Diagnostic) :
  (forall found,
     In found (fieldReferences (getText document)) ->
     analyzeContext document (positionOf document found) = unknownContext
     /\ checkFieldReference schemaParser document found = [])
  /\ validateFieldReferences schemaParser document diagnostics = diagnostics.
Proof.
  split.
  - intros found Hin. split.
    + now apply ReferenceResolution.reference_context_unknown.
    + now apply ReferenceResolution.checkFieldReference_nil.
  - apply ReferenceResolution.validateFieldReferences_adds_nothing.
Qed.

Lemma unknown_field_pass_reports_nothing_witness :
  isValidField (parserOf sampleSchema) Endpoint "methdo" = false
  /\ analyzeContext misspelledDoc
                    (positionOf misspelledDoc (29, ("{{ $e.methdo", "e", "methdo")))
     = unknownContext
  /\ checkFieldReference (parserOf sampleSchema) misspelledDoc
                         (29, ("{{ $e.methdo", "e", "methdo")) = [].
Proof.
  split; [reflexivity|].
  apply (proj1 (unknown_field_pass_reports_nothing
                  (parserOf sampleSchema) misspelledDoc [])).
  vm_compute. left. reflexivity.
Defined.

(** X9. What [updateDiagnostics] hands to the collection does not depend
    on the schema: for a document of the language [gotmpl] it is what the
    comma pass alone reports, which is nothing unless the file name ends
    with [.json.tmpl]; for a document of another language nothing is
    set. *)
Theorem updateDiagnostics_is_comma_pass
        (schemaParser : SchemaParser) (document : TextDocument) :
  updateDiagnostics schemaParser document
  = (if String.eqb (languageId document) "gotmpl"
     then Some (if Js.endsWith ".json.tmpl" (fileName document)
                then flat_map
                       (checkComma (Js.split LF (getText document))
                                   (map cleanTemplateLine
                                        (Js.split LF (getText document))))
                       (seq 0 (List.length (Js.split LF (getText document))))
                else [])
     else None).
Proof.
  unfold updateDiagnostics.
  destruct (String.eqb (languageId document) "gotmpl"); [|reflexivity].
  cbn [negb].
  rewrite ContextClaims.validateEnumValues_adds_nothing.
  rewrite ReferenceResolution.validateFieldReferences_adds_nothing.
  unfold validateTemplateJsonCommas.
  destruct (Js.endsWith ".json.tmpl" (fileName document)); [|reflexivity].
  cbn [negb app]. now rewrite length_map.
Qed.

(** X10. In a document whose file name ends with [.json.tmpl] the
    diagnostics of [updateDiagnostics] are exactly the missing commas of
    the lines for which the rule holds: the line, neutralized and trimmed,
    holds a JSON property and does not end with a comma, an opening brace
    or an opening bracket, and the first following line that is not blank
    once neutralized starts with a quote.  The diagnostic covers the last
    character of the raw line.  Diagnostics come in the order of the
    lines, at most one for a line. *)
Theorem missing_commas_reported_exactly
        (schemaParser : SchemaParser) (document : TextDocument)
        (diagnostics : list Diagnostic) :
  Js.endsWith ".json.tmpl" (fileName document) = true ->
  updateDiagnostics schemaParser document = Some diagnostics ->
  (forall d,
     In d diagnostics
     <-> exists i raw,
           nth_error (Js.split LF (getText document)) i = Some raw
           /\ expectsComma (Js.split LF (getText document)) i
           /\ d = missingComma i (String.length raw))
  /\ StronglySorted lt (map lineOf diagnostics).
Proof.
  intros Hname Hupd. unfold updateDiagnostics in Hupd.
  destruct (negb (String.eqb _ _)); [discriminate|]. injection Hupd as <-.
  rewrite ContextClaims.validateEnumValues_adds_nothing.
  rewrite ReferenceResolution.validateFieldReferences_adds_nothing.
  unfold validateTemplateJsonCommas. rewrite Hname. cbn [negb app].
  set (rawLines := Js.split LF (getText document)).
  split; [|apply comma_pass_sorted].
  intros d. rewrite in_flat_map. split.
  - intros (i & _ & Hd). apply checkComma_expects in Hd.
    destruct Hd as (raw & Hraw & Hrule & ->). now exists i, raw.
  - intros (i & raw & Hraw & Hrule & ->). exists i. split.
    + apply in_seq. rewrite length_map. split; [lia|].
      cbn [Nat.add]. apply nth_error_Some. congruence.
    + apply checkComma_expects. now exists raw.
Qed.

Lemma missing_commas_reported_exactly_witness :
  In (missingComma 0 6)
     (flat_map
        (checkComma (Js.split LF (getText interleavedDoc))
                    (map cleanTemplateLine (Js.split LF (getText interleavedDoc))))
        (seq 0 3)).
Proof.
  apply (proj1 (missing_commas_reported_exactly
                  (parserOf sampleSchema) interleavedDoc _
                  eq_refl eq_refl)).
  exists 0, lineA. split; [reflexivity|split; [|reflexivity]].
  exists lineA, 2, lineB.
  split; [reflexivity|].
  split; [reflexivity|].
  split; [reflexivity|].
  split; [lia|].
  split; [reflexivity|].
  split; [|reflexivity].
  intros k between Hk Hbetween.
  assert (E : k = 1) by lia. subst k.
  injection Hbetween as <-. reflexivity.
Defined.

End DiagnosticsExtras.

(* ================================================================== *)
(** ** The context analyzer: further properties *)
(* ================================================================== *)

Module AnalyzerExtras.
Import Vscode ContextAnalyzer SchemaParser DiagnosticsProvider CompletionProvider.
Import HoverProvider Spec Samples JsFacts.

Lemma get_some n : forall s, n < String.length s -> exists c, String.get n s = Some c.
Proof.
  induction n as [|n IH]; intros [|a s] H; simpl in H; try lia.
  - exists a. reflexivity.
  - apply IH. lia.
Qed.

Lemma get_length n : forall s c, String.get n s = Some c -> n < String.length s.
Proof.
  induction n as [|n IH]; intros [|a s] c H; simpl in *; try discriminate; try lia.
  apply IH in H. lia.
Qed.

Lemma get_drop n : forall s i, String.get i (Js.drop n s) = String.get (n + i) s.
Proof.
  induction n as [|n IH]; intros s i.
  - destruct s; reflexivity.
  - destruct s as [|a s]; [now destruct i|]. apply IH.
Qed.

Lemma drop_get n : forall s c,
  String.get n s = Some c -> Js.drop n s = String c (Js.drop (S n) s).
Proof.
  induction n as [|n IH]; intros [|a s] c H; simpl in H; try discriminate.
  - injection H as ->. now destruct s.
  - cbn [Js.drop]. rewrite (IH _ _ H). reflexivity.
Qed.

Lemma length_drop n : forall s, String.length (Js.drop n s) = String.length s - n.
Proof.
  induction n as [|n IH]; intros [|a s]; simpl; try reflexivity; try lia.
  apply IH.
Qed.

Lemma wordStart_spec line char :
  char <= String.length line ->
  wordStart line char <= char
  /\ (forall k, wordStart line char <= k < char ->
                exists c, String.get k line = Some c /\ Js.isWordChar c = true)
  /\ (wordStart line char = 0
      \/ exists c, String.get (wordStart line char - 1) line = Some c
                   /\ Js.isWordChar c = false).
Proof.
  induction char as [|before IH]; intros Hlen.
  - cbn [wordStart]. split; [lia|split; [intros k Hk; lia|now left]].
  - cbn [wordStart].
    destruct (get_some before line) as [c Hc]; [lia|]. rewrite Hc.
    cbn [isFieldChar]. destruct (Js.isWordChar c) eqn:Hword.
    + destruct IH as (Hle & Hrun & Hstop); [lia|].
      split; [lia|split; [|exact Hstop]].
      intros k Hk. destruct (Nat.eq_dec k before) as [->|Hne].
      * now exists c.
      * apply Hrun. lia.
    + split; [lia|split; [intros k Hk; lia|right]].
      exists c. cbn [Nat.sub]. rewrite Nat.sub_0_r. now split.
Qed.

Lemma wordEnd_spec rest :
  forall n,
    n <= wordEnd rest n <= n + String.length rest
    /\ (forall k, n <= k < wordEnd rest n ->
                  exists c, String.get (k - n) rest = Some c
                            /\ Js.isWordChar c = true)
    /\ (wordEnd rest n = n + String.length rest
        \/ exists c, String.get (wordEnd rest n - n) rest = Some c
                     /\ Js.isWordChar c = false).
Proof.
  induction rest as [|a rest IH]; intros n.
  - cbn [wordEnd String.length]. split; [lia|split; [intros k Hk; lia|left; lia]].
  - cbn [wordEnd isFieldChar String.length].
    destruct (Js.isWordChar a) eqn:Hword.
    + destruct (IH (S n)) as (Hle & Hrun & Hstop).
      split; [lia|split].
      * intros k Hk. destruct (Nat.eq_dec k n) as [->|Hne].
        -- exists a. rewrite Nat.sub_diag. now split.
        -- destruct (Hrun k) as (c & Hc & Hw); [lia|].
           exists c. split; [|exact Hw].
           replace (k - n) with (S (k - S n)) by lia. exact Hc.
      * destruct Hstop as [Hend|(c & Hc & Hw)]; [left; lia|right].
        exists c. split; [|exact Hw].
        replace (wordEnd rest (S n) - n) with (S (wordEnd rest (S n) - S n))
          by lia.
        exact Hc.
    + split; [lia|split; [intros k Hk; lia|right]].
      exists a. rewrite Nat.sub_diag. now split.
Qed.

Lemma allChars_run p line stop :
  forall count start,
    stop = start + count ->
    (forall k, start <= k < stop ->
               exists c, String.get k line = Some c /\ p c = true) ->
    allChars p (Js.take count (Js.drop start line)) = true.
Proof.
  induction count as [|count IH]; intros start Hstop Hrun.
  - now destruct (Js.drop start line).
  - destruct (Hrun start) as (c & Hc & Hp); [lia|].
    rewrite (drop_get _ _ _ Hc). cbn [Js.take allChars]. rewrite Hp.
    apply IH; [lia|]. intros k Hk. apply Hrun. lia.
Qed.

(** The two answers of [getFieldWordRange] at a position of a line. *)
Lemma getFieldWordRange_cases
      (document : TextDocument) (position : Position) :
  let text := lineAt document (line position) in
  character position <= String.length text ->
  match getFieldWordRange document position with
  | Some range =>
      let start := character (range_start range) in
      let stop := character (range_end range) in
      line (range_start range) = line position
      /\ line (range_end range) = line position
      /\ start <= character position <= stop
      /\ stop <= String.length text
      /\ isWord (substring start stop text)
      /\ (forall k, start <= k < stop ->
                    exists c, String.get k text = Some c
                              /\ Js.isWordChar c = true)
      /\ (forall c, 0 < start -> String.get (start - 1) text = Some c ->
                    Js.isWordChar c = false)
      /\ (forall c, String.get stop text = Some c -> Js.isWordChar c = false)
  | None =>
      (forall c, 0 < character position ->
                 String.get (character position - 1) text = Some c ->
                 Js.isWordChar c = false)
      /\ (forall c, String.get (character position) text = Some c ->
                    Js.isWordChar c = false)
  end.
Proof.
  intros text Hlen. unfold getFieldWordRange. fold text.
  set (char := character position) in *.
  destruct (wordStart_spec text char Hlen) as (Hs_le & Hs_run & Hs_stop).
  destruct (wordEnd_spec (Js.drop char text) char) as (He_le & He_run & He_stop).
  rewrite length_drop in He_le, He_stop.
  set (start := wordStart text char) in *.
  set (stop := wordEnd (Js.drop char text) char) in *.
  assert (Hrun : forall k, start <= k < stop ->
                           exists c, String.get k text = Some c
                                     /\ Js.isWordChar c = true).
  { intros k Hk. destruct (Nat.lt_ge_cases k char) as [Hlt|Hge].
    - apply Hs_run. lia.
    - destruct (He_run k) as (c & Hc & Hw); [lia|].
      rewrite get_drop in Hc. replace (char + (k - char)) with k in Hc by lia.
      now exists c. }
  assert (Hbefore : forall c, 0 < start -> String.get (start - 1) text = Some c ->
                              Js.isWordChar c = false).
  { intros c Hpos Hc. destruct Hs_stop as [E|(c' & Hc' & Hw)]; [lia|].
    congruence. }
  assert (Hbehind : forall c, String.get stop text = Some c ->
                              Js.isWordChar c = false).
  { intros c Hc. destruct He_stop as [E|(c' & Hc' & Hw)].
    - apply get_length in Hc. lia.
    - rewrite get_drop in Hc'.
      replace (char + (stop - char)) with stop in Hc' by lia. congruence. }
  destruct (Nat.eqb_spec start stop) as [E|Hne].
  - assert (Es : start = char) by lia. assert (Ee : stop = char) by lia.
    rewrite Es in Hbefore. rewrite Ee in Hbehind. split; assumption.
  - cbn [range_start range_end line character].
    repeat split; try reflexivity; try lia; try assumption.
    + unfold substring.
      destruct (Hrun start) as (c & Hc & _); [lia|].
      rewrite (drop_get _ _ _ Hc).
      replace (stop - start) with (S (stop - S start)) by lia. reflexivity.
    + unfold substring. apply (allChars_run _ _ stop); [lia|exact Hrun].
Qed.

(** X11. [getFieldWordRange] at a position of a line answers the longest
    run of identifier characters of that line that holds or touches the
    cursor: the range lies on the line of the position, the cursor is
    inside it or at one of its ends, its text is a non-empty run of
    identifier characters, and the characters just before and just behind
    it are none.  It answers [undefined] exactly when neither the character
    before the cursor nor the one behind it is an identifier character. *)
Theorem getFieldWordRange_is_identifier_at_cursor
        (document : TextDocument) (position : Position) :
  let text := lineAt document (line position) in
  character position <= String.length text ->
  match getFieldWordRange document position with
  | Some range =>
      let start := character (range_start range) in
      let stop := character (range_end range) in
      line (range_start range) = line position
      /\ line (range_end range) = line position
      /\ start <= character position <= stop
      /\ stop <= String.length text
      /\ isWord (substring start stop text)
      /\ (forall k, start <= k < stop ->
                    exists c, String.get k text = Some c
                              /\ Js.isWordChar c = true)
      /\ (forall c, 0 < start -> String.get (start - 1) text = Some c ->
                    Js.isWordChar c = false)
      /\ (forall c, String.get stop text = Some c -> Js.isWordChar c = false)
  | None =>
      (forall c, 0 < character position ->
                 String.get (character position - 1) text = Some c ->
                 Js.isWordChar c = false)
      /\ (forall c, String.get (character position) text = Some c ->
                    Js.isWordChar c = false)
  end.
Proof. exact (getFieldWordRange_cases document position). Qed.

Lemma getFieldWordRange_is_identifier_at_cursor_witness :
  getFieldWordRange endpointsDoc (mkPosition 0 37)
  = Some (mkRange (mkPosition 0 35) (mkPosition 0 41))
  /\ isWord (substring 35 41 (lineAt endpointsDoc 0)).
Proof.
  split; [reflexivity|].
  assert (Hlen : character (mkPosition 0 37)
                 <= String.length (lineAt endpointsDoc (line (mkPosition 0 37))))
    by (vm_compute; lia).
  pose proof (getFieldWordRange_is_identifier_at_cursor
                endpointsDoc (mkPosition 0 37) Hlen) as H.
  change (getFieldWordRange endpointsDoc (mkPosition 0 37))
    with (Some (mkRange (mkPosition 0 35) (mkPosition 0 41))) in H.
  cbv zeta in H. destruct H as (_ & _ & _ & _ & Hword & _). exact Hword.
Defined.

Lemma allChars_append p a b :
  allChars p (a ++ b) = allChars p a && allChars p b.
Proof.
  induction a as [|c a IH]; [reflexivity|].
  simpl. rewrite IH. apply andb_assoc.
Qed.

Lemma allChars_impl (p q : ascii -> bool) s :
  (forall c, p c = true -> q c = true) ->
  allChars p s = true -> allChars q s = true.
Proof.
  intros Hpq. induction s as [|c s IH]; [reflexivity|].
  simpl. intros H. apply andb_true_iff in H. destruct H as [Hc H].
  rewrite (Hpq _ Hc). now apply IH.
Qed.

Lemma word_braceFree c : Js.isWordChar c = true -> braceFree c = true.
Proof. destruct c as [[] [] [] [] [] [] [] []]; vm_compute; congruence. Qed.

Lemma word_notSpace c : Js.isWordChar c = true -> notSpace c = true.
Proof. destruct c as [[] [] [] [] [] [] [] []]; vm_compute; congruence. Qed.

Lemma word_plain c : Js.isWordChar c = true -> plainChar c = true.
Proof. destruct c as [[] [] [] [] [] [] [] []]; vm_compute; congruence. Qed.

Lemma plain_braceFree c : plainChar c = true -> braceFree c = true.
Proof.
  unfold plainChar, braceFree.
  destruct (Ascii.eqb c "$"), (Ascii.eqb c "{"), (Ascii.eqb c "}");
    simpl; congruence.
Qed.

Lemma plain_not_dollar c : plainChar c = true -> Ascii.eqb c "$" = false.
Proof. unfold plainChar. destruct (Ascii.eqb c "$"); simpl; congruence. Qed.

Lemma brace_first body p a :
  allChars braceFree body = true -> braceFree a = false ->
  Js.startsWith (String a p) body = false.
Proof.
  destruct body as [|c body]; [reflexivity|].
  cbn [allChars]. intros H Ha. apply andb_true_iff in H. destruct H as [Hc _].
  rewrite startsWith_cons. destruct (Ascii.eqb a c) eqn:E; [|reflexivity].
  apply Ascii.eqb_eq in E. subst c. congruence.
Qed.

Lemma lastIndexOf_free body p a :
  allChars braceFree body = true -> braceFree a = false ->
  Js.lastIndexOf_opt (String a p) body = None.
Proof.
  intros H Ha. induction body as [|c body IH]; [reflexivity|].
  pose proof (brace_first _ p a H Ha) as Hfirst.
  cbn [allChars] in H. apply andb_true_iff in H. destruct H as [_ H].
  cbn [Js.lastIndexOf_opt]. rewrite (IH H). now rewrite Hfirst.
Qed.

Lemma lastIndexOf_open_free start body :
  allChars braceFree body = true ->
  Js.lastIndexOf_opt "{{" (start ++ "{{" ++ body) = Some (String.length start).
Proof.
  intros H. induction start as [|c start IH].
  - cbn [append String.length].
    change ("{{" ++ body)%string with (String "{" (String "{" body)).
    cbn [Js.lastIndexOf_opt].
    rewrite (lastIndexOf_free body "{" "{" H eq_refl).
    rewrite !startsWith_cons.
    rewrite (brace_first body "" "{" H eq_refl).
    rewrite Ascii.eqb_refl. cbn [andb Js.startsWith]. reflexivity.
  - change (String c start ++ "{{" ++ body)%string
      with (String c (start ++ "{{" ++ body))%string.
    cbn [String.length Js.lastIndexOf_opt]. now rewrite IH.
Qed.

Lemma lastIndexOf_close_before start body :
  allChars braceFree body = true ->
  match Js.lastIndexOf_opt "}}" (start ++ "{{" ++ body) with
  | Some n => n < String.length start
  | None => True
  end.
Proof.
  intros H. induction start as [|c start IH].
  - cbn [append].
    change ("{{" ++ body)%string with (String "{" (String "{" body)).
    cbn [Js.lastIndexOf_opt].
    rewrite (lastIndexOf_free body "}" "}" H eq_refl).
    rewrite !startsWith_cons. simpl (Ascii.eqb "}" "{"). cbn [andb]. exact I.
  - change (String c start ++ "{{" ++ body)%string
      with (String c (start ++ "{{" ++ body))%string.
    cbn [String.length Js.lastIndexOf_opt].
    destruct (Js.lastIndexOf_opt "}}" (start ++ "{{" ++ body)) as [n|].
    + lia.
    + destruct (Js.startsWith _ _); [lia|exact I].
Qed.

Lemma trimStart_append a c b :
  Js.isSpace c = false ->
  Js.trimStart (a ++ String c b) = (Js.trimStart a ++ String c b)%string.
Proof.
  intros Hc. unfold Js.trimStart. induction a as [|x a IH].
  - simpl. now rewrite Hc.
  - cbn [append Js.span]. destruct (Js.isSpace x); [|reflexivity].
    destruct (Js.span Js.isSpace (a ++ String c b)) as [u w].
    destruct (Js.span Js.isSpace a) as [u' w']. exact IH.
Qed.

Lemma trimEnd_solid y :
  allChars notSpace y = true -> Js.trimEnd y = y.
Proof.
  induction y as [|c y IH]; [reflexivity|].
  cbn [allChars]. intros H. apply andb_true_iff in H. destruct H as [Hc H].
  rewrite trimEnd_cons, (IH H).
  destruct y; [|reflexivity].
  unfold notSpace in Hc. destruct (Js.isSpace c); [discriminate|reflexivity].
Qed.

Lemma trimEnd_append_solid x c y :
  allChars notSpace (String c y) = true ->
  Js.trimEnd (x ++ String c y) = (x ++ String c y)%string.
Proof.
  intros H. induction x as [|a x IH].
  - now apply trimEnd_solid.
  - cbn [append]. rewrite trimEnd_cons, IH.
    destruct x; reflexivity.
Qed.

Lemma allChars_trimStart p s :
  allChars p s = true -> allChars p (Js.trimStart s) = true.
Proof.
  unfold Js.trimStart. induction s as [|c s IH]; [reflexivity|].
  intros H. cbn [Js.span]. destruct (Js.isSpace c); [|exact H].
  cbn [allChars] in H. apply andb_true_iff in H. destruct H as [_ H].
  destruct (Js.span Js.isSpace s). now apply IH.
Qed.

Lemma varMatch_skip a s :
  allChars plainChar a = true -> varMatch (a ++ s) = varMatch s.
Proof.
  induction a as [|c a IH]; [reflexivity|].
  cbn [allChars]. intros H. apply andb_true_iff in H. destruct H as [Hc H].
  cbn [append varMatch]. rewrite (plain_not_dollar _ Hc). now apply IH.
Qed.

Lemma span_word v rest :
  allChars Js.isWordChar v = true -> endsWord rest ->
  Js.span Js.isWordChar (v ++ rest) = (v, rest).
Proof.
  intros Hv Hrest. induction v as [|c v IH].
  - destruct rest as [|c rest]; [reflexivity|].
    simpl in *. now rewrite Hrest.
  - cbn [allChars] in Hv. apply andb_true_iff in Hv. destruct Hv as [Hc Hv].
    cbn [append Js.span]. rewrite Hc, (IH Hv). reflexivity.
Qed.

Lemma dottedTail_flag rest :
  endsWord rest -> dottedTail true rest = dottedTail false rest.
Proof.
  destruct rest as [|c rest]; [reflexivity|].
  simpl. intros ->. reflexivity.
Qed.

Lemma dottedTail_word w rest :
  allChars Js.isWordChar w = true ->
  dottedTail true (w ++ rest) = (w ++ dottedTail true rest)%string.
Proof.
  induction w as [|c w IH]; [reflexivity|].
  cbn [allChars]. intros H. apply andb_true_iff in H. destruct H as [Hc H].
  cbn [append dottedTail]. rewrite Hc. now rewrite (IH H).
Qed.

Lemma endsWord_dotted fields tail :
  tail = "" \/ tail = "." -> endsWord (dotted fields ++ tail).
Proof.
  destruct fields as [|f fs]; [|reflexivity].
  intros [-> | ->]; reflexivity.
Qed.

Lemma dottedTail_dotted fields tail :
  Forall isWord fields -> tail = "" \/ tail = "." ->
  dottedTail false (dotted fields ++ tail) = dotted fields.
Proof.
  intros Hfields Htail. induction Hfields as [|f fs [Hne Hf] Hfs IH].
  - destruct Htail as [-> | ->]; reflexivity.
  - cbn [dotted]. destruct f as [|c f]; [discriminate|].
    cbn [allChars] in Hf. apply andb_true_iff in Hf. destruct Hf as [Hc Hf].
    change (("." ++ String c f ++ dotted fs) ++ tail)%string
      with (String "." (String c (f ++ dotted fs) ++ tail))%string.
    change (String c (f ++ dotted fs) ++ tail)%string
      with (String c ((f ++ dotted fs) ++ tail))%string.
    cbn [dottedTail]. simpl (Js.isWordChar "."). simpl (Ascii.eqb "." ".").
    cbv iota. rewrite Hc. rewrite append_assoc.
    rewrite (dottedTail_word _ _ Hf).
    rewrite (dottedTail_flag _ (endsWord_dotted fs tail Htail)), IH.
    reflexivity.
Qed.

Lemma split_dot_cons c s :
  Js.split "." (String c s)
  = if Ascii.eqb c "." then EmptyString :: Js.split "." s
    else match Js.split "." s with
         | x :: xs => String c x :: xs
         | [] => [String c EmptyString]
         end.
Proof. reflexivity. Qed.

Lemma word_not_dot c : Js.isWordChar c = true -> Ascii.eqb c "." = false.
Proof. destruct c as [[] [] [] [] [] [] [] []]; vm_compute; congruence. Qed.

Lemma split_word f :
  allChars Js.isWordChar f = true -> Js.split "." f = [f].
Proof.
  induction f as [|c f IH]; [reflexivity|].
  cbn [allChars]. intros H. apply andb_true_iff in H. destruct H as [Hc H].
  rewrite split_dot_cons, (word_not_dot _ Hc), (IH H). reflexivity.
Qed.

Lemma split_word_dot f rest :
  allChars Js.isWordChar f = true ->
  Js.split "." (f ++ String "." rest) = f :: Js.split "." rest.
Proof.
  induction f as [|c f IH].
  - intros _. cbn [append]. rewrite split_dot_cons. reflexivity.
  - cbn [allChars]. intros H. apply andb_true_iff in H. destruct H as [Hc H].
    cbn [append]. rewrite split_dot_cons, (word_not_dot _ Hc), (IH H).
    reflexivity.
Qed.

Lemma split_dotted f fs :
  Forall isWord (f :: fs) ->
  Js.split "." (f ++ dotted fs) = f :: fs.
Proof.
  revert f. induction fs as [|g fs IH]; intros f Hall.
  - inversion Hall as [|? ? [_ Hf] _]; subst. cbn [dotted].
    rewrite append_nil_r. now apply split_word.
  - inversion Hall as [|? ? [_ Hf] Hrest]; subst.
    cbn [dotted].
    change ("." ++ g ++ dotted fs)%string with (String "." (g ++ dotted fs)).
    rewrite (split_word_dot _ _ Hf), (IH g Hrest). reflexivity.
Qed.

Lemma filter_words fields :
  Forall isWord fields ->
  filter (fun f => negb (Js.isEmpty f)) fields = fields.
Proof.
  induction 1 as [|f fs [Hne _] _ IH]; [reflexivity|].
  simpl. rewrite Hne. simpl. now rewrite IH.
Qed.

(** The text of a reference is free of braces and of white space. *)
Lemma reference_chars (p : ascii -> bool) v fields tail :
  (forall c, Js.isWordChar c = true -> p c = true) ->
  p "$"%char = true -> p "."%char = true ->
  isWord v -> Forall isWord fields -> tail = "" \/ tail = "." ->
  allChars p ("$" ++ v ++ dotted fields ++ tail) = true.
Proof.
  intros Hword Hdollar Hdot [_ Hv] Hfields Htail.
  cbn [append allChars]. rewrite Hdollar. cbn [andb].
  rewrite allChars_append, (allChars_impl _ _ _ Hword Hv). cbn [andb].
  rewrite allChars_append.
  assert (Ht : allChars p tail = true).
  { destruct Htail as [-> | ->]; [reflexivity|].
    cbn [allChars]. now rewrite Hdot. }
  rewrite Ht, andb_true_r.
  induction Hfields as [|f fs [_ Hf] _ IH]; [reflexivity|].
  cbn [dotted append allChars]. rewrite Hdot. cbn [andb].
  rewrite allChars_append, (allChars_impl _ _ _ Hword Hf). exact IH.
Qed.

(** What the analyzer reads with the cursor behind a reference. *)
Lemma reference_before_cursor
        (document : TextDocument) (position : Position)
        (start mid v : string) (fields : list string) (tail : string) :
  Js.take (character position) (lineAt document (line position))
  = (start ++ "{{" ++ mid ++ "$" ++ v ++ dotted fields ++ tail)%string ->
  allChars plainChar mid = true ->
  isWord v -> Forall isWord fields -> tail = "" \/ tail = "." ->
  analyzeContext document position
  = mkContext
      (match inferContextFromSurrounding document position with
       | Unknown => variableNameHint v
       | bound => bound
       end)
      (Some v) (Some fields)
  /\ getExpressionAtPosition document position
     = Some (Js.trimStart mid ++ "$" ++ v ++ dotted fields ++ tail)%string
  /\ isInsideTemplateDelimiters document position
     = Js.includes "}}" (Js.drop (character position)
                                 (lineAt document (line position))).
Proof.
  intros Htext Hmid Hv Hfields Htail.
  set (reference := ("$" ++ v ++ dotted fields ++ tail)%string) in *.
  set (body := (mid ++ reference)%string).
  assert (Hfree : allChars braceFree body = true).
  { unfold body. rewrite allChars_append.
    rewrite (allChars_impl _ _ _ plain_braceFree Hmid). cbn [andb].
    apply reference_chars; auto using word_braceFree. }
  assert (Hsolid : allChars notSpace reference = true)
    by (apply reference_chars; auto using word_notSpace).
  pose proof (lastIndexOf_open_free start body Hfree) as Hopen.
  pose proof (lastIndexOf_close_before start body Hfree) as Hclose.
  assert (Hguard :
            ((Js.lastIndexOf "{{" (start ++ "{{" ++ body) =? -1)%Z
             || (Js.lastIndexOf "}}" (start ++ "{{" ++ body)
                 >? Js.lastIndexOf "{{" (start ++ "{{" ++ body))%Z) = false).
  { unfold Js.lastIndexOf. rewrite Hopen. cbn [Js.toIndex].
    apply orb_false_iff. split; [apply Z.eqb_neq; lia|].
    destruct (Js.lastIndexOf_opt "}}" (start ++ "{{" ++ body)) as [n|];
      cbn [Js.toIndex]; rewrite Z.gtb_ltb; apply Z.ltb_ge; lia. }
  assert (Hexpression :
            Js.trim (Js.drop (Z.to_nat (Js.lastIndexOf "{{" (start ++ "{{" ++ body) + 2))
                             (start ++ "{{" ++ body))
            = (Js.trimStart mid ++ reference)%string).
  { unfold Js.lastIndexOf. rewrite Hopen. cbn [Js.toIndex].
    replace (Z.to_nat (Z.of_nat (String.length start) + 2))
      with (String.length (start ++ "{{")) by (rewrite length_append; simpl; lia).
    rewrite <- append_assoc, drop_append.
    unfold Js.trim, body, reference.
    change ("$" ++ v ++ dotted fields ++ tail)%string
      with (String "$" (v ++ dotted fields ++ tail)).
    rewrite trimStart_append by reflexivity.
    apply trimEnd_append_solid. exact Hsolid. }
  assert (Hvar : varMatch (Js.trimStart mid ++ reference)
                 = Some (v, dotted fields)).
  { rewrite varMatch_skip by (now apply allChars_trimStart).
    unfold reference.
    change ("$" ++ v ++ dotted fields ++ tail)%string
      with (String "$" (v ++ dotted fields ++ tail)).
    cbn [varMatch]. simpl (Ascii.eqb "$" "$"). cbv iota.
    destruct Hv as [Hne Hword].
    rewrite (span_word _ _ Hword (endsWord_dotted fields tail Htail)).
    rewrite Hne. now rewrite dottedTail_dotted. }
  assert (Hpath :
            (if Js.isEmpty (dotted fields) then []
             else filter (fun f => negb (Js.isEmpty f))
                         (Js.split "." (Js.drop 1 (dotted fields))))
            = fields).
  { destruct fields as [|f fs]; [reflexivity|].
    cbn [dotted append Js.isEmpty Js.drop].
    rewrite (split_dotted _ _ Hfields). now apply filter_words. }
  split; [|split].
  - unfold analyzeContext. rewrite Htext. fold reference. fold body.
    rewrite Hguard, Hexpression, Hvar. cbv zeta. rewrite Hpath.
    destruct (inferContextFromSurrounding document position); reflexivity.
  - unfold getExpressionAtPosition. rewrite Htext. fold reference. fold body.
    apply orb_false_iff in Hguard. destruct Hguard as [Hminus _].
    rewrite Hminus. now rewrite Hexpression.
  - unfold isInsideTemplateDelimiters. rewrite Htext. fold reference. fold body.
    unfold Js.lastIndexOf. rewrite Hopen. cbn [Js.toIndex].
    assert (H1 : negb (Z.of_nat (String.length start) =? -1)%Z = true)
      by (apply negb_true_iff, Z.eqb_neq; lia).
    rewrite H1. cbn [andb].
    assert (H2 : ((Js.toIndex (Js.lastIndexOf_opt "}}" (start ++ "{{" ++ body))
                   =? -1)%Z
                  || (Js.toIndex (Js.lastIndexOf_opt "}}" (start ++ "{{" ++ body))
                      <? Z.of_nat (String.length start))%Z) = true).
    { destruct (Js.lastIndexOf_opt "}}" (start ++ "{{" ++ body)) as [n|];
        cbn [Js.toIndex]; [|reflexivity].
      apply orb_true_iff. right. apply Z.ltb_lt. lia. }
    rewrite H2. cbn [andb]. unfold Js.indexOf, Js.includes.
    destruct (Js.indexOf_opt "}}" _) as [n|]; cbn [Js.toIndex]; [|reflexivity].
    apply negb_true_iff, Z.eqb_neq. lia.
Qed.

(** X12. With the cursor behind a reference [$v.f1...fn] (or behind the
    dot that follows it) in an action that is still open before the
    cursor, nothing but plain text standing between the opening braces and
    the variable: [analyzeContext] answers the variable and the field path
    as written, with the type of the nearest iteration binding or else of
    the variable-name hint; [getExpressionAtPosition] answers the text
    from the opening braces to the cursor without its leading white space;
    and [isInsideTemplateDelimiters] tells whether closing braces follow
    the cursor on the line. *)
Theorem analyzer_reads_reference_before_cursor
        (document : TextDocument) (position : Position)
        (start mid v : string) (fields : list string) (tail : string) :
  Js.take (character position) (lineAt document (line position))
  = (start ++ "{{" ++ mid ++ "$" ++ v ++ dotted fields ++ tail)%string ->
  allChars plainChar mid = true ->
  isWord v -> Forall isWord fields -> tail = "" \/ tail = "." ->
  analyzeContext document position
  = mkContext
      (match inferContextFromSurrounding document position with
       | Unknown => variableNameHint v
       | bound => bound
       end)
      (Some v) (Some fields)
  /\ getExpressionAtPosition document position
     = Some (Js.trimStart mid ++ "$" ++ v ++ dotted fields ++ tail)%string
  /\ isInsideTemplateDelimiters document position
     = Js.includes "}}" (Js.drop (character position)
                                 (lineAt document (line position))).
Proof. exact (reference_before_cursor document position start mid v fields tail). Qed.

Lemma analyzer_reads_reference_before_cursor_witness :
  analyzeContext endpointsDoc (mkPosition 0 39)
  = mkContext Endpoint (Some "e") (Some ["meth"])
  /\ getExpressionAtPosition endpointsDoc (mkPosition 0 39) = Some "$e.meth"
  /\ isInsideTemplateDelimiters endpointsDoc (mkPosition 0 39) = true.
Proof.
  apply (analyzer_reads_reference_before_cursor
           endpointsDoc (mkPosition 0 39)
           "{{ range $e := .endpoints }} " " " "e" ["meth"] "").
  - reflexivity.
  - reflexivity.
  - split; reflexivity.
  - constructor; [split; reflexivity|constructor].
  - left. reflexivity.
Defined.

Lemma span_stops p s a b : Js.span p s = (a, b) ->
  match b with
  | EmptyString => True
  | String c _ => p c = false
  end.
Proof.
  revert a b. induction s as [|c s IH]; intros a b; simpl.
  - intros H; injection H as <- <-. exact I.
  - destruct (p c) eqn:E.
    + destruct (Js.span p s) as [a' b'] eqn:Es.
      intros H; injection H as <- <-. now apply (IH a').
    + intros H; injection H as <- <-. exact E.
Qed.

Lemma stripPrefix_char a x :
  Js.stripPrefix (String a EmptyString) (String a x) = Some x.
Proof.
  unfold Js.stripPrefix. rewrite startsWith_cons, Ascii.eqb_refl.
  cbn [andb Js.startsWith String.length Js.drop]. now destruct x.
Qed.

Lemma stripPrefix_other a c x :
  Ascii.eqb a c = false ->
  Js.stripPrefix (String a EmptyString) (String c x) = None.
Proof.
  intros E. unfold Js.stripPrefix. now rewrite startsWith_cons, E.
Qed.

Lemma referenceAt_inv s r :
  referenceAt s = Some r ->
  exists rest,
    s = ("$" ++ variable r ++ "." ++ field r ++ rest)%string
    /\ isWord (variable r) /\ isWord (field r) /\ endsWord rest.
Proof.
  unfold referenceAt.
  destruct (Js.stripPrefix "$" s) as [s1|] eqn:E1; [|discriminate].
  destruct (Js.span Js.isWordChar s1) as [v s2] eqn:E2.
  destruct (Js.isEmpty v) eqn:Hv; [discriminate|].
  destruct (Js.stripPrefix "." s2) as [s3|] eqn:E3; [|discriminate].
  destruct (Js.span Js.isWordChar s3) as [f s4] eqn:E4.
  destruct (Js.isEmpty f) eqn:Hf; [discriminate|].
  intros H; injection H as <-. cbn [variable field].
  apply stripPrefix_inv in E1, E3.
  destruct (span_inv _ _ _ _ E2) as [Es1 Hvw].
  destruct (span_inv _ _ _ _ E4) as [Es3 Hfw].
  exists s4. split; [|split; [now split|split; [now split|]]].
  - subst. reflexivity.
  - exact (span_stops _ _ _ _ E4).
Qed.

Lemma referenceAt_here v f rest :
  isWord v -> isWord f -> endsWord rest ->
  referenceAt ("$" ++ v ++ "." ++ f ++ rest) = Some (mkReference v f).
Proof.
  intros [Hv Hvw] [Hf Hfw] Hrest. unfold referenceAt.
  change ("$" ++ v ++ "." ++ f ++ rest)%string
    with (String "$" (v ++ String "." (f ++ rest))).
  rewrite stripPrefix_char.
  rewrite (span_word v (String "." (f ++ rest)) Hvw eq_refl), Hv.
  rewrite stripPrefix_char, (span_word f rest Hfw Hrest), Hf. reflexivity.
Qed.

Lemma parseFieldReference_skip pre s :
  allChars notDollar pre = true ->
  parseFieldReference (pre ++ s) = parseFieldReference s.
Proof.
  induction pre as [|c pre IH]; [reflexivity|].
  cbn [allChars]. intros H. apply andb_true_iff in H. destruct H as [Hc H].
  cbn [append parseFieldReference]. unfold referenceAt at 1.
  assert (E : Ascii.eqb "$" c = false).
  { unfold notDollar in Hc. rewrite Ascii.eqb_sym.
    now destruct (Ascii.eqb c "$"). }
  rewrite (stripPrefix_other _ _ _ E). now apply IH.
Qed.

Lemma fieldRefAt_words s match0 v f len :
  fieldRefAt s = Some ((match0, v, f), len) -> isWord v /\ isWord f.
Proof.
  unfold fieldRefAt.
  destruct (Js.stripPrefix "{{" s) as [s1|]; [|discriminate].
  destruct (Js.stripPrefix "$" _) as [s3|]; [|discriminate].
  destruct (Js.span Js.isWordChar s3) as [v' s4] eqn:E4.
  destruct (Js.isEmpty v') eqn:Hv; [discriminate|].
  destruct (Js.stripPrefix "." s4) as [s5|]; [|discriminate].
  destruct (Js.span Js.isWordChar s5) as [f' s6] eqn:E6.
  destruct (Js.isEmpty f') eqn:Hf; [discriminate|].
  intros H; injection H as _ <- <- _.
  destruct (span_inv _ _ _ _ E4) as [_ Hvw].
  destruct (span_inv _ _ _ _ E6) as [_ Hfw].
  split; now split.
Qed.

Lemma space_notDollar c : Js.isSpace c = true -> notDollar c = true.
Proof. destruct c as [[] [] [] [] [] [] [] []]; vm_compute; congruence. Qed.

(** X13. [parseFieldReference] answers the first reference
    [$variable.field] of a text: what it answers stands in the text, both
    names being whole runs of identifier characters; a reference before
    which no dollar sign stands is the one it answers; and for the text
    that the field pattern of the diagnostics provider matched it answers
    the variable and the field that the pattern captured. *)
Theorem parseFieldReference_finds_first_reference :
  (forall text reference,
     parseFieldReference text = Some reference ->
     exists pre rest,
       text = (pre ++ "$" ++ variable reference ++ "."
                   ++ field reference ++ rest)%string
       /\ isWord (variable reference) /\ isWord (field reference))
  /\ (forall pre v f rest,
        allChars notDollar pre = true -> isWord v -> isWord f ->
        endsWord rest ->
        parseFieldReference (pre ++ "$" ++ v ++ "." ++ f ++ rest)
        = Some (mkReference v f))
  /\ (forall text index match0 v f,
        In (index, (match0, v, f)) (fieldReferences text) ->
        parseFieldReference match0 = Some (mkReference v f)).
Proof.
  assert (Hfound : forall pre v f rest,
             allChars notDollar pre = true -> isWord v -> isWord f ->
             endsWord rest ->
             parseFieldReference (pre ++ "$" ++ v ++ "." ++ f ++ rest)
             = Some (mkReference v f)).
  { intros pre v f rest Hpre Hv Hf Hrest.
    rewrite (parseFieldReference_skip _ _ Hpre).
    assert (E : referenceAt ("$" ++ v ++ "." ++ f ++ rest)
                = Some (mkReference v f)) by now apply referenceAt_here.
    change ("$" ++ v ++ "." ++ f ++ rest)%string
      with (String "$" (v ++ "." ++ f ++ rest)) in *.
    cbn [parseFieldReference]. now rewrite E. }
  split; [|split; [exact Hfound|]].
  - induction text as [|c text IH]; intros reference.
    + cbn [parseFieldReference]. unfold referenceAt. simpl. discriminate.
    + cbn [parseFieldReference].
      destruct (referenceAt (String c text)) as [r|] eqn:E.
      * intros H; injection H as <-.
        destruct (referenceAt_inv _ _ E) as (rest & Htext & Hv & Hf & _).
        exists EmptyString, rest. now split.
      * intros H. destruct (IH _ H) as (pre & rest & Htext & Hv & Hf).
        exists (String c pre), rest. split; [|now split].
        cbn [append]. now rewrite Htext.
  - intros text index match0 v f Hin.
    destruct (scanFrom_In _ _ _ _ _ _ Hin) as (n & len & _ & Hmatch).
    destruct (fieldRefAt_words _ _ _ _ _ Hmatch) as [Hv Hf].
    destruct (ReferenceResolution.fieldRefAt_inv _ _ _ _ _ Hmatch)
      as (spaces & rest & Hspaces & -> & _).
    replace ("{{" ++ spaces ++ "$" ++ v ++ "." ++ f)%string
      with (("{{" ++ spaces) ++ "$" ++ v ++ "." ++ f ++ "")%string.
    + apply Hfound; try assumption; [|exact I].
      cbn [append allChars]. simpl (notDollar "{"). cbn [andb].
      exact (allChars_impl _ _ _ space_notDollar Hspaces).
    + rewrite append_nil_r. cbn [append]. reflexivity.
Qed.

Lemma parseFieldReference_finds_first_reference_witness :
  parseFieldReference "{{ if $x }}{{ $endpoint.method }}"
  = Some (mkReference "endpoint" "method")
  /\ parseFieldReference "{{ $e.methdo" = Some (mkReference "e" "methdo").
Proof.
  destruct parseFieldReference_finds_first_reference as (Hsound & _ & Hsame).
  split.
  - destruct (Hsound "{{ if $x }}{{ $endpoint.method }}"
                     (mkReference "endpoint" "method") eq_refl)
      as (pre & rest & _ & _ & _).
    reflexivity.
  - apply (Hsame (getText misspelledDoc) 29).
    vm_compute. left. reflexivity.
Defined.

End AnalyzerExtras.

(* ================================================================== *)
(** ** The hover provider *)
(* ================================================================== *)

Module HoverExtras.
Import Vscode ContextAnalyzer SchemaParser DiagnosticsProvider CompletionProvider.
Import HoverProvider Spec Samples JsFacts StoreFacts.

(** The first line of a text, and the text behind its line end. *)
Lemma split_first text :
  exists first,
    (Js.split LF text = [first] /\ text = first)
    \/ (exists others,
          Js.split LF text = first :: Js.split LF others
          /\ text = (first ++ String LF others)%string).
Proof.
  induction text as [|c text (first & IH)].
  - exists EmptyString. left. split; reflexivity.
  - rewrite split_cons. destruct (Ascii.eqb c LF) eqn:E.
    + apply Ascii.eqb_eq in E. subst c.
      exists EmptyString. right. exists text. split; reflexivity.
    + exists (String c first). destruct IH as [[-> ->]|(others & -> & ->)].
      * left. split; reflexivity.
      * right. exists others. split; reflexivity.
Qed.

Lemma drop_add a : forall b s, Js.drop (a + b) s = Js.drop b (Js.drop a s).
Proof.
  induction a as [|a IH]; intros b s; [reflexivity|].
  destruct s as [|c s]; [now destruct b|]. apply IH.
Qed.

Lemma drop_within n : forall a b,
  n <= String.length a -> Js.drop n (a ++ b) = (Js.drop n a ++ b)%string.
Proof.
  induction n as [|n IH]; intros a b H; [reflexivity|].
  destruct a as [|c a]; [simpl in H; lia|].
  cbn [append Js.drop]. apply IH. simpl in H. lia.
Qed.

Lemma take_within n : forall a b,
  n <= String.length a -> Js.take n (a ++ b) = Js.take n a.
Proof.
  induction n as [|n IH]; intros a b H.
  - now destruct a, b.
  - destruct a as [|c a]; [simpl in H; lia|].
    cbn [append Js.take]. f_equal. apply IH. simpl in H. lia.
Qed.

(** The text of a document from the start of one of its lines on. *)
Lemma text_from_line n :
  forall text,
    n < List.length (Js.split LF text) ->
    exists rest,
      Js.drop (lineStart (Js.split LF text) n) text
      = (nth n (Js.split LF text) "" ++ rest)%string.
Proof.
  induction n as [|n IH]; intros text Hn.
  - destruct (split_first text) as (first & [[E Htext]|(others & E & Htext)]);
      rewrite E; cbn [lineStart nth Js.drop].
    + exists EmptyString. rewrite append_nil_r.
      rewrite Htext at 1. now destruct first.
    + exists (String LF others). rewrite Htext at 1.
      now destruct (first ++ String LF others)%string.
  - destruct (split_first text) as (first & [[E Htext]|(others & E & Htext)]);
      rewrite E in Hn |- *.
    + simpl in Hn. lia.
    + cbn [List.length] in Hn.
      destruct (IH others) as [rest Hrest]; [lia|].
      exists rest. cbn [lineStart nth].
      rewrite Htext at 1.
      replace (S (String.length first) + lineStart (Js.split LF others) n)
        with (String.length (first ++ String LF "")
              + lineStart (Js.split LF others) n)
        by (rewrite length_append; simpl; lia).
      rewrite drop_add.
      replace (first ++ String LF others)%string
        with ((first ++ String LF "") ++ others)%string
        by (rewrite append_assoc; reflexivity).
      rewrite drop_append. exact Hrest.
Qed.

(** The text of a range inside one line is that part of the line. *)
Lemma getTextIn_line document n start stop :
  n < List.length (lines document) ->
  start <= stop -> stop <= String.length (lineAt document n) ->
  getTextIn document (mkRange (mkPosition n start) (mkPosition n stop))
  = substring start stop (lineAt document n).
Proof.
  intros Hn Hle Hlen. unfold getTextIn, offsetAt, substring.
  cbn [range_start range_end line character].
  rewrite !Nat.min_l by lia.
  replace (lineStart (lines document) n + stop
           - (lineStart (lines document) n + start))
    with (stop - start) by lia.
  rewrite drop_add. unfold lineAt, lines in *.
  destruct (text_from_line n (getText document) Hn) as [rest ->].
  rewrite drop_within by lia.
  apply take_within. rewrite AnalyzerExtras.length_drop. lia.
Qed.

Lemma startsWith_append a b : Js.startsWith a (a ++ b) = true.
Proof.
  induction a as [|c a IH]; [reflexivity|].
  cbn [append]. rewrite startsWith_cons, Ascii.eqb_refl. exact IH.
Qed.

Lemma markdownOf_title fieldInfo contextType :
  Js.startsWith ("### " ++ name fieldInfo ++ newline)
                (markdownOf fieldInfo contextType) = true.
Proof.
  unfold markdownOf.
  replace ("### " ++ name fieldInfo ++ newline)%string
    with (("### " ++ name fieldInfo) ++ newline)%string
    by (now rewrite append_assoc).
  match goal with
  | |- Js.startsWith _ ("### " ++ name fieldInfo ++ newline ++ ?rest) = true =>
      replace ("### " ++ name fieldInfo ++ newline ++ rest)%string
        with ((("### " ++ name fieldInfo) ++ newline) ++ rest)%string
        by (now rewrite !append_assoc)
  end.
  apply startsWith_append.
Qed.

(** A field that a well keyed store answers bears the name asked for. *)
Lemma getFieldInfo_name this context fieldName fieldInfo :
  wellKeyed this ->
  getFieldInfo this context fieldName = Some fieldInfo ->
  name fieldInfo = fieldName.
Proof.
  intros W. unfold getFieldInfo.
  pose proof (StoreClaims.wellKeyed_table this context W) as Hkeyed.
  destruct (map_get fieldName (tableOf this context)) as [f|] eqn:G.
  - intros H; injection H as <-. apply (Hkeyed fieldName f).
    now apply map_get_In.
  - intros H. destruct (findPrefixed_inv _ _ _ _ H) as (o & f & _ & _ & ->).
    reflexivity.
Qed.

Section HostHover.

Variable readFileSync : string -> option string.
Variable JSON_parse : string -> option KrakenDSchema.
Variable decodeURIComponent : string -> option string.

(** X14. [provideHover] at a position of a document, for a store that the
    constructor built: a hover is answered exactly when an identifier
    holds or touches the cursor, the context of the position is endpoint
    or backend, and the identifier is a valid field of that context.  The
    hover then covers the identifier, and its text is the description of
    the field that the store answers for the identifier, headed by the
    identifier itself. *)
Theorem hover_describes_field_at_cursor
        (schemaPath : string) (document : TextDocument) (position : Position) :
  let this :=
    newSchemaParser readFileSync JSON_parse decodeURIComponent schemaPath in
  let text := lineAt document (line position) in
  let contextType := ContextAnalyzer.type (analyzeContext document position) in
  line position < List.length (lines document) ->
  character position <= String.length text ->
  match provideHover this document position with
  | Some hover =>
      exists start stop fieldInfo,
        getFieldWordRange document position = Some (hover_range hover)
        /\ hover_range hover
           = mkRange (mkPosition (line position) start)
                     (mkPosition (line position) stop)
        /\ start <= character position <= stop
        /\ isWord (substring start stop text)
        /\ contextType <> Unknown
        /\ isValidField this contextType (substring start stop text) = true
        /\ getFieldInfo this contextType (substring start stop text)
           = Some fieldInfo
        /\ name fieldInfo = substring start stop text
        /\ contents hover = markdownOf fieldInfo contextType
        /\ Js.startsWith ("### " ++ substring start stop text ++ newline)
                         (contents hover) = true
  | None =>
      getFieldWordRange document position = None
      \/ contextType = Unknown
      \/ exists range,
           getFieldWordRange document position = Some range
           /\ isValidField this contextType
                (substring (character (range_start range))
                           (character (range_end range)) text) = false
  end.
Proof.
  intros this text contextType Hline Hchar.
  pose proof (AnalyzerExtras.getFieldWordRange_cases document position Hchar)
    as Hrange.
  unfold provideHover.
  destruct (getFieldWordRange document position) as [range|]; [|now left].
  cbv zeta in Hrange. fold text in Hrange.
  destruct range as [[l1 start] [l2 stop]].
  cbn [range_start range_end line character] in Hrange.
  destruct Hrange as (-> & -> & Hcursor & Hstop & Hword & _).
  rewrite getTextIn_line by (try assumption; fold text; lia).
  fold text. subst contextType.
  pose proof (wellKeyed_new readFileSync JSON_parse decodeURIComponent schemaPath)
    as W.
  fold this in W.
  set (word := substring start stop text) in *.
  assert (Hfound : forall contextType fieldInfo,
             getFieldInfo this contextType word = Some fieldInfo ->
             contextType <> Unknown ->
             exists start0 stop0 fieldInfo0,
               Some (mkRange (mkPosition (line position) start)
                             (mkPosition (line position) stop))
               = Some (mkRange (mkPosition (line position) start)
                               (mkPosition (line position) stop))
               /\ mkRange (mkPosition (line position) start)
                          (mkPosition (line position) stop)
                  = mkRange (mkPosition (line position) start0)
                            (mkPosition (line position) stop0)
               /\ start0 <= character position <= stop0
               /\ isWord (substring start0 stop0 text)
               /\ contextType <> Unknown
               /\ isValidField this contextType (substring start0 stop0 text)
                  = true
               /\ getFieldInfo this contextType (substring start0 stop0 text)
                  = Some fieldInfo0
               /\ name fieldInfo0 = substring start0 stop0 text
               /\ markdownOf fieldInfo contextType
                  = markdownOf fieldInfo0 contextType
               /\ Js.startsWith ("### " ++ substring start0 stop0 text ++ newline)
                                (markdownOf fieldInfo contextType) = true).
  { intros contextType fieldInfo E Hknown.
    pose proof (getFieldInfo_name this contextType _ _ W E) as Hname.
    exists start, stop, fieldInfo. fold word.
    split; [reflexivity|]. split; [reflexivity|]. split; [exact Hcursor|].
    split; [exact Hword|]. split; [exact Hknown|].
    split; [unfold isValidField; now rewrite E|].
    split; [exact E|]. split; [exact Hname|]. split; [reflexivity|].
    rewrite <- Hname. apply markdownOf_title. }
  assert (Hmissing : forall contextType,
             getFieldInfo this contextType word = None ->
             exists range,
               Some (mkRange (mkPosition (line position) start)
                             (mkPosition (line position) stop)) = Some range
               /\ isValidField this contextType
                    (substring (character (range_start range))
                               (character (range_end range)) text) = false).
  { intros contextType E. eexists. split; [reflexivity|].
    cbn [range_start range_end character]. fold word.
    unfold isValidField. now rewrite E. }
  destruct (ContextAnalyzer.type (analyzeContext document position)).
  - destruct (getFieldInfo this Endpoint word) as [fieldInfo|] eqn:E.
    + cbn [hover_range contents]. apply (Hfound Endpoint fieldInfo E).
      discriminate.
    + right. right. apply (Hmissing Endpoint E).
  - destruct (getFieldInfo this Backend word) as [fieldInfo|] eqn:E.
    + cbn [hover_range contents]. apply (Hfound Backend fieldInfo E).
      discriminate.
    + right. right. apply (Hmissing Backend E).
  - right. left. reflexivity.
Qed.

End HostHover.

Lemma hover_describes_field_at_cursor_witness :
  exists hover,
    provideHover (parserOf sampleSchema) endpointsDoc (mkPosition 0 37)
    = Some hover
    /\ hover_range hover = mkRange (mkPosition 0 35) (mkPosition 0 41)
    /\ Js.startsWith ("### method" ++ newline) (contents hover) = true.
Proof.
  assert (Hline : line (mkPosition 0 37) < List.length (lines endpointsDoc))
    by (vm_compute; lia).
  assert (Hchar : character (mkPosition 0 37)
                  <= String.length (lineAt endpointsDoc (line (mkPosition 0 37))))
    by (vm_compute; lia).
  pose proof (hover_describes_field_at_cursor
                readsFile (parsesTo sampleSchema) decodesNothing "schema.json"
                endpointsDoc (mkPosition 0 37) Hline Hchar) as H.
  cbv zeta in H. fold (parserOf sampleSchema) in H.
  destruct (provideHover (parserOf sampleSchema) endpointsDoc (mkPosition 0 37))
    as [hover|] eqn:E.
  - exists hover. split; [reflexivity|].
    vm_compute in E. injection E as <-. split; reflexivity.
  - vm_compute in E. discriminate.
Defined.

End HoverExtras.

(* ================================================================== *)
(** ** Inside and outside of a template action *)
(* ================================================================== *)

Module ActionExtras.
Import Vscode ContextAnalyzer SchemaParser DiagnosticsProvider CompletionProvider.
Import HoverProvider Spec Samples JsFacts AnalyzerExtras HoverExtras.

Lemma lastIndexOf_opt_inv p s :
  forall n,
    Js.lastIndexOf_opt p s = Some n ->
    Js.startsWith p (Js.drop n s) = true /\ n <= String.length s.
Proof.
  induction s as [|c s IH]; intros n.
  - cbn [Js.lastIndexOf_opt]. destruct (Js.startsWith p "") eqn:E; [|discriminate].
    intros H; injection H as <-. split; [exact E|simpl; lia].
  - cbn [Js.lastIndexOf_opt].
    destruct (Js.lastIndexOf_opt p s) as [m|].
    + intros H; injection H as <-. destruct (IH m eq_refl) as [Hs Hle].
      split; [exact Hs|simpl; lia].
    + destruct (Js.startsWith p (String c s)) eqn:E; [|discriminate].
      intros H; injection H as <-. split; [exact E|simpl; lia].
Qed.

Lemma lastIndexOf_opt_max p s :
  forall k,
    Js.startsWith p (Js.drop k s) = true -> k <= String.length s ->
    exists n, Js.lastIndexOf_opt p s = Some n /\ k <= n.
Proof.
  induction s as [|c s IH]; intros k Hs Hk.
  - simpl in Hk. assert (k = 0) by lia. subst k.
    cbn [Js.drop] in Hs. cbn [Js.lastIndexOf_opt]. rewrite Hs.
    exists 0. split; [reflexivity|lia].
  - cbn [Js.lastIndexOf_opt]. destruct k as [|k].
    + cbn [Js.drop] in Hs.
      destruct (Js.lastIndexOf_opt p s) as [m|].
      * exists (S m). split; [reflexivity|lia].
      * rewrite Hs. exists 0. split; [reflexivity|lia].
    + cbn [Js.drop] in Hs. simpl in Hk.
      destruct (IH k Hs) as (n & -> & Hn); [lia|].
      exists (S n). split; [reflexivity|lia].
Qed.

Lemma indexOf_opt_inv p s :
  forall k,
    Js.indexOf_opt p s = Some k ->
    Js.startsWith p (Js.drop k s) = true /\ k <= String.length s.
Proof.
  induction s as [|c s IH]; intros k.
  - cbn [Js.indexOf_opt]. destruct (Js.startsWith p "") eqn:E; [|discriminate].
    intros H; injection H as <-. split; [exact E|simpl; lia].
  - cbn [Js.indexOf_opt]. destruct (Js.startsWith p (String c s)) eqn:E.
    + intros H; injection H as <-. split; [exact E|simpl; lia].
    + destruct (Js.indexOf_opt p s) as [m|]; [|discriminate].
      intros H; injection H as <-. destruct (IH m eq_refl) as [Hs Hle].
      split; [exact Hs|simpl; lia].
Qed.

Lemma startsWith_drop_includes p s :
  forall k,
    Js.startsWith p (Js.drop k s) = true -> k <= String.length s ->
    Js.includes p s = true.
Proof.
  unfold Js.includes. induction s as [|c s IH]; intros k Hs Hk.
  - simpl in Hk. assert (k = 0) by lia. subst k.
    cbn [Js.drop] in Hs. cbn [Js.indexOf_opt]. now rewrite Hs.
  - cbn [Js.indexOf_opt]. destruct (Js.startsWith p (String c s)) eqn:E;
      [reflexivity|].
    destruct k as [|k]; [cbn [Js.drop] in Hs; congruence|].
    cbn [Js.drop] in Hs. simpl in Hk.
    specialize (IH k Hs). destruct (Js.indexOf_opt p s); [reflexivity|].
    apply IH. lia.
Qed.

Lemma lastIndexOf_none_includes p s :
  Js.lastIndexOf_opt p s = None <-> Js.includes p s = false.
Proof.
  split.
  - intros Hnone. destruct (Js.includes p s) eqn:E; [|reflexivity].
    unfold Js.includes in E.
    destruct (Js.indexOf_opt p s) as [k|] eqn:Ek; [|discriminate].
    destruct (indexOf_opt_inv _ _ _ Ek) as [Hs Hk].
    destruct (lastIndexOf_opt_max _ _ _ Hs Hk) as (n & Hn & _). congruence.
  - intros Hno. destruct (Js.lastIndexOf_opt p s) as [n|] eqn:E; [|reflexivity].
    destruct (lastIndexOf_opt_inv _ _ _ E) as [Hs Hn].
    rewrite (startsWith_drop_includes _ _ _ Hs Hn) in Hno. discriminate.
Qed.

Lemma startsWith_split p s :
  Js.startsWith p s = true -> s = (p ++ Js.drop (String.length p) s)%string.
Proof.
  intros H. apply stripPrefix_inv. unfold Js.stripPrefix. now rewrite H.
Qed.

(** The guard of the analyzer in terms of the two searches. *)
Lemma outsideAction_searches textBefore :
  outsideAction textBefore <->
  Js.lastIndexOf_opt "{{" textBefore = None
  \/ exists lastOpen lastClose,
       Js.lastIndexOf_opt "{{" textBefore = Some lastOpen
       /\ Js.lastIndexOf_opt "}}" textBefore = Some lastClose
       /\ lastOpen < lastClose.
Proof.
  split.
  - intros [Hno|(a & b & -> & Hb)].
    + left. now apply lastIndexOf_none_includes.
    + destruct (Js.lastIndexOf_opt "{{" (a ++ "}}" ++ b)) as [lastOpen|] eqn:Eo;
        [right|now left].
      destruct (lastIndexOf_opt_max "}}" (a ++ "}}" ++ b) (String.length a))
        as (lastClose & Ec & Hc).
      { rewrite drop_append. reflexivity. }
      { rewrite length_append. lia. }
      exists lastOpen, lastClose. split; [reflexivity|split; [exact Ec|]].
      destruct (lastIndexOf_opt_inv _ _ _ Eo) as [Hs Hlen].
      destruct (Nat.lt_ge_cases lastOpen (String.length a)) as [Hlt|Hge]; [lia|].
      exfalso.
      replace lastOpen with (String.length a + (lastOpen - String.length a))
        in Hs by lia.
      rewrite drop_add, drop_append in Hs.
      rewrite !length_append in Hlen. cbn [String.length] in Hlen.
      destruct (lastOpen - String.length a) as [|[|m]] eqn:Em.
      * discriminate Hs.
      * cbn [append Js.drop] in Hs. destruct b; discriminate Hs.
      * change (Js.drop (S (S m)) ("}}" ++ b)) with (Js.drop m b) in Hs.
        rewrite (startsWith_drop_includes _ _ _ Hs) in Hb; [discriminate|lia].
  - intros [Hnone|(lastOpen & lastClose & Eo & Ec & Hlt)].
    + left. now apply lastIndexOf_none_includes.
    + right. destruct (lastIndexOf_opt_inv _ _ _ Ec) as [Hs Hlen].
      exists (Js.take lastClose textBefore),
             (Js.drop 2 (Js.drop lastClose textBefore)).
      split.
      * rewrite <- (take_drop lastClose textBefore) at 1. f_equal.
        exact (startsWith_split _ _ Hs).
      * destruct (Js.includes "{{" (Js.drop 2 (Js.drop lastClose textBefore)))
          eqn:E; [|reflexivity].
        exfalso. unfold Js.includes in E.
        destruct (Js.indexOf_opt "{{" (Js.drop 2 (Js.drop lastClose textBefore)))
          as [k|] eqn:Ek; [|discriminate].
        destruct (indexOf_opt_inv _ _ _ Ek) as [Hk Hklen].
        rewrite <- !drop_add in Hk. rewrite <- drop_add, length_drop in Hklen.
        pose proof (startsWith_length _ _ Hs) as Hroom.
        rewrite length_drop in Hroom. cbn [String.length] in Hroom.
        destruct (lastIndexOf_opt_max _ _ _ Hk) as (n & En & Hn); [lia|].
        rewrite Eo in En. injection En as <-. lia.
Qed.

Lemma analyzeContext_outside document position :
  outsideAction (Js.take (character position)
                         (lineAt document (line position))) ->
  analyzeContext document position = unknownContext.
Proof.
  intros Hout. apply outsideAction_searches in Hout.
  unfold analyzeContext, Js.lastIndexOf.
  destruct Hout as [->|(lastOpen & lastClose & -> & -> & Hlt)];
    cbn [Js.toIndex]; [reflexivity|].
  assert (E : (Z.of_nat lastClose >? Z.of_nat lastOpen)%Z = true)
    by (rewrite Z.gtb_ltb; apply Z.ltb_lt; lia).
  now rewrite E, orb_true_r.
Qed.

Lemma unknown_no_completion schemaParser document position :
  ContextAnalyzer.type (analyzeContext document position) = Unknown ->
  provideCompletionItems schemaParser document position = Undefined.
Proof.
  intros Hunknown.
  assert (He : provideEnumItems schemaParser document position = Undefined).
  { unfold provideEnumItems, detectEnumContext.
    destruct (Js.matchToEnd jsonFieldAt _); [|reflexivity].
    now rewrite Hunknown. }
  unfold provideCompletionItems.
  destruct (Js.matchToEnd dotAt _) as [[v p]|]; [|exact He].
  now rewrite Hunknown.
Qed.

(** X15. Outside of a template action the providers are silent.  When
    the text of the line before the cursor holds no opening braces, or
    closing braces stand behind the last of them, [analyzeContext] answers
    [unknown], [provideCompletionItems] and [provideHover] answer
    [undefined] whatever the schema, and [isInsideTemplateDelimiters]
    answers false. *)
Theorem outside_action_is_silent
        (schemaParser : SchemaParser) (document : TextDocument)
        (position : Position) :
  outsideAction (Js.take (character position)
                         (lineAt document (line position))) ->
  analyzeContext document position = unknownContext
  /\ provideCompletionItems schemaParser document position = Undefined
  /\ provideHover schemaParser document position = None
  /\ isInsideTemplateDelimiters document position = false.
Proof.
  intros Hout. pose proof (analyzeContext_outside _ _ Hout) as Hunknown.
  split; [exact Hunknown|split; [|split]].
  - apply unknown_no_completion. now rewrite Hunknown.
  - unfold provideHover. rewrite Hunknown.
    now destruct (getFieldWordRange document position).
  - apply outsideAction_searches in Hout.
    unfold isInsideTemplateDelimiters, Js.lastIndexOf.
    destruct Hout as [->|(lastOpen & lastClose & -> & -> & Hlt)];
      cbn [Js.toIndex]; [reflexivity|].
    assert (E1 : (Z.of_nat lastClose =? -1)%Z = false)
      by (apply Z.eqb_neq; lia).
    assert (E2 : (Z.of_nat lastClose <? Z.of_nat lastOpen)%Z = false)
      by (apply Z.ltb_ge; lia).
    rewrite E1, E2. cbn [orb]. now rewrite andb_false_r.
Qed.

Lemma outside_action_is_silent_witness :
  getFieldWordRange enumDoc (mkPosition 1 11)
  = Some (mkRange (mkPosition 1 11) (mkPosition 1 15))
  /\ provideHover (parserOf sampleSchema) enumDoc (mkPosition 1 11) = None
  /\ provideCompletionItems (parserOf sampleSchema) enumDoc (mkPosition 1 11)
     = Undefined.
Proof.
  split; [reflexivity|].
  assert (Hout : outsideAction
                   (Js.take (character (mkPosition 1 11))
                            (lineAt enumDoc (line (mkPosition 1 11)))))
    by (left; reflexivity).
  destruct (outside_action_is_silent (parserOf sampleSchema) enumDoc
                                     (mkPosition 1 11) Hout)
    as (_ & Hcompletion & Hhover & _).
  split; assumption.
Defined.

Lemma not_both_braces s :
  Js.startsWith "{{" s = true -> Js.startsWith "}}" s = true -> False.
Proof.
  destruct s as [|c s]; [discriminate|].
  rewrite !startsWith_cons. intros H1 H2.
  apply andb_true_iff in H1, H2. destruct H1 as [H1 _], H2 as [H2 _].
  apply Ascii.eqb_eq in H1, H2. congruence.
Qed.

(** X16. [isInsideTemplateDelimiters] answers true exactly when the
    cursor stands in an action that is open before it and closed behind
    it: the text of the line before the cursor holds opening braces with
    no closing braces behind the last of them, and the text from the
    cursor on holds closing braces. *)
Theorem isInsideTemplateDelimiters_open_and_closed
        (document : TextDocument) (position : Position) :
  let text := lineAt document (line position) in
  isInsideTemplateDelimiters document position = true
  <-> ~ outsideAction (Js.take (character position) text)
      /\ Js.includes "}}" (Js.drop (character position) text) = true.
Proof.
  intros text. unfold isInsideTemplateDelimiters. fold text.
  set (textBefore := Js.take (character position) text).
  set (textAfter := Js.drop (character position) text).
  rewrite outsideAction_searches.
  assert (Hnext : negb (Js.indexOf "}}" textAfter =? -1)%Z
                  = Js.includes "}}" textAfter).
  { unfold Js.indexOf, Js.includes.
    destruct (Js.indexOf_opt "}}" textAfter) as [n|]; cbn [Js.toIndex];
      [|reflexivity].
    apply negb_true_iff, Z.eqb_neq. lia. }
  rewrite Hnext. unfold Js.lastIndexOf.
  destruct (Js.lastIndexOf_opt "{{" textBefore) as [lastOpen|] eqn:Eo;
    cbn [Js.toIndex].
  2:{ cbn [Z.eqb negb andb]. split; [discriminate|].
      intros [Hin _]. exfalso. apply Hin. now left. }
  assert (E0 : negb (Z.of_nat lastOpen =? -1)%Z = true)
    by (apply negb_true_iff, Z.eqb_neq; lia).
  rewrite E0. cbn [andb].
  destruct (Js.lastIndexOf_opt "}}" textBefore) as [lastClose|] eqn:Ec;
    cbn [Js.toIndex].
  - assert (E1 : (Z.of_nat lastClose =? -1)%Z = false)
      by (apply Z.eqb_neq; lia).
    rewrite E1. cbn [orb].
    destruct (Z.ltb_spec (Z.of_nat lastClose) (Z.of_nat lastOpen)) as [Hlt|Hge];
      cbn [andb].
    + split.
      * intros Hincl. split; [|exact Hincl].
        intros [Hnone|(o & c & Ho & Hc & Hoc)]; [discriminate|].
        injection Ho as <-. injection Hc as <-. lia.
      * intros [_ Hincl]. exact Hincl.
    + split; [discriminate|].
      intros [Hin _]. exfalso. apply Hin. right.
      exists lastOpen, lastClose. split; [reflexivity|split; [reflexivity|]].
      destruct (Nat.eq_dec lastOpen lastClose) as [E|Hne]; [|lia].
      exfalso. subst lastClose.
      destruct (lastIndexOf_opt_inv _ _ _ Eo) as [Ho _].
      destruct (lastIndexOf_opt_inv _ _ _ Ec) as [Hc _].
      exact (not_both_braces _ Ho Hc).
  - cbn [Z.eqb orb andb]. split.
    + intros Hincl. split; [|exact Hincl].
      intros [Hnone|(o & c & _ & Hc & _)]; discriminate.
    + intros [_ Hincl]. exact Hincl.
Qed.

Lemma isInsideTemplateDelimiters_open_and_closed_witness :
  ~ outsideAction (Js.take 39 (lineAt endpointsDoc 0))
  /\ Js.includes "}}" (Js.drop 39 (lineAt endpointsDoc 0)) = true.
Proof.
  apply (isInsideTemplateDelimiters_open_and_closed endpointsDoc (mkPosition 0 39)).
  reflexivity.
Defined.

Lemma dotAt_inv s v p :
  dotAt s = Some (v, p) ->
  s = ("$" ++ v ++ "." ++ p)%string
  /\ allChars Js.isWordChar v = true /\ allChars Js.isWordChar p = true.
Proof.
  unfold dotAt.
  destruct (Js.stripPrefix "$" s) as [s1|] eqn:E1; [|discriminate].
  destruct (Js.span Js.isWordChar s1) as [v' s2] eqn:E2.
  destruct (Js.isEmpty v'); [discriminate|].
  destruct (Js.stripPrefix "." s2) as [s3|] eqn:E3; [|discriminate].
  destruct (Js.span Js.isWordChar s3) as [p' s4] eqn:E4.
  destruct s4 as [|c s4]; [|discriminate].
  cbn [Js.isEmpty]. intros H; injection H as <- <-.
  apply stripPrefix_inv in E1, E3.
  destruct (span_inv _ _ _ _ E2) as [Es1 Hv].
  destruct (span_inv _ _ _ _ E4) as [Es3 Hp].
  rewrite append_nil_r in Es3. subst. repeat split; assumption.
Qed.

Lemma dotAt_here v p :
  isWord v -> allChars Js.isWordChar p = true ->
  dotAt ("$" ++ v ++ "." ++ p) = Some (v, p).
Proof.
  intros [Hne Hv] Hp. unfold dotAt.
  change ("$" ++ v ++ "." ++ p)%string with (String "$" (v ++ String "." p)).
  rewrite stripPrefix_char.
  rewrite (span_word v (String "." p) Hv eq_refl), Hne.
  rewrite stripPrefix_char.
  pose proof (span_word p "" Hp I) as Hspan. rewrite append_nil_r in Hspan.
  rewrite Hspan. reflexivity.
Qed.

Lemma word_notDollar c : Js.isWordChar c = true -> notDollar c = true.
Proof. destruct c as [[] [] [] [] [] [] [] []]; vm_compute; congruence. Qed.

(** The pattern of the completion provider finds the reference that ends
    the text, whatever stands before it. *)
Lemma matchToEnd_dot pre v p :
  isWord v -> allChars Js.isWordChar p = true ->
  Js.matchToEnd dotAt (pre ++ "$" ++ v ++ "." ++ p) = Some (v, p).
Proof.
  intros Hv Hp. induction pre as [|c pre IH].
  - change ("" ++ "$" ++ v ++ "." ++ p)%string
      with ("$" ++ v ++ "." ++ p)%string.
    pose proof (dotAt_here v p Hv Hp) as E.
    destruct ("$" ++ v ++ "." ++ p)%string; cbn [Js.matchToEnd]; now rewrite E.
  - change (String c pre ++ "$" ++ v ++ "." ++ p)%string
      with (String c (pre ++ "$" ++ v ++ "." ++ p)).
    cbn [Js.matchToEnd].
    destruct (dotAt (String c (pre ++ "$" ++ v ++ "." ++ p))) as [[v' p']|] eqn:E;
      [exfalso|exact IH].
    destruct (dotAt_inv _ _ _ E) as (Htext & Hv' & Hp').
    cbn [append] in Htext. injection Htext as _ Htext.
    assert (Hno : allChars notDollar (v' ++ String "." p') = true).
    { rewrite allChars_append. cbn [allChars].
      rewrite (allChars_impl _ _ _ word_notDollar Hv').
      rewrite (allChars_impl _ _ _ word_notDollar Hp'). reflexivity. }
    rewrite <- Htext, allChars_append in Hno.
    apply andb_true_iff in Hno. destruct Hno as [_ Hno]. discriminate Hno.
Qed.

(** X17. Field completion behind a dot.  With the cursor behind
    [$v.partial] in an action that is still open before the cursor,
    nothing but plain text standing between the opening braces and the
    variable, [provideCompletionItems] answers a complete list of the
    fields of the resolved shape whose names contain the partial text (the
    shape of the nearest iteration binding, or else the one the variable
    name hints at), and [undefined] when neither gives a shape. *)
Theorem completion_behind_dot
        (schemaParser : SchemaParser) (document : TextDocument)
        (position : Position) (start mid v partialField : string) :
  Js.take (character position) (lineAt document (line position))
  = (start ++ "{{" ++ mid ++ "$" ++ v ++ "." ++ partialField)%string ->
  allChars plainChar mid = true ->
  isWord v -> allChars Js.isWordChar partialField = true ->
  provideCompletionItems schemaParser document position
  = match
      match inferContextFromSurrounding document position with
      | Unknown => variableNameHint v
      | bound => bound
      end
    with
    | Unknown => Undefined
    | contextType =>
        CompletionList
          (getFieldCompletions schemaParser contextType partialField) false
    end.
Proof.
  intros Htext Hmid Hv Hpartial.
  assert (Htype : ContextAnalyzer.type (analyzeContext document position)
                  = match inferContextFromSurrounding document position with
                    | Unknown => variableNameHint v
                    | bound => bound
                    end).
  { destruct partialField as [|c partialField].
    - destruct (reference_before_cursor document position start mid v [] ".")
        as [-> _]; auto.
    - destruct (reference_before_cursor document position start mid v
                  [String c partialField] "") as [-> _]; auto.
      + rewrite Htext. cbn [dotted]. now rewrite !append_nil_r.
      + constructor; [now split|constructor]. }
  destruct (ContextAnalyzer.type (analyzeContext document position)) eqn:Hctx;
    rewrite <- Htype.
  - unfold provideCompletionItems. rewrite Htext.
    replace (start ++ "{{" ++ mid ++ "$" ++ v ++ "." ++ partialField)%string
      with ((start ++ "{{" ++ mid) ++ "$" ++ v ++ "." ++ partialField)%string
      by (rewrite !append_assoc; reflexivity).
    rewrite (matchToEnd_dot _ _ _ Hv Hpartial). now rewrite Hctx.
  - unfold provideCompletionItems. rewrite Htext.
    replace (start ++ "{{" ++ mid ++ "$" ++ v ++ "." ++ partialField)%string
      with ((start ++ "{{" ++ mid) ++ "$" ++ v ++ "." ++ partialField)%string
      by (rewrite !append_assoc; reflexivity).
    rewrite (matchToEnd_dot _ _ _ Hv Hpartial). now rewrite Hctx.
  - now apply unknown_no_completion.
Qed.

Lemma completion_behind_dot_witness :
  provideCompletionItems (parserOf sampleSchema) typingDoc (mkPosition 0 35)
  = CompletionList (getFieldCompletions (parserOf sampleSchema) Endpoint "") false.
Proof.
  apply (completion_behind_dot (parserOf sampleSchema) typingDoc
                               (mkPosition 0 35)
                               "{{ range $e := .endpoints }} " " " "e" "").
  - reflexivity.
  - reflexivity.
  - split; reflexivity.
  - reflexivity.
Defined.







Lemma plain_notDollar c : plainChar c = true -> notDollar c = true.
Proof.
  unfold plainChar, notDollar. destruct (Ascii.eqb c "$"); simpl; congruence.
Qed.








End ActionExtras.
